(** * Eventing producer/consumer supervision layer: a shallow embedding

    The development follows the Go sources of the eventing runtime:

    - [Planner]   producer/vbucket_node_assignment.go
                  ([vbEventingNodeAssign], [initWorkerVbMap], [getKvVbMap]);
    - [Takeover]  consumer/vbucket_takeover.go ([doVbTakeover],
                  [updateVbOwnerAndStartDCPStream], [updateCheckpoint],
                  [vbGiveUpRoutine] with its metadata poll, and the
                  ownership lists [getVbRemainingToOwn],
                  [getVbRemainingToGiveUp], [getVbsOwned] and
                  [getConsumerForGivenVbucket]);
    - [Ipc]       the consumer's frame builders ([makeHeader], the
                  [make*Payload] family, [readHeader]);
    - [Depcfg]    the producer's [parseDepcfg].

    Go's [int] is taken to be the 64-bit type of the supported platforms and
    is modelled by [Z]; every narrowing conversion the sources write
    ([uint16(..)], [int16(..)], [int32(..)]) is written out. *)

From Stdlib Require Import ZArith Lia DecimalString DecimalNat.
From stdpp Require Import gmap strings list sorting fin_maps.

Local Open Scope Z_scope.

(** ** Machine integers *)

(** Conversion to an unsigned [w]-bit integer keeps the low [w] bits. *)
Definition to_unsigned (w : Z) (z : Z) : Z := z mod 2 ^ w.

(** Conversion to a signed [w]-bit integer: two's complement. *)
Definition to_signed (w : Z) (z : Z) : Z :=
  (z + 2 ^ (w - 1)) mod 2 ^ w - 2 ^ (w - 1).

Definition uint16 : Z → Z := to_unsigned 16.
Definition int8 : Z → Z := to_signed 8.
Definition int16 : Z → Z := to_signed 16.
Definition int32 : Z → Z := to_signed 32.
Definition int64 : Z → Z := to_signed 64.

Definition in_unsigned (w z : Z) : Prop := 0 ≤ z < 2 ^ w.
Definition in_signed (w z : Z) : Prop := - 2 ^ (w - 1) ≤ z < 2 ^ (w - 1).

Lemma uint16_id z : 0 ≤ z < 65536 → uint16 z = z.
Proof. intros. unfold uint16, to_unsigned. apply Z.mod_small. lia. Qed.

Lemma fmap_uint16_id (l : list Z) :
  Forall (λ z, 0 ≤ z < 65536) l → uint16 <$> l = l.
Proof.
  induction 1 as [|z l Hz _ IH]; [done|].
  rewrite fmap_cons, IH, uint16_id; done.
Qed.

(** [strconv.Itoa] / the [%d] verb on a non-negative integer. *)
Definition itoa (n : nat) : string := NilEmpty.string_of_uint (Nat.to_uint n).

(** ** The assignment planner (producer/vbucket_node_assignment.go) *)

Module Planner.

(** [vbCountPerNode[i] = vbucketsPerNode; vbNo += vbucketsPerNode] for
    [i = 0 .. n-1]; the slice was made with [n] zeroes.  [None] stands for
    the run-time panic of an index out of range. *)
Fixpoint fillCounts (n i : nat) (per : Z) (cnt : list Z) (vbNo : Z)
  : option (list Z * Z) :=
  match n with
  | O => Some (cnt, vbNo)
  | S n' =>
      match cnt !! i with
      | Some _ => fillCounts n' (S i) per (<[i := per]> cnt) (vbNo + per)
      | None => None
      end
  end.

(** [for i := 0; i < remainingVbs; i++ { cnt[i] = cnt[i] + 1 }] *)
Fixpoint bumpCounts (n i : nat) (cnt : list Z) : option (list Z) :=
  match n with
  | O => Some cnt
  | S n' =>
      match cnt !! i with
      | Some c => bumpCounts n' (S i) (<[i := c + 1]> cnt)
      | None => None
      end
  end.

(** The count vector both functions compute: [total / slots] each, then one
    more for the first [total - slots * (total / slots)] entries.  Go's [/]
    truncates toward zero ([Z.quot]) and panics on a zero divisor;
    [make([]int, n)] panics on a negative length.  The length is taken to
    be one the allocator grants; [countsPerWithin] has its limit. *)
Definition countsPer (total slots : Z) : option (list Z) :=
  if decide (slots = 0) then None
  else if decide (slots < 0) then None
  else
    let per := Z.quot total slots in
    match fillCounts (Z.to_nat slots) 0 per (replicate (Z.to_nat slots) 0) 0 with
    | None => None
    | Some (cnt, vbNo) =>
        let remainingVbs := total - vbNo in
        if decide (remainingVbs > 0)
        then bumpCounts (Z.to_nat remainingVbs) 0 cnt
        else Some cnt
    end.

(** [for j := 0; j < v; j++ { m[startVb] = addr; startVb++ }], with
    [startVb] a [uint16] that wraps around. *)
Fixpoint assignBlock (v : nat) (addr : string) (m : gmap Z string) (startVb : Z)
  : gmap Z string * Z :=
  match v with
  | O => (m, startVb)
  | S v' => assignBlock v' addr (<[startVb := addr]> m) (uint16 (startVb + 1))
  end.

(** [for i, v := range vbCountPerNode { ... eventingNodeAddrs[i] ... }] *)
Fixpoint assignNodes (cnt : list Z) (i : nat) (addrs : list string)
    (m : gmap Z string) (startVb : Z) : option (gmap Z string * Z) :=
  match cnt with
  | [] => Some (m, startVb)
  | v :: cnt' =>
      if decide (0 < v) then
        match addrs !! i with
        | Some a =>
            let '(m', s') := assignBlock (Z.to_nat v) a m startVb in
            assignNodes cnt' (S i) addrs m' s'
        | None => None
        end
      else assignNodes cnt' (S i) addrs m startVb
  end.

(** [vbEventingNodeAssign]: [NumVbuckets] is the package constant (declared
    outside the files at hand) and [eventingNodeAddrs] the membership
    snapshot; the result is [p.vbEventingNodeAssignMap]. *)
Definition vbEventingNodeAssign (NumVbuckets : Z) (eventingNodeAddrs : list string)
  : option (gmap Z string) :=
  match countsPer NumVbuckets (Z.of_nat (length eventingNodeAddrs)) with
  | None => None
  | Some vbCountPerNode =>
      match assignNodes vbCountPerNode 0 eventingNodeAddrs ∅ 0 with
      | None => None
      | Some (m, _) => Some m
      end
  end.

(** The keys of the node map owned by [eventingNodeAddr], collected by the
    [range] over the map ([int(k)] of a [uint16] key is the key itself) and
    put in ascending order by [sort.Ints]. *)
Definition vbucketsToHandle (m : gmap Z string) (eventingNodeAddr : string) : list Z :=
  merge_sort Z.le (filter (λ kv, kv.2 = eventingNodeAddr) (map_to_list m)).*1.

(** [fmt.Sprintf("worker_%s_%d", appName, i)] *)
Definition workerName (appName : string) (i : nat) : string :=
  "worker_" +:+ appName +:+ "_" +:+ itoa i.

(** A Go map read: a missing key yields the nil slice. *)
Definition workerVbs (wm : gmap string (list Z)) (name : string) : list Z :=
  default [] (wm !! name).

(** [for j := 0; j < v; j++ {
       wm[name] = append(wm[name], uint16(vbs[startVbIndex])); startVbIndex++ }] *)
Fixpoint appendBlock (v : nat) (name : string) (vbs : list Z)
    (wm : gmap string (list Z)) (startVbIndex : nat)
  : option (gmap string (list Z) * nat) :=
  match v with
  | O => Some (wm, startVbIndex)
  | S v' =>
      match vbs !! startVbIndex with
      | Some vb =>
          appendBlock v' name vbs
            (<[name := workerVbs wm name ++ [uint16 vb]]> wm) (S startVbIndex)
      | None => None
      end
  end.

(** [for i := 0; i < p.workerCount; i++ { workerName = ...; for j ... }] *)
Fixpoint assignWorkers (n i : nat) (cnt : list Z) (appName : string)
    (vbs : list Z) (wm : gmap string (list Z)) (startVbIndex : nat)
  : option (gmap string (list Z) * nat) :=
  match n with
  | O => Some (wm, startVbIndex)
  | S n' =>
      match cnt !! i with
      | Some v =>
          match appendBlock (Z.to_nat v) (workerName appName i) vbs wm startVbIndex with
          | Some (wm', idx') => assignWorkers n' (S i) cnt appName vbs wm' idx'
          | None => None
          end
      | None => None
      end
  end.

(** [initWorkerVbMap]: [m] is [p.vbEventingNodeAssignMap],
    [eventingNodeAddr] the address of the current node; the result is
    [p.workerVbucketMap]. *)
Definition initWorkerVbMap (m : gmap Z string) (eventingNodeAddr appName : string)
    (workerCount : Z) : option (gmap string (list Z)) :=
  let vbs := vbucketsToHandle m eventingNodeAddr in
  match countsPer (Z.of_nat (length vbs)) workerCount with
  | None => None
  | Some vbCountPerWorker =>
      match assignWorkers (Z.to_nat workerCount) 0 vbCountPerWorker appName vbs ∅ 0 with
      | None => None
      | Some (wm, _) => Some wm
      end
  end.

(** *** The data-node map *)

(** [for i := 0; i < len(vbs); i++ { p.kvVbMap[uint16(vbs[i])] = addr }] *)
Definition assignVbs (vbs : list Z) (addr : string) (m : gmap Z string)
  : gmap Z string :=
  foldl (λ m vb, <[uint16 vb := addr]> m) m vbs.

(** [getKvVbMap]: [kvAddrs] are the data nodes the cluster info cache
    lists, [GetServiceAddress] and [GetVBuckets] its answers for a node
    ([None] for an error, on which the loop moves on to the next node); the
    result is [p.kvVbMap]. *)
Definition getKvVbMap (kvAddrs : list Z) (GetServiceAddress : Z → option string)
    (GetVBuckets : Z → option (list Z)) : gmap Z string :=
  foldl (λ m kvaddr,
           match GetServiceAddress kvaddr with
           | None => m
           | Some addr =>
               match GetVBuckets kvaddr with
               | None => m
               | Some vbs => assignVbs vbs addr m
               end
           end) ∅ kvAddrs.

(** *** The limit of the allocator *)

(** [countsPer] with [make([]int, slots)] as the run-time performs it:
    besides a negative length, a length past [maxLen], the longest slice of
    [int] the allocator grants, panics as well. *)
Definition countsPerWithin (maxLen total slots : Z) : option (list Z) :=
  if decide (slots = 0) then None
  else if decide (slots < 0 ∨ maxLen < slots) then None
  else countsPer total slots.

(** [initWorkerVbMap] with that limit on [make([]int, p.workerCount)]. *)
Definition initWorkerVbMapWithin (maxLen : Z) (m : gmap Z string)
    (eventingNodeAddr appName : string) (workerCount : Z)
  : option (gmap string (list Z)) :=
  let vbs := vbucketsToHandle m eventingNodeAddr in
  match countsPerWithin maxLen (Z.of_nat (length vbs)) workerCount with
  | None => None
  | Some vbCountPerWorker =>
      match assignWorkers (Z.to_nat workerCount) 0 vbCountPerWorker appName vbs ∅ 0 with
      | None => None
      | Some (wm, _) => Some wm
      end
  end.

(** *** The split rule of the specification *)

(** Member [i] of a split with quotient [q] and remainder [r] receives
    [q + 1] items when [i < r] and [q] otherwise. *)
Definition share (q r : Z) (i : nat) : Z :=
  q + (if decide (Z.of_nat i < r) then 1 else 0).

(** Index of the first item of member [i]'s block. *)
Definition blockStart (q r : Z) (i : nat) : Z :=
  Z.of_nat i * q + Z.min (Z.of_nat i) r.

(** The block of [l] that member [i] receives. *)
Definition blockOf {A} (q r : Z) (l : list A) (i : nat) : list A :=
  take (Z.to_nat (share q r i)) (drop (Z.to_nat (blockStart q r i)) l).

Example node_split_4 :
  (λ m, length (filter (λ p, m !! p = Some "b") (seqZ 0 1024)))
    <$> vbEventingNodeAssign 1024 ["a"; "b"; "c"; "d"] = Some 256%nat.
Proof. vm_compute. reflexivity. Qed.

Example node_split_3 :
  (λ m, (λ a, length (filter (λ p, m !! p = Some a) (seqZ 0 1024))) <$> ["a"; "b"; "c"])
    <$> vbEventingNodeAssign 1024 ["a"; "b"; "c"] = Some [342; 341; 341]%nat.
Proof. vm_compute. reflexivity. Qed.

Example worker_split_10 :
  (λ wm, workerVbs wm <$> [workerName "app" 0; workerName "app" 1; workerName "app" 2])
    <$> (vbEventingNodeAssign 10 ["a"; "b"] ≫= λ m, initWorkerVbMap m "a" "app" 3)
  = Some [[0; 1]; [2; 3]; [4]].
Proof. vm_compute. reflexivity. Qed.

(** *** Arithmetic of the split rule *)

Lemma blockStart_0 q r : 0 ≤ r → blockStart q r 0 = 0.
Proof. unfold blockStart. lia. Qed.

Lemma blockStart_S q r i :
  0 ≤ r → blockStart q r (S i) = blockStart q r i + share q r i.
Proof. unfold blockStart, share. case_decide; lia. Qed.

Lemma blockStart_end total slots :
  0 < slots →
  blockStart (total `div` slots) (total `mod` slots) (Z.to_nat slots) = total.
Proof.
  intros Hs. unfold blockStart.
  pose proof (Z.mod_pos_bound total slots Hs).
  pose proof (Z.div_mod total slots). nia.
Qed.

Lemma share_nonneg q r i : 0 ≤ q → 0 ≤ share q r i.
Proof. unfold share. case_decide; lia. Qed.

Lemma blockStart_nonneg q r i : 0 ≤ q → 0 ≤ r → 0 ≤ blockStart q r i.
Proof. unfold blockStart. nia. Qed.

Lemma blockStart_mono q r i j :
  0 ≤ q → 0 ≤ r → (i ≤ j)%nat → blockStart q r i ≤ blockStart q r j.
Proof. unfold blockStart. nia. Qed.

(** Any two shares differ by at most one. *)
Lemma share_balanced q r i j : -1 ≤ share q r i - share q r j ≤ 1.
Proof. unfold share. repeat case_decide; lia. Qed.

(** *** The count loops *)

Lemma fillCounts_spec n : ∀ i per cnt vbNo,
  (i + n ≤ length cnt)%nat →
  fillCounts n i per cnt vbNo =
    Some (take i cnt ++ replicate n per ++ drop (i + n) cnt,
          vbNo + Z.of_nat n * per).
Proof.
  induction n as [|n IH]; intros i per cnt vbNo Hlen; simpl.
  - rewrite Nat.add_0_r, take_drop. f_equal. f_equal. lia.
  - destruct (lookup_lt_is_Some_2 cnt i) as [c Hc]; [lia|]. rewrite Hc.
    rewrite IH by (rewrite length_insert; lia).
    f_equal. f_equal; [|lia].
    rewrite (take_S_r _ _ per) by (apply list_lookup_insert_eq; lia).
    rewrite take_insert_ge by lia.
    rewrite drop_insert_lt by lia.
    rewrite <- app_assoc. simpl.
    by replace (i + S n)%nat with (S (i + n)) by lia.
Qed.

Lemma bumpCounts_spec n : ∀ i cnt,
  (i + n ≤ length cnt)%nat →
  bumpCounts n i cnt =
    Some (take i cnt ++ (Z.succ <$> take n (drop i cnt)) ++ drop (i + n) cnt).
Proof.
  induction n as [|n IH]; intros i cnt Hlen; simpl.
  - by rewrite Nat.add_0_r, take_drop.
  - destruct (lookup_lt_is_Some_2 cnt i) as [c Hc]; [lia|]. rewrite Hc.
    rewrite IH by (rewrite length_insert; lia).
    f_equal.
    rewrite (take_S_r _ _ (c + 1)) by (apply list_lookup_insert_eq; lia).
    rewrite take_insert_ge by lia.
    rewrite !drop_insert_lt by lia.
    rewrite <- app_assoc. f_equal. simpl.
    rewrite (drop_S _ _ _ Hc). simpl.
    replace (i + S n)%nat with (S (i + n)) by lia.
    by rewrite Z.add_1_r.
Qed.

(** The count vector is the split rule, entry by entry. *)
Lemma countsPer_spec total slots :
  0 ≤ total → 0 < slots →
  countsPer total slots =
    Some (share (total `div` slots) (total `mod` slots) <$> seq 0 (Z.to_nat slots)).
Proof.
  intros Ht Hs. unfold countsPer.
  rewrite decide_False by lia. rewrite decide_False by lia.
  rewrite fillCounts_spec by (rewrite length_replicate; lia).
  rewrite Z.quot_div_nonneg by lia.
  set (q := total `div` slots). set (r := total `mod` slots).
  assert (Hr : 0 ≤ r < slots) by (apply Z.mod_pos_bound; lia).
  assert (Hq : total = slots * q + r) by (apply Z.div_mod; lia).
  rewrite take_0, drop_ge by (rewrite length_replicate; lia).
  rewrite app_nil_r. simpl.
  assert (Hcnt : ∀ k : nat, (Z.to_nat r ≤ k)%nat →
    replicate (Z.to_nat r) (q + 1) ++ replicate (k - Z.to_nat r) q =
      share q r <$> seq 0 k).
  { intros k Hk. apply list_eq. intros j.
    rewrite list_lookup_fmap.
    destruct (decide (j < k)%nat) as [Hj|Hj].
    - rewrite lookup_seq_lt by lia. simpl. unfold share.
      destruct (decide (j < Z.to_nat r)%nat).
      + rewrite lookup_app_l by (rewrite length_replicate; lia).
        rewrite lookup_replicate_2 by lia. rewrite decide_True by lia. done.
      + rewrite lookup_app_r by (rewrite length_replicate; lia).
        rewrite length_replicate.
        rewrite lookup_replicate_2 by lia. rewrite decide_False by lia.
        f_equal. lia.
    - rewrite lookup_seq_ge by lia. simpl.
      apply lookup_ge_None_2. rewrite length_app, !length_replicate. lia. }
  case_decide as Hrem.
  - rewrite bumpCounts_spec by (rewrite length_replicate; lia).
    f_equal. rewrite take_0, drop_0. simpl.
    replace (Z.to_nat (total - (0 + Z.of_nat (Z.to_nat slots) * q)))
      with (Z.to_nat r) by lia.
    rewrite take_replicate, drop_replicate, fmap_replicate.
    rewrite Nat.min_l by lia.
    rewrite <- Hcnt by lia. by rewrite Z.add_1_r.
  - assert (r = 0) by lia. f_equal.
    rewrite <- Hcnt by lia.
    replace (Z.to_nat r) with 0%nat by lia. simpl. by rewrite Nat.sub_0_r.
Qed.

(** *** The node assignment loops *)

Lemma assignBlock_spec v : ∀ a m s,
  0 ≤ s → s + Z.of_nat v ≤ 65536 →
  (assignBlock v a m (uint16 s)).2 = uint16 (s + Z.of_nat v) ∧
  ∀ p, (assignBlock v a m (uint16 s)).1 !! p =
       if decide (s ≤ p < s + Z.of_nat v) then Some a else m !! p.
Proof.
  induction v as [|v IH]; intros a m s Hs Hv; simpl.
  - split; [f_equal; lia|]. intros p. by rewrite decide_False by lia.
  - rewrite (uint16_id s) by lia.
    destruct (IH a (<[s := a]> m) (s + 1)) as [IH1 IH2]; [lia..|].
    split; [rewrite IH1; f_equal; lia|].
    intros p. rewrite IH2.
    destruct (decide (p = s)) as [->|Hne].
    + rewrite decide_False by lia. rewrite lookup_insert_eq.
      by rewrite decide_True by lia.
    + rewrite lookup_insert_ne by done.
      repeat case_decide; done || lia.
Qed.

Lemma assignNodes_spec q r addrs n : ∀ i m,
  0 ≤ q → 0 ≤ r →
  (i + n ≤ length addrs)%nat →
  blockStart q r (i + n) ≤ 65536 →
  ∃ m',
    assignNodes (share q r <$> seq i n) i addrs m (uint16 (blockStart q r i))
      = Some (m', uint16 (blockStart q r (i + n))) ∧
    (∀ k p, (i ≤ k < i + n)%nat →
       blockStart q r k ≤ p < blockStart q r (S k) → m' !! p = addrs !! k) ∧
    (∀ p, ¬ (blockStart q r i ≤ p < blockStart q r (i + n)) → m' !! p = m !! p).
Proof.
  induction n as [|n IH]; intros i m Hq Hr Hlen Hmax; simpl.
  - exists m. rewrite Nat.add_0_r. split_and!; [done| intros; lia | done].
  - pose proof (blockStart_S q r i Hr) as HS.
    pose proof (share_nonneg q r i Hq) as Hsh.
    pose proof (blockStart_nonneg q r i Hq Hr) as Hb0.
    pose proof (blockStart_mono q r (S i) (i + S n) Hq Hr) as Hmono.
    replace (i + S n)%nat with (S i + n)%nat in * by lia.
    case_decide as Hpos.
    + destruct (lookup_lt_is_Some_2 addrs i) as [a Ha]; [lia|]. rewrite Ha.
      destruct (assignBlock_spec (Z.to_nat (share q r i)) a m (blockStart q r i))
        as [E1 E2]; [lia..|].
      destruct (assignBlock _ a m _) as [m1 s1] eqn:Eb. simpl in E1, E2.
      rewrite E1, Z2Nat.id, <- HS by lia.
      destruct (IH (S i) m1) as (m' & Em' & Hin & Hout); [done..|].
      exists m'. split; [done|]. split.
      * intros k p Hk Hp. destruct (decide (k = i)) as [->|Hne].
        -- rewrite Hout by lia. rewrite E2, decide_True by lia. by rewrite Ha.
        -- apply Hin; [lia|done].
      * intros p Hp. rewrite Hout by lia. rewrite E2.
        rewrite decide_False by lia. done.
    + assert (share q r i = 0) as H0 by lia.
      assert (blockStart q r (S i) = blockStart q r i) as Heq by lia.
      rewrite <- Heq.
      destruct (IH (S i) m) as (m' & Em' & Hin & Hout); [done..|].
      exists m'. split; [done|]. split.
      * intros k p Hk Hp. destruct (decide (k = i)) as [->|Hne]; [lia|].
        apply Hin; [lia|done].
      * intros p Hp. apply Hout. lia.
Qed.

(** Every index below the end of the last block lies in some block. *)
Lemma block_cover q r n : ∀ p,
  0 ≤ q → 0 ≤ r → 0 ≤ p < blockStart q r n →
  ∃ k, (k < n)%nat ∧ blockStart q r k ≤ p < blockStart q r (S k).
Proof.
  induction n as [|n IH]; intros p Hq Hr Hp.
  - rewrite blockStart_0 in Hp by done. lia.
  - destruct (decide (p < blockStart q r n)) as [Hlt|Hge].
    + destruct (IH p) as (k & ? & ?); [done..|lia|]. exists k. split; [lia|done].
    + exists n. split; [lia|]. lia.
Qed.

(** Blocks of different members are disjoint. *)
Lemma block_disjoint q r i j p :
  0 ≤ q → 0 ≤ r →
  blockStart q r i ≤ p < blockStart q r (S i) →
  blockStart q r j ≤ p < blockStart q r (S j) → i = j.
Proof.
  intros Hq Hr Hi Hj.
  destruct (Nat.lt_trichotomy i j) as [Hlt|[->|Hlt]]; [|done|].
  - pose proof (blockStart_mono q r (S i) j Hq Hr). lia.
  - pose proof (blockStart_mono q r (S j) i Hq Hr). lia.
Qed.

(** The outcome of [vbEventingNodeAssign]: the map is defined exactly on
    [0 .. N-1] and sends block [k] to member [k]. *)
Lemma vbEventingNodeAssign_blocks (N : Z) (addrs : list string) :
  addrs ≠ [] → 0 ≤ N ≤ 65536 →
  let q := N `div` Z.of_nat (length addrs) in
  let r := N `mod` Z.of_nat (length addrs) in
  ∃ nm, vbEventingNodeAssign N addrs = Some nm ∧
    (∀ k p, (k < length addrs)%nat →
       blockStart q r k ≤ p < blockStart q r (S k) → nm !! p = addrs !! k) ∧
    (∀ p, ¬ (0 ≤ p < N) → nm !! p = None).
Proof.
  intros Hne HN q r.
  assert (Hm : 0 < Z.of_nat (length addrs)) by (destruct addrs; [done|simpl; lia]).
  assert (Hr : 0 ≤ r < Z.of_nat (length addrs)) by (apply Z.mod_pos_bound; lia).
  assert (Hq : 0 ≤ q) by (apply Z.div_pos; lia).
  pose proof (blockStart_end N _ Hm) as Hend. fold q r in Hend.
  rewrite Nat2Z.id in Hend.
  unfold vbEventingNodeAssign. rewrite countsPer_spec by lia.
  fold q r. rewrite Nat2Z.id.
  destruct (assignNodes_spec q r addrs (length addrs) 0%nat ∅) as (nm & E & Hin & Hout);
    [lia..|simpl; lia|].
  rewrite blockStart_0 in E, Hout by lia.
  change (uint16 0) with 0 in E. rewrite E.
  exists nm. split; [done|]. split.
  - intros k p Hk Hp. apply Hin; [lia|done].
  - intros p Hp. rewrite Hout by (simpl; lia). apply lookup_empty.
Qed.

(** *** The local partition list *)

Lemma elem_of_vbucketsToHandle (m : gmap Z string) a p :
  p ∈ vbucketsToHandle m a ↔ m !! p = Some a.
Proof.
  unfold vbucketsToHandle. rewrite merge_sort_Permutation.
  rewrite list_elem_of_fmap. split.
  - intros ([k v] & -> & Hin). apply list_elem_of_filter in Hin as [Hv Hin].
    simpl in *. subst. by apply elem_of_map_to_list.
  - intros Hp. exists (p, a). split; [done|].
    apply list_elem_of_filter. split; [done|]. by apply elem_of_map_to_list.
Qed.

Lemma NoDup_vbucketsToHandle (m : gmap Z string) a : NoDup (vbucketsToHandle m a).
Proof.
  unfold vbucketsToHandle. rewrite merge_sort_Permutation.
  pose proof (NoDup_fst_map_to_list m) as Hnd.
  induction (map_to_list m) as [|[k v] l IH]; simpl; [constructor|].
  rewrite filter_cons. simpl in Hnd. apply NoDup_cons in Hnd as [Hk Hnd].
  case_decide; simpl; [|by apply IH].
  apply NoDup_cons. split; [|by apply IH].
  intros Hin. apply Hk. apply list_elem_of_fmap in Hin as (kv & -> & Hin).
  apply list_elem_of_filter in Hin as [_ Hin].
  apply list_elem_of_fmap. by exists kv.
Qed.

Lemma Sorted_vbucketsToHandle (m : gmap Z string) a :
  Sorted Z.le (vbucketsToHandle m a).
Proof. apply (Sorted_merge_sort Z.le). Qed.

Lemma Sorted_seqZ s n : Sorted Z.le (seqZ s n).
Proof.
  destruct (decide (0 ≤ n)) as [Hn|Hn]; [|rewrite seqZ_nil by lia; constructor].
  rewrite <- (Z2Nat.id n) by done. clear Hn. generalize (Z.to_nat n) as k. clear n.
  intros k. revert s. induction k as [|k IH]; intros s.
  - rewrite seqZ_nil by lia. constructor.
  - rewrite seqZ_cons by lia. constructor.
    + replace (Z.pred (Z.of_nat (S k))) with (Z.of_nat k) by lia. apply IH.
    + replace (Z.pred (Z.of_nat (S k))) with (Z.of_nat k) by lia.
      destruct k; [rewrite seqZ_nil by lia; constructor|].
      rewrite seqZ_cons by lia. constructor. lia.
Qed.

(** A duplicate-free ascending list is determined by its elements. *)
Lemma sorted_list_unique (l1 l2 : list Z) :
  Sorted Z.le l1 → Sorted Z.le l2 → NoDup l1 → NoDup l2 →
  (∀ p, p ∈ l1 ↔ p ∈ l2) → l1 = l2.
Proof.
  intros S1 S2 N1 N2 Hel.
  apply (Sorted_unique Z.le); [done..|]. by apply NoDup_Permutation.
Qed.

(** With pairwise distinct members, the partitions of member [i] are the
    ascending run of its block. *)
Lemma vbucketsToHandle_block (N : Z) (addrs : list string) nm i a :
  addrs ≠ [] → 0 ≤ N ≤ 65536 → NoDup addrs →
  vbEventingNodeAssign N addrs = Some nm →
  addrs !! i = Some a →
  let q := N `div` Z.of_nat (length addrs) in
  let r := N `mod` Z.of_nat (length addrs) in
  vbucketsToHandle nm a = seqZ (blockStart q r i) (share q r i).
Proof.
  intros Hne HN Hnd Hnm Hi q r.
  destruct (vbEventingNodeAssign_blocks N addrs Hne HN) as (nm' & E & Hin & Hout).
  fold q r in Hin. rewrite Hnm in E. injection E as <-.
  assert (Hm : 0 < Z.of_nat (length addrs)) by (destruct addrs; [done|simpl; lia]).
  assert (Hr : 0 ≤ r < Z.of_nat (length addrs)) by (apply Z.mod_pos_bound; lia).
  assert (Hq : 0 ≤ q) by (apply Z.div_pos; lia).
  pose proof (blockStart_end N _ Hm) as Hend. fold q r in Hend.
  rewrite Nat2Z.id in Hend.
  pose proof (lookup_lt_Some _ _ _ Hi) as Hlt.
  apply sorted_list_unique;
    [apply Sorted_vbucketsToHandle | apply Sorted_seqZ
    | apply NoDup_vbucketsToHandle | apply NoDup_seqZ |].
  intros p. rewrite elem_of_vbucketsToHandle, elem_of_seqZ.
  rewrite <- (blockStart_S q r i) by lia. split.
  - intros Hp. destruct (decide (0 ≤ p < N)) as [Hr'|Hr'];
      [|rewrite Hout in Hp by done; done].
    destruct (block_cover q r (length addrs) p) as (k & Hk & Hb); [lia..|].
    rewrite (Hin k p Hk Hb) in Hp.
    by rewrite (NoDup_lookup _ _ _ _ Hnd Hp Hi) in Hb.
  - intros Hp. rewrite (Hin i p Hlt Hp). done.
Qed.

(** *** Worker names *)

Lemma itoa_inj i j : itoa i = itoa j → i = j.
Proof.
  unfold itoa. intros H. apply Unsigned.to_uint_inj.
  apply (f_equal NilEmpty.uint_of_string) in H.
  rewrite !NilEmpty.usu in H. congruence.
Qed.

Lemma workerName_inj appName i j :
  workerName appName i = workerName appName j → i = j.
Proof.
  unfold workerName. intros H.
  do 3 apply (inj (String.app _)) in H. by apply itoa_inj.
Qed.

(** *** The worker loops *)

Lemma appendBlock_spec v : ∀ name vbs wm idx,
  (idx + v ≤ length vbs)%nat →
  ∃ wm', appendBlock v name vbs wm idx = Some (wm', (idx + v)%nat) ∧
    workerVbs wm' name = workerVbs wm name ++ (uint16 <$> take v (drop idx vbs)) ∧
    (∀ name', name' ≠ name → wm' !! name' = wm !! name').
Proof.
  induction v as [|v IH]; intros name vbs wm idx Hlen; simpl.
  - exists wm. rewrite Nat.add_0_r, app_nil_r. done.
  - destruct (lookup_lt_is_Some_2 vbs idx) as [vb Hvb]; [lia|]. rewrite Hvb.
    destruct (IH name vbs (<[name := workerVbs wm name ++ [uint16 vb]]> wm) (S idx))
      as (wm' & E & Hown & Hother); [lia|].
    exists wm'. replace (idx + S v)%nat with (S idx + v)%nat by lia.
    split; [done|]. split.
    + rewrite Hown. unfold workerVbs at 1. rewrite lookup_insert_eq. simpl.
      rewrite (drop_S _ _ _ Hvb). simpl. by rewrite <- app_assoc.
    + intros name' Hne. rewrite Hother by done. by rewrite lookup_insert_ne.
Qed.

Lemma assignWorkers_spec q r appName vbs cnt n : ∀ i wm,
  0 ≤ q → 0 ≤ r →
  (∀ k, (i ≤ k < i + n)%nat → cnt !! k = Some (share q r k)) →
  blockStart q r (i + n) ≤ Z.of_nat (length vbs) →
  ∃ wm',
    assignWorkers n i cnt appName vbs wm (Z.to_nat (blockStart q r i))
      = Some (wm', Z.to_nat (blockStart q r (i + n))) ∧
    (∀ k, (i ≤ k < i + n)%nat →
       workerVbs wm' (workerName appName k) =
         workerVbs wm (workerName appName k) ++ (uint16 <$> blockOf q r vbs k)) ∧
    (∀ name, (∀ k, (i ≤ k < i + n)%nat → name ≠ workerName appName k) →
       wm' !! name = wm !! name).
Proof.
  induction n as [|n IH]; intros i wm Hq Hr Hcnt Hmax; simpl.
  - exists wm. rewrite Nat.add_0_r. split_and!; [done| intros; lia | done].
  - pose proof (blockStart_S q r i Hr) as HS.
    pose proof (share_nonneg q r i Hq) as Hsh.
    pose proof (blockStart_nonneg q r i Hq Hr) as Hb0.
    pose proof (blockStart_mono q r (S i) (i + S n) Hq Hr) as Hmono.
    replace (i + S n)%nat with (S i + n)%nat in * by lia.
    rewrite Hcnt by lia.
    destruct (appendBlock_spec (Z.to_nat (share q r i)) (workerName appName i) vbs wm
                (Z.to_nat (blockStart q r i)))
      as (wm1 & E1 & Hown & Hother); [lia|].
    rewrite E1.
    replace (Z.to_nat (blockStart q r i) + Z.to_nat (share q r i))%nat
      with (Z.to_nat (blockStart q r (S i))) by lia.
    destruct (IH (S i) wm1) as (wm' & E' & Hin & Hout);
      [done|done|intros; apply Hcnt; lia|done|].
    exists wm'. split; [done|]. split.
    + intros k Hk. destruct (decide (k = i)) as [->|Hne].
      * unfold workerVbs at 1. rewrite Hout; [exact Hown|].
        intros k Hk' Heq%workerName_inj. lia.
      * rewrite Hin by lia. f_equal. unfold workerVbs.
        rewrite Hother; [done|]. intros Heq%workerName_inj. lia.
    + intros name Hname. rewrite Hout by (intros; apply Hname; lia).
      apply Hother. apply Hname. lia.
Qed.

(** The blocks, put one after the other, give back the list. *)
Lemma concat_blocks {A} q r (l : list A) n :
  0 ≤ q → 0 ≤ r →
  concat (blockOf q r l <$> seq 0 n) = take (Z.to_nat (blockStart q r n)) l.
Proof.
  intros Hq Hr. induction n as [|n IH].
  - by rewrite blockStart_0.
  - rewrite seq_S, fmap_app, concat_app, IH. simpl. rewrite app_nil_r.
    unfold blockOf. rewrite take_take_drop. f_equal.
    pose proof (blockStart_S q r n Hr). pose proof (share_nonneg q r n Hq).
    pose proof (blockStart_nonneg q r n Hq Hr). lia.
Qed.

Lemma length_blockOf {A} q r (l : list A) i :
  0 ≤ q → 0 ≤ r → blockStart q r (S i) ≤ Z.of_nat (length l) →
  length (blockOf q r l i) = Z.to_nat (share q r i).
Proof.
  intros Hq Hr Hlen. unfold blockOf. rewrite length_take, length_drop.
  pose proof (blockStart_S q r i Hr). pose proof (share_nonneg q r i Hq).
  pose proof (blockStart_nonneg q r i Hq Hr). lia.
Qed.

(** The outcome of [initWorkerVbMap] on a node map whose keys are [uint16]
    values: worker [k] holds block [k] of the node's ascending partition
    list, and no other key is bound. *)
Lemma initWorkerVbMap_blocks (m : gmap Z string) a appName workerCount :
  (∀ p v, m !! p = Some v → 0 ≤ p < 65536) →
  1 ≤ workerCount →
  let L := vbucketsToHandle m a in
  let q := Z.of_nat (length L) `div` workerCount in
  let r := Z.of_nat (length L) `mod` workerCount in
  ∃ wm, initWorkerVbMap m a appName workerCount = Some wm ∧
    (∀ k, (k < Z.to_nat workerCount)%nat →
       workerVbs wm (workerName appName k) = blockOf q r L k) ∧
    (∀ name, (∀ k, (k < Z.to_nat workerCount)%nat → name ≠ workerName appName k) →
       wm !! name = None).
Proof.
  intros Hkeys Hw L q r.
  assert (Hr : 0 ≤ r < workerCount) by (apply Z.mod_pos_bound; lia).
  assert (Hq : 0 ≤ q) by (apply Z.div_pos; lia).
  pose proof (blockStart_end (Z.of_nat (length L)) workerCount) as Hend.
  fold q r in Hend.
  unfold initWorkerVbMap. fold L. rewrite countsPer_spec by lia. fold q r.
  destruct (assignWorkers_spec q r appName L
              (share q r <$> seq 0 (Z.to_nat workerCount))
              (Z.to_nat workerCount) 0%nat ∅)
    as (wm & E & Hin & Hout); [lia|lia| |simpl; lia|].
  { intros k Hk. rewrite list_lookup_fmap, lookup_seq_lt by lia. done. }
  rewrite blockStart_0 in E by lia. change (Z.to_nat 0) with 0%nat in E.
  rewrite E. exists wm. split; [done|]. split.
  - intros k Hk. rewrite Hin by lia. unfold workerVbs at 1.
    rewrite lookup_empty. simpl. apply fmap_uint16_id.
    apply Forall_forall. intros p Hp.
    assert (p ∈ L) as HpL.
    { unfold blockOf in Hp. by apply subseteq_take, subseteq_drop in Hp. }
    apply elem_of_vbucketsToHandle in HpL. eauto.
  - intros name Hname. rewrite Hout by (intros; apply Hname; lia).
    apply lookup_empty.
Qed.

(** *** The two-level split *)

(** What the planner promises for a membership snapshot [addrs], [N]
    partitions and [workerCount] workers per node; [q] and [r] are the
    quotient and remainder of the split at hand. *)
Definition twoLevelSplit (addrs : list string) (N workerCount : Z)
    (appName : string) : Prop :=
  let q := N `div` Z.of_nat (length addrs) in
  let r := N `mod` Z.of_nat (length addrs) in
  ∃ nm, vbEventingNodeAssign N addrs = Some nm ∧
    (* the node map is defined on 0 .. N-1 and nowhere else *)
    (∀ p, is_Some (nm !! p) ↔ 0 ≤ p < N) ∧
    (∀ p a, nm !! p = Some a → a ∈ addrs) ∧
    (* member i is given the q + (1 if i < r) partitions that follow the
       blocks of members 0 .. i-1; the blocks start at 0 and end at N *)
    (∀ i a, addrs !! i = Some a →
       ∀ p, blockStart q r i ≤ p < blockStart q r i + share q r i →
            nm !! p = Some a) ∧
    blockStart q r 0 = 0 ∧
    (∀ i, blockStart q r (S i) = blockStart q r i + share q r i) ∧
    blockStart q r (length addrs) = N ∧
    (* with pairwise distinct members, these are all of member i's partitions *)
    (NoDup addrs → ∀ i a, addrs !! i = Some a →
       vbucketsToHandle nm a = seqZ (blockStart q r i) (share q r i)) ∧
    (* shares differ by at most one *)
    (∀ i j, -1 ≤ share q r i - share q r j ≤ 1) ∧
    (* on the node with address a, whichever it is *)
    ∀ a,
      let L := vbucketsToHandle nm a in
      let q' := Z.of_nat (length L) `div` workerCount in
      let r' := Z.of_nat (length L) `mod` workerCount in
      (* L lists, in ascending order and once each, the partitions of a *)
      Sorted Z.le L ∧ NoDup L ∧ (∀ p, p ∈ L ↔ nm !! p = Some a) ∧
      ∃ wm, initWorkerVbMap nm a appName workerCount = Some wm ∧
        (* worker k holds block k of L, of q' + (1 if k < r') partitions *)
        (∀ k, (k < Z.to_nat workerCount)%nat →
           workerVbs wm (workerName appName k) = blockOf q' r' L k ∧
           Z.of_nat (length (workerVbs wm (workerName appName k))) = share q' r' k) ∧
        (∀ i j, -1 ≤ share q' r' i - share q' r' j ≤ 1) ∧
        (* only workers are bound *)
        (∀ name, is_Some (wm !! name) →
           ∃ k, (k < Z.to_nat workerCount)%nat ∧ name = workerName appName k) ∧
        (* and the workers' lists, one after the other, are L *)
        concat ((λ k, workerVbs wm (workerName appName k))
                  <$> seq 0 (Z.to_nat workerCount)) = L.

(** C1.  For a non-empty list of eventing node addresses and [N]
    partitions ([N] within the range of the [uint16] partition ids),
    [vbEventingNodeAssign] yields a map that is total over [0 .. N-1], in
    which member [i] receives [q + (1 if i < r else 0)] partitions as the
    [i]-th ascending contiguous block, with [q = N div m], [r = N mod m];
    for [workerCount >= 1], [initWorkerVbMap] splits the ascending list of
    a node's partitions over the workers by the same rule, so that the two
    levels cover [0 .. N-1] exactly once, each level balanced within one. *)
Theorem planner_two_level_split (addrs : list string) (N workerCount : Z)
    (appName : string) :
  addrs ≠ [] → 0 ≤ N ≤ 65536 → 1 ≤ workerCount →
  twoLevelSplit addrs N workerCount appName.
Proof.
  intros Hne HN Hw. unfold twoLevelSplit.
  set (q := N `div` Z.of_nat (length addrs)).
  set (r := N `mod` Z.of_nat (length addrs)).
  assert (Hm : 0 < Z.of_nat (length addrs)) by (destruct addrs; [done|simpl; lia]).
  assert (Hr : 0 ≤ r < Z.of_nat (length addrs)) by (apply Z.mod_pos_bound; lia).
  assert (Hq : 0 ≤ q) by (apply Z.div_pos; lia).
  pose proof (blockStart_end N _ Hm) as Hend. fold q r in Hend.
  rewrite Nat2Z.id in Hend.
  destruct (vbEventingNodeAssign_blocks N addrs Hne HN) as (nm & E & Hin & Hout).
  fold q r in Hin.
  assert (Hsome : ∀ p, 0 ≤ p < N → ∃ k a, addrs !! k = Some a ∧ nm !! p = Some a).
  { intros p Hp. destruct (block_cover q r (length addrs) p) as (k & Hk & Hb); [lia..|].
    destruct (lookup_lt_is_Some_2 addrs k Hk) as [a Ha].
    exists k, a. split; [done|]. by rewrite (Hin k p Hk Hb). }
  exists nm. split; [done|]. split_and!.
  - intros p. split.
    + intros [a Ha]. destruct (decide (0 ≤ p < N)); [done|].
      rewrite Hout in Ha by done. done.
    + intros Hp. destruct (Hsome p Hp) as (k & a & _ & ->). eauto.
  - intros p a Ha. destruct (decide (0 ≤ p < N)) as [Hp|Hp];
      [|rewrite Hout in Ha by done; done].
    destruct (Hsome p Hp) as (k & a' & Hk & Ha'). rewrite Ha in Ha'.
    injection Ha' as ->. by eapply list_elem_of_lookup_2.
  - intros i a Hi p Hp. rewrite <- Hi. apply Hin; [by eapply lookup_lt_Some|].
    rewrite blockStart_S by lia. done.
  - apply blockStart_0. lia.
  - intros i. apply blockStart_S. lia.
  - done.
  - intros Hnd i a Hi. by apply (vbucketsToHandle_block N addrs nm i a).
  - apply share_balanced.
  - intros a. set (L := vbucketsToHandle nm a).
    set (q' := Z.of_nat (length L) `div` workerCount).
    set (r' := Z.of_nat (length L) `mod` workerCount).
    assert (Hr' : 0 ≤ r' < workerCount) by (apply Z.mod_pos_bound; lia).
    assert (Hq' : 0 ≤ q') by (apply Z.div_pos; lia).
    pose proof (blockStart_end (Z.of_nat (length L)) workerCount) as Hend'.
    fold q' r' in Hend'.
    split; [apply Sorted_vbucketsToHandle|].
    split; [apply NoDup_vbucketsToHandle|].
    split; [intros p; apply elem_of_vbucketsToHandle|].
    destruct (initWorkerVbMap_blocks nm a appName workerCount)
      as (wm & Ewm & Hwin & Hwout); [|done|].
    { intros p v Hp. destruct (decide (0 ≤ p < N)); [lia|].
      rewrite Hout in Hp by done. done. }
    fold L q' r' in Hwin.
    exists wm. split; [done|]. split_and!.
    + intros k Hk. rewrite Hwin by done. split; [done|].
      rewrite length_blockOf; [apply Z2Nat.id, share_nonneg; lia|lia..|].
      pose proof (blockStart_mono q' r' (S k) (Z.to_nat workerCount)). lia.
    + apply share_balanced.
    + intros name [l Hl].
      destruct (decide (name ∈ workerName appName <$> seq 0 (Z.to_nat workerCount)))
        as [Hyes|Hno].
      * apply list_elem_of_fmap in Hyes as (k & -> & Hk).
        apply elem_of_seq in Hk. exists k. split; [lia|done].
      * rewrite Hwout in Hl; [done|]. intros k Hk ->. apply Hno.
        apply list_elem_of_fmap. exists k. split; [done|].
        apply elem_of_seq. lia.
    + transitivity (take (Z.to_nat (blockStart q' r' (Z.to_nat workerCount))) L);
        [|apply take_ge; lia].
      rewrite <- concat_blocks by lia.
      f_equal. apply list_fmap_ext. intros i k Hk.
      apply lookup_seq in Hk as [-> Hk]. by apply Hwin.
Qed.

Lemma planner_two_level_split_witness :
  (["n1"; "n2"; "n3"] ≠ [] ∧ 0 ≤ 10 ≤ 65536 ∧ 1 ≤ 2) ∧
  twoLevelSplit ["n1"; "n2"; "n3"] 10 2 "app".
Proof.
  split; [split_and!; [discriminate | lia | lia | lia]|].
  apply planner_two_level_split; [discriminate | lia | lia].
Defined.

(** *** Edge behaviour of the planner *)

(** The count vector exists for every positive number of slots, whatever
    the total. *)
Lemma countsPer_total total slots :
  0 < slots →
  ∃ cnt, countsPer total slots = Some cnt
         ∧ length cnt = Z.to_nat slots
         ∧ (total ≤ 0 → Forall (λ v, v ≤ 0) cnt).
Proof.
  intros Hs. destruct (decide (0 ≤ total)) as [Ht|Ht].
  - rewrite countsPer_spec by done. eexists. split; [done|].
    split; [by rewrite length_fmap, length_seq|].
    intros H0. assert (total = 0) as -> by lia.
    rewrite Z.div_0_l, Z.mod_0_l by lia.
    apply Forall_fmap, Forall_forall. intros i _. unfold share. simpl.
    rewrite decide_False by lia. lia.
  - unfold countsPer. rewrite decide_False by lia. rewrite decide_False by lia.
    rewrite fillCounts_spec by (rewrite length_replicate; lia).
    rewrite take_0, drop_ge by (rewrite length_replicate; lia).
    rewrite app_nil_r. simpl.
    pose proof (Z.quot_rem' total slots) as Hqr.
    pose proof (Z.rem_nonpos total slots ltac:(lia) ltac:(lia)) as Hrem.
    rewrite decide_False by lia.
    eexists. split; [done|]. split; [by rewrite length_replicate|].
    intros _. apply Forall_replicate.
    assert (Z.quot total slots ≤ 0); [|done].
    apply Z.quot_le_upper_bound; lia.
Qed.

(** A block of assignments writes [uint16] keys only, each with the
    block's address. *)
Lemma assignBlock_range v : ∀ a m s,
  0 ≤ s < 65536 →
  0 ≤ (assignBlock v a m s).2 < 65536 ∧
  ∀ p a', (assignBlock v a m s).1 !! p = Some a' →
    m !! p = Some a' ∨ (0 ≤ p < 65536 ∧ a' = a).
Proof.
  induction v as [|v IH]; intros a m s Hs; simpl.
  - split; [done|]. auto.
  - assert (0 ≤ uint16 (s + 1) < 65536) as Hs'
      by (unfold uint16, to_unsigned; apply Z.mod_pos_bound; lia).
    destruct (IH a (<[s := a]> m) (uint16 (s + 1)) Hs') as [H1 H2].
    split; [done|]. intros p a' Hp.
    destruct (H2 p a' Hp) as [Hm|?]; [|by right].
    destruct (decide (s = p)) as [->|Hne].
    + rewrite lookup_insert_eq in Hm. injection Hm as <-. by right.
    + rewrite lookup_insert_ne in Hm by done. by left.
Qed.

(** The assignment loop never reads outside the address list when there
    are as many addresses as counts, and keeps keys and values in range. *)
Lemma assignNodes_range cnt : ∀ i addrs m s,
  (i + length cnt ≤ length addrs)%nat → 0 ≤ s < 65536 →
  ∃ m' s', assignNodes cnt i addrs m s = Some (m', s') ∧
    ∀ p a, m' !! p = Some a → m !! p = Some a ∨ (0 ≤ p < 65536 ∧ a ∈ addrs).
Proof.
  induction cnt as [|v cnt IH]; intros i addrs m s Hlen Hs; simpl in *.
  - exists m, s. auto.
  - case_decide.
    + destruct (lookup_lt_is_Some_2 addrs i) as [a Ha]; [lia|]. rewrite Ha.
      destruct (assignBlock_range (Z.to_nat v) a m s Hs) as [Hs1 Hm1].
      destruct (assignBlock (Z.to_nat v) a m s) as [m1 s1]. simpl in *.
      destruct (IH (S i) addrs m1 s1) as (m' & s' & E & Hm'); [lia|done|].
      exists m', s'. split; [done|]. intros p a' Hp.
      destruct (Hm' p a' Hp) as [H1|?]; [|by right].
      destruct (Hm1 p a' H1) as [?|[? ->]]; [by left|right].
      split; [done|]. by eapply list_elem_of_lookup_2.
    + apply IH; [lia|done].
Qed.

Lemma assignNodes_nonpos cnt : ∀ i addrs m s,
  Forall (λ v, v ≤ 0) cnt → assignNodes cnt i addrs m s = Some (m, s).
Proof.
  induction cnt as [|v cnt IH]; intros i addrs m s Hc; simpl; [done|].
  apply Forall_cons in Hc as [Hv Hc]. rewrite decide_False by lia. by apply IH.
Qed.

(** X1.  [vbEventingNodeAssign] panics (a division by zero) exactly when the
    list of eventing node addresses is empty, whatever [NumVbuckets] is. *)
Theorem vbEventingNodeAssign_panics_iff_no_nodes (N : Z) (addrs : list string) :
  vbEventingNodeAssign N addrs = None ↔ addrs = [].
Proof.
  split.
  - intros H. destruct addrs as [|a addrs]; [done|]. exfalso.
    unfold vbEventingNodeAssign in H.
    destruct (countsPer_total N (Z.of_nat (length (a :: addrs))))
      as (cnt & E & Hlen & _); [simpl; lia|].
    rewrite E in H.
    destruct (assignNodes_range cnt 0 (a :: addrs) ∅ 0) as (m' & s' & E' & _);
      [rewrite Hlen; lia|lia|].
    by rewrite E' in H.
  - intros ->. reflexivity.
Qed.

(** Every key of the node map is a [uint16] value and every value one of
    the addresses given. *)
Lemma vbEventingNodeAssign_keys (N : Z) (addrs : list string) nm :
  vbEventingNodeAssign N addrs = Some nm →
  ∀ p a, nm !! p = Some a → 0 ≤ p < 65536 ∧ a ∈ addrs.
Proof.
  intros H. unfold vbEventingNodeAssign in H.
  destruct addrs as [|a0 addrs]; [done|].
  destruct (countsPer_total N (Z.of_nat (length (a0 :: addrs))))
    as (cnt & E & Hlen & Hneg); [simpl; lia|].
  rewrite E in H.
  destruct (assignNodes_range cnt 0 (a0 :: addrs) ∅ 0) as (m' & s' & E' & Hm');
    [rewrite Hlen; lia|lia|].
  rewrite E' in H. injection H as <-. intros p a Hp.
  destruct (Hm' p a Hp) as [Hemp|?]; [|done]. by rewrite lookup_empty in Hemp.
Qed.

(** X2.  Whatever [NumVbuckets] is, every key that [vbEventingNodeAssign]
    puts into the node map is a [uint16] value and every value is one of
    the addresses given; with [NumVbuckets <= 0] the map stays empty. *)
Theorem vbEventingNodeAssign_range (N : Z) (addrs : list string) nm :
  vbEventingNodeAssign N addrs = Some nm →
  (∀ p a, nm !! p = Some a → 0 ≤ p < 65536 ∧ a ∈ addrs) ∧
  (N ≤ 0 → nm = ∅).
Proof.
  intros H. split; [by eapply vbEventingNodeAssign_keys|].
  unfold vbEventingNodeAssign in H.
  destruct addrs as [|a0 addrs]; [done|].
  destruct (countsPer_total N (Z.of_nat (length (a0 :: addrs))))
    as (cnt & E & Hlen & Hneg); [simpl; lia|].
  rewrite E in H.
  intros HN. rewrite assignNodes_nonpos in H by auto. by injection H as <-.
Qed.

Lemma vbEventingNodeAssign_range_witness :
  vbEventingNodeAssign 5 ["n1"; "n2"] =
    Some {[0 := "n1"; 1 := "n1"; 2 := "n1"; 3 := "n2"; 4 := "n2"]} ∧
  (∀ p a, ({[0 := "n1"; 1 := "n1"; 2 := "n1"; 3 := "n2"; 4 := "n2"]} : gmap Z string)
            !! p = Some a → 0 ≤ p < 65536 ∧ a ∈ ["n1"; "n2"]).
Proof.
  assert (vbEventingNodeAssign 5 ["n1"; "n2"] =
    Some {[0 := "n1"; 1 := "n1"; 2 := "n1"; 3 := "n2"; 4 := "n2"]}) as H
    by (vm_compute; reflexivity).
  split; [exact H|].
  exact (proj1 (vbEventingNodeAssign_range 5 ["n1"; "n2"] _ H)).
Defined.

(** The worker loop runs to its end on every count vector of the split. *)
Lemma initWorkerVbMap_runs (m : gmap Z string) a appName workerCount :
  1 ≤ workerCount →
  let L := vbucketsToHandle m a in
  let q := Z.of_nat (length L) `div` workerCount in
  let r := Z.of_nat (length L) `mod` workerCount in
  ∃ wm, initWorkerVbMap m a appName workerCount = Some wm ∧
    (∀ k, (k < Z.to_nat workerCount)%nat →
       workerVbs wm (workerName appName k) = uint16 <$> blockOf q r L k) ∧
    (∀ name, (∀ k, (k < Z.to_nat workerCount)%nat → name ≠ workerName appName k) →
       wm !! name = None).
Proof.
  intros Hw L q r.
  assert (Hr : 0 ≤ r < workerCount) by (apply Z.mod_pos_bound; lia).
  assert (Hq : 0 ≤ q) by (apply Z.div_pos; lia).
  pose proof (blockStart_end (Z.of_nat (length L)) workerCount) as Hend.
  fold q r in Hend.
  unfold initWorkerVbMap. fold L. rewrite countsPer_spec by lia. fold q r.
  destruct (assignWorkers_spec q r appName L
              (share q r <$> seq 0 (Z.to_nat workerCount))
              (Z.to_nat workerCount) 0%nat ∅)
    as (wm & E & Hin & Hout); [lia|lia| |simpl; lia|].
  { intros k Hk. rewrite list_lookup_fmap, lookup_seq_lt by lia. done. }
  rewrite blockStart_0 in E by lia. change (Z.to_nat 0) with 0%nat in E.
  rewrite E. exists wm. split; [done|]. split.
  - intros k Hk. rewrite Hin by lia. unfold workerVbs at 1.
    by rewrite lookup_empty.
  - intros name Hname. rewrite Hout by (intros; apply Hname; lia).
    apply lookup_empty.
Qed.

Lemma initWorkerVbMap_no_workers (m : gmap Z string) a appName (workerCount : Z) :
  workerCount ≤ 0 → initWorkerVbMap m a appName workerCount = None.
Proof.
  intros Hw. unfold initWorkerVbMap, countsPer.
  destruct (decide (workerCount = 0)); [done|]. by rewrite decide_True by lia.
Qed.

(** X3.  With [maxLen] the longest slice of [int] that [make] grants,
    [initWorkerVbMap] panics exactly when the worker count is not positive
    (on zero by the division, below zero by the allocation of the count
    vector) or is beyond [maxLen] (by that allocation again).  In between
    it runs to its end as [initWorkerVbMap] states it: no division and no
    index of the loops panics, whatever the node map holds. *)
Theorem initWorkerVbMap_panics_iff (maxLen : Z)
    (m : gmap Z string) a appName (workerCount : Z) :
  (initWorkerVbMapWithin maxLen m a appName workerCount = None
   ↔ workerCount ≤ 0 ∨ maxLen < workerCount) ∧
  (1 ≤ workerCount → workerCount ≤ maxLen →
   ∃ wm, initWorkerVbMapWithin maxLen m a appName workerCount = Some wm
         ∧ initWorkerVbMap m a appName workerCount = Some wm).
Proof.
  assert (Hin : 1 ≤ workerCount → workerCount ≤ maxLen →
            initWorkerVbMapWithin maxLen m a appName workerCount
            = initWorkerVbMap m a appName workerCount).
  { intros H1 H2. unfold initWorkerVbMapWithin, initWorkerVbMap, countsPerWithin.
    rewrite decide_False by lia. by rewrite decide_False by lia. }
  assert (Hout : workerCount ≤ 0 ∨ maxLen < workerCount →
            initWorkerVbMapWithin maxLen m a appName workerCount = None).
  { intros H. unfold initWorkerVbMapWithin, countsPerWithin.
    destruct (decide (workerCount = 0)); [done|]. by rewrite decide_True by lia. }
  split.
  - split; [|exact Hout].
    intros H. destruct (decide (workerCount ≤ 0 ∨ maxLen < workerCount)) as [|Hw];
      [done|]. exfalso.
    destruct (initWorkerVbMap_runs m a appName workerCount) as (wm & E & _); [lia|].
    cbv zeta in E. rewrite Hin, E in H by lia. done.
  - intros H1 H2.
    destruct (initWorkerVbMap_runs m a appName workerCount) as (wm & E & _); [lia|].
    cbv zeta in E. exists wm. by rewrite Hin.
Qed.

(** The worker map never binds a worker to the empty list. *)
Lemma appendBlock_nonempty v : ∀ name vbs wm idx wm' idx',
  appendBlock v name vbs wm idx = Some (wm', idx') →
  (∀ n l, wm !! n = Some l → l ≠ []) →
  ∀ n l, wm' !! n = Some l → l ≠ [].
Proof.
  induction v as [|v IH]; intros name vbs wm idx wm' idx' E Hne; simpl in E.
  - by injection E as <- <-.
  - destruct (vbs !! idx) as [vb|]; [|done].
    eapply IH; [exact E|]. intros n l Hl.
    destruct (decide (n = name)) as [->|Hn].
    + rewrite lookup_insert_eq in Hl. injection Hl as <-.
      by destruct (workerVbs wm name).
    + rewrite lookup_insert_ne in Hl by done. by eapply Hne.
Qed.

Lemma assignWorkers_nonempty n : ∀ i cnt appName vbs wm idx wm' idx',
  assignWorkers n i cnt appName vbs wm idx = Some (wm', idx') →
  (∀ n l, wm !! n = Some l → l ≠ []) →
  ∀ n l, wm' !! n = Some l → l ≠ [].
Proof.
  induction n as [|n IH]; intros i cnt appName vbs wm idx wm' idx' E Hne; simpl in E.
  - by injection E as <- <-.
  - destruct (cnt !! i) as [v|]; [|done].
    destruct (appendBlock (Z.to_nat v) (workerName appName i) vbs wm idx)
      as [[wm1 idx1]|] eqn:E1; [|done].
    eapply IH; [exact E|]. by eapply appendBlock_nonempty.
Qed.

(** A worker's share is positive exactly when its index is below the
    number of items. *)
Lemma share_pos_iff total slots k :
  0 ≤ total → 0 < slots → Z.of_nat k < slots →
  0 < share (total `div` slots) (total `mod` slots) k ↔ Z.of_nat k < total.
Proof.
  intros Ht Hs Hk. unfold share.
  pose proof (Z.mod_pos_bound total slots Hs).
  pose proof (Z.div_mod total slots ltac:(lia)).
  assert (0 ≤ total `div` slots) by (apply Z.div_pos; lia).
  case_decide; nia.
Qed.

(** X4.  In the map that [initWorkerVbMap] builds, a worker has an entry
    exactly when it receives a partition: the name of worker [k] is a key
    if and only if [k] is below both the worker count and the number of
    partitions of the node.  No entry holds the empty list, and nothing but
    a worker name is a key. *)
Theorem initWorkerVbMap_keys (m : gmap Z string) a appName (workerCount : Z) wm :
  initWorkerVbMap m a appName workerCount = Some wm →
  (∀ name l, wm !! name = Some l → l ≠ []) ∧
  (∀ k, is_Some (wm !! workerName appName k) ↔
        Z.of_nat k < workerCount ∧ (k < length (vbucketsToHandle m a))%nat) ∧
  (∀ name, is_Some (wm !! name) → ∃ k, name = workerName appName k).
Proof.
  intros E.
  assert (Hw : 1 ≤ workerCount).
  { destruct (decide (workerCount ≤ 0)) as [Hw|]; [|lia].
    apply (initWorkerVbMap_no_workers m a appName) in Hw. congruence. }
  assert (Hne : ∀ name l, wm !! name = Some l → l ≠ []).
  { unfold initWorkerVbMap in E.
    destruct (countsPer _ _) as [cnt|]; [|done].
    destruct (assignWorkers _ _ _ _ _ _ _) as [[wm' idx']|] eqn:Ea; [|done].
    injection E as <-. eapply assignWorkers_nonempty; [exact Ea|].
    intros n l Hl. by rewrite lookup_empty in Hl. }
  destruct (initWorkerVbMap_runs m a appName workerCount Hw) as (wm0 & E0 & Hin & Hout).
  cbv zeta in E0, Hin. rewrite E in E0. injection E0 as <-.
  set (L := vbucketsToHandle m a) in *.
  set (q := Z.of_nat (length L) `div` workerCount) in *.
  set (r := Z.of_nat (length L) `mod` workerCount) in *.
  assert (Hr : 0 ≤ r < workerCount) by (apply Z.mod_pos_bound; lia).
  assert (Hq : 0 ≤ q) by (apply Z.div_pos; lia).
  pose proof (blockStart_end (Z.of_nat (length L)) workerCount ltac:(lia)) as Hend.
  fold q r in Hend.
  split; [exact Hne|]. split.
  - intros k. destruct (decide (Z.of_nat k < workerCount)) as [Hk|Hk].
    + specialize (Hin k ltac:(lia)).
      pose proof (blockStart_mono q r (S k) (Z.to_nat workerCount) Hq ltac:(lia)
                    ltac:(lia)) as Hmono.
      pose proof (length_blockOf q r L k Hq ltac:(lia) ltac:(lia)) as Hlen.
      pose proof (share_pos_iff (Z.of_nat (length L)) workerCount k ltac:(lia)
                    ltac:(lia) Hk) as Hpos.
      fold q r in Hpos.
      split.
      * intros [l Hl]. split; [done|].
        unfold workerVbs in Hin. rewrite Hl in Hin. simpl in Hin.
        specialize (Hne _ _ Hl).
        assert (length l ≠ 0%nat) as Hl0 by (by destruct l).
        rewrite Hin, length_fmap, Hlen in Hl0. lia.
      * intros [_ HkL].
        destruct (wm !! workerName appName k) as [l|] eqn:Hl; [by eexists|].
        exfalso. unfold workerVbs in Hin. rewrite Hl in Hin. simpl in Hin.
        apply (f_equal length) in Hin. rewrite length_fmap, Hlen in Hin.
        simpl in Hin. lia.
    + split; [|intros [? _]; lia].
      rewrite Hout; [by intros [? ?]|].
      intros j Hj Heq%workerName_inj. lia.
  - intros name Hname.
    destruct (decide (name ∈ workerName appName <$> seq 0 (Z.to_nat workerCount)))
      as [Hel|Hel].
    + apply list_elem_of_fmap in Hel as (k & -> & _). by exists k.
    + rewrite Hout in Hname; [by destruct Hname|].
      intros k Hk ->. apply Hel. apply list_elem_of_fmap. exists k.
      split; [done|]. apply elem_of_seq. lia.
Qed.

Lemma initWorkerVbMap_keys_witness :
  initWorkerVbMap ({[0 := "a"; 1 := "a"; 2 := "b"]} : gmap Z string) "a" "app" 3
    = Some {[ "worker_app_0" := [0]; "worker_app_1" := [1] ]} ∧
  ∀ name l,
    ({[ "worker_app_0" := [0]; "worker_app_1" := [1] ]} : gmap string (list Z)) !! name
      = Some l → l ≠ [].
Proof.
  assert (initWorkerVbMap ({[0 := "a"; 1 := "a"; 2 := "b"]} : gmap Z string) "a" "app" 3
    = Some {[ "worker_app_0" := [0]; "worker_app_1" := [1] ]}) as E
    by (vm_compute; reflexivity).
  split; [exact E|].
  exact (proj1 (initWorkerVbMap_keys _ _ _ _ _ E)).
Defined.

(** *** The data-node map: last node wins *)

Lemma assignVbs_lookup vbs addr : ∀ m p,
  assignVbs vbs addr m !! p =
    if decide (p ∈ uint16 <$> vbs) then Some addr else m !! p.
Proof.
  unfold assignVbs. induction vbs as [|vb vbs IH]; intros m p.
  - cbn [foldl]. rewrite fmap_nil. case_decide as H; [by apply elem_of_nil in H|done].
  - cbn [foldl]. rewrite IH, fmap_cons.
    destruct (decide (p ∈ uint16 <$> vbs)) as [Hin|Hin].
    + case_decide as H; [done|]. exfalso. apply H. by right.
    + destruct (decide (p = uint16 vb)) as [->|Hne].
      * rewrite lookup_insert_eq. case_decide as H; [done|]. exfalso. apply H. by left.
      * rewrite lookup_insert_ne by done. case_decide as H; [|done].
        apply elem_of_cons in H as [?|?]; done.
Qed.

(** Node [n] answers both calls and lists [p] among its vbuckets. *)
Definition serves (GetServiceAddress : Z → option string)
    (GetVBuckets : Z → option (list Z)) (n : Z) (p : Z) (addr : string) : Prop :=
  GetServiceAddress n = Some addr ∧
  ∃ vbs, GetVBuckets n = Some vbs ∧ p ∈ uint16 <$> vbs.

Lemma getKvVbMap_snoc l n gsa gvb p :
  getKvVbMap (l ++ [n]) gsa gvb !! p =
    match gsa n, gvb n with
    | Some addr, Some vbs =>
        if decide (p ∈ uint16 <$> vbs) then Some addr else getKvVbMap l gsa gvb !! p
    | _, _ => getKvVbMap l gsa gvb !! p
    end.
Proof.
  unfold getKvVbMap. rewrite foldl_snoc.
  destruct (gsa n) as [addr|]; [|done]. destruct (gvb n) as [vbs|]; [|done].
  apply assignVbs_lookup.
Qed.

Lemma getKvVbMap_from gsa gvb p : ∀ l addr,
  getKvVbMap l gsa gvb !! p = Some addr → ∃ n, n ∈ l ∧ serves gsa gvb n p addr.
Proof.
  intros l. induction l as [|n l IH] using rev_ind; intros addr H.
  - unfold getKvVbMap in H. simpl in H. by rewrite lookup_empty in H.
  - rewrite getKvVbMap_snoc in H.
    assert (getKvVbMap l gsa gvb !! p = Some addr →
            ∃ n0, n0 ∈ l ++ [n] ∧ serves gsa gvb n0 p addr) as Hold.
    { intros H'. destruct (IH _ H') as (n' & Hin & Hs'). exists n'.
      split; [|done]. apply elem_of_app. by left. }
    destruct (gsa n) as [a|] eqn:Ha; [|by apply Hold].
    destruct (gvb n) as [vbs|] eqn:Hv; [|by apply Hold].
    case_decide as Hin; [|by apply Hold].
    injection H as <-. exists n. split; [apply elem_of_app; right; by left|].
    split; [done|]. by exists vbs.
Qed.

Lemma getKvVbMap_to gsa gvb p : ∀ l n addr,
  n ∈ l → serves gsa gvb n p addr → is_Some (getKvVbMap l gsa gvb !! p).
Proof.
  intros l. induction l as [|n0 l IH] using rev_ind; intros n addr Hin Hs.
  - by apply elem_of_nil in Hin.
  - rewrite getKvVbMap_snoc.
    apply elem_of_app in Hin as [Hin|Hin%list_elem_of_singleton].
    + pose proof (IH _ _ Hin Hs) as Hrec.
      destruct (gsa n0); [|done]. destruct (gvb n0); [|done].
      case_decide; [by eexists|done].
    + subst n0. destruct Hs as [-> (vbs & -> & Hp)].
      rewrite decide_True by done. by eexists.
Qed.

(** X5.  In the map that [getKvVbMap] builds, a partition is bound to the
    address of the last listed data node that answered both calls and lists
    the partition; nodes that failed either call leave no trace, and a
    partition that no answering node lists is absent. *)
Theorem getKvVbMap_last_wins (kvAddrs : list Z) gsa gvb (p : Z) :
  (∀ pre n post addr,
     kvAddrs = pre ++ n :: post →
     serves gsa gvb n p addr →
     (∀ n' addr', n' ∈ post → ¬ serves gsa gvb n' p addr') →
     getKvVbMap kvAddrs gsa gvb !! p = Some addr) ∧
  (∀ addr, getKvVbMap kvAddrs gsa gvb !! p = Some addr →
     ∃ n, n ∈ kvAddrs ∧ serves gsa gvb n p addr) ∧
  ((∀ n addr, n ∈ kvAddrs → ¬ serves gsa gvb n p addr) →
     getKvVbMap kvAddrs gsa gvb !! p = None).
Proof.
  split_and!.
  - intros pre n post. revert kvAddrs pre n.
    induction post as [|n' post IH] using rev_ind; intros kvAddrs pre n addr -> Hs Hpost.
    + rewrite getKvVbMap_snoc. destruct Hs as [Ha (vbs & Hv & Hp)].
      rewrite Ha, Hv. by rewrite decide_True.
    + replace (pre ++ n :: post ++ [n']) with ((pre ++ n :: post) ++ [n'])
        by (by rewrite <- app_assoc).
      rewrite getKvVbMap_snoc.
      assert (getKvVbMap (pre ++ n :: post) gsa gvb !! p = Some addr) as Hrec.
      { eapply IH; [done|done|]. intros n2 a2 Hin. apply Hpost.
        apply elem_of_app. by left. }
      destruct (gsa n') as [a'|] eqn:Ha'; [|done].
      destruct (gvb n') as [vbs'|] eqn:Hv'; [|done].
      case_decide as Hin; [|done].
      destruct (Hpost n' a'); [apply elem_of_app; right; by left|].
      split; [done|]. by exists vbs'.
  - apply getKvVbMap_from.
  - intros Hnone. destruct (getKvVbMap kvAddrs gsa gvb !! p) as [addr|] eqn:E; [|done].
    destruct (getKvVbMap_from _ _ _ _ _ E) as (n & Hin & Hs).
    by destruct (Hnone n addr Hin).
Qed.

(** X6.  When no partition is listed by two answering data nodes of
    different addresses, the order in which the cache lists the nodes plays
    no part: every listing of the same nodes gives the same map. *)
Theorem getKvVbMap_order_irrelevant (l1 l2 : list Z) gsa gvb :
  l1 ≡ₚ l2 →
  (∀ n n' p a a', n ∈ l1 → n' ∈ l1 →
     serves gsa gvb n p a → serves gsa gvb n' p a' → a = a') →
  getKvVbMap l1 gsa gvb = getKvVbMap l2 gsa gvb.
Proof.
  intros Hperm Hdisj. apply map_eq. intros p.
  destruct (getKvVbMap l1 gsa gvb !! p) as [a1|] eqn:E1;
    destruct (getKvVbMap l2 gsa gvb !! p) as [a2|] eqn:E2; [| | |done].
  - destruct (getKvVbMap_from _ _ _ _ _ E1) as (n1 & Hin1 & Hs1).
    destruct (getKvVbMap_from _ _ _ _ _ E2) as (n2 & Hin2 & Hs2).
    rewrite <- Hperm in Hin2. f_equal.
    exact (Hdisj _ _ _ _ _ Hin1 Hin2 Hs1 Hs2).
  - destruct (getKvVbMap_from _ _ _ _ _ E1) as (n1 & Hin1 & Hs1). rewrite Hperm in Hin1.
    destruct (getKvVbMap_to _ _ _ _ _ _ Hin1 Hs1) as [? ?]. congruence.
  - destruct (getKvVbMap_from _ _ _ _ _ E2) as (n2 & Hin2 & Hs2). rewrite <- Hperm in Hin2.
    destruct (getKvVbMap_to _ _ _ _ _ _ Hin2 Hs2) as [? ?]. congruence.
Qed.

Definition sampleServiceAddress (n : Z) : option string :=
  if decide (n = 1) then Some "10.0.0.1:11210"
  else if decide (n = 2) then Some "10.0.0.2:11210" else None.

Definition sampleVBuckets (n : Z) : option (list Z) :=
  if decide (n = 1) then Some [0; 1]
  else if decide (n = 2) then Some [2; 3] else Some [0; 2].

Lemma getKvVbMap_order_irrelevant_witness :
  getKvVbMap [1; 3; 2] sampleServiceAddress sampleVBuckets
  = getKvVbMap [2; 1; 3] sampleServiceAddress sampleVBuckets.
Proof.
  apply getKvVbMap_order_irrelevant.
  - etrans; [apply perm_skip, perm_swap | apply perm_swap].
  - intros n n' p a a' Hn Hn' [Ha (vbs & Hv & Hp)] [Ha' (vbs' & Hv' & Hp')].
    assert (∀ k, k ∈ [1; 3; 2] → k = 1 ∨ k = 2 ∨ k = 3) as Hcases.
    { intros k Hk. repeat (apply elem_of_cons in Hk as [->|Hk]); auto.
      by apply elem_of_nil in Hk. }
    destruct (Hcases _ Hn) as [E|[E|E]]; subst n;
      destruct (Hcases _ Hn') as [E|[E|E]]; subst n';
      vm_compute in Ha, Ha', Hv, Hv'; simplify_eq; try done;
      vm_compute in Hp, Hp';
      repeat (apply elem_of_cons in Hp as [->|Hp]); try (by apply elem_of_nil in Hp);
      repeat (apply elem_of_cons in Hp' as [Hp'|Hp']); try (by apply elem_of_nil in Hp');
      done.
Defined.

End Planner.

(** ** Ownership takeover and give-up (consumer/vbucket_takeover.go) *)

Module Takeover.

Inductive error :=
| errFailedRPCDownloadDir
| errFailedConnectRemoteRPC
| errUnexpectedVbStreamStatus
| errVbOwnedByAnotherWorker
| errVbOwnedByAnotherNode
| errOther (msg : string).  (* an error handed up from a callee *)

(** A value stored in [vbProcessingStats] (an [interface{}] in the source). *)
Inductive statValue :=
| StatString (s : string)
| StatUint64 (n : Z).

Section takeover.

(** The fields of [vbucketKVBlob] that this file does not touch; the struct
    is declared elsewhere in the package. *)
Context {Other : Type}.

(** The stream status constants, declared elsewhere in the package.  They
    label different cases of one [switch] in [doVbTakeover], so Go requires
    them to be pairwise different. *)
Variables dcpStreamRunning dcpStreamStopped dcpStreamUninitialised : string.

Record vbucketKVBlob := {
  AssignedDocIDTimerWorker : string;
  AssignedWorker : string;
  CurrentVBOwner : string;
  DCPStreamStatus : string;
  LastCheckpointTime : string;
  LastDocTimerFeedbackSeqNo : Z;
  LastSeqNoProcessed : Z;
  NodeUUID : string;
  PreviousAssignedWorker : string;
  PreviousEventingDir : string;
  PreviousNodeUUID : string;
  PreviousVBOwner : string;
  otherFields : Other
}.

(** What the consumer reads of itself and of its producer.  [nodeUUID],
    [consumerName] and [hostPortAddr] are the values of the accessors
    [c.NodeUUID()], [c.ConsumerName()] and [c.HostPortAddr()]. *)
Record Consumer := {
  nodeUUID : string;
  consumerName : string;
  hostPortAddr : string;
  eventingDir : string;
  appName : string;
  (* c.producer.IsEventingNodeAlive(hostPort, uuid) *)
  IsEventingNodeAlive : string → string → bool;
  (* c.producer.VbEventingNodeAssignMap() *)
  VbEventingNodeAssignMap : gmap Z string;
  (* c.producer.WorkerVbMap() *)
  WorkerVbMap : gmap string (list Z)
}.

(** Calls that leave the consumer, in program order. *)
Inductive effect :=
| DcpRequestStream (vb : Z) (vbBlob : vbucketKVBlob) (streamStartSeqNo : Z)
| DialPath (remoteConsumerAddr previousAssignedWorker : string)
| DownloadDir (timerDir sTimerDir dTimerDir remoteConsumerAddr : string) (vb : Z)
| CopyPlasmaRecords (vb : Z) (dTimerDir : string)
| ClientClose
| UpdateCheckpointWrite (vbKey : string) (vbBlob : vbucketKVBlob).

(** How the callees outside this file answer. *)
Record Externals := {
  dcpRequestStreamHandle : Z → vbucketKVBlob → Z → option error;
  timerAddrs : gmap string (gmap string string);
  addrUUIDMap : gmap string string;
  (* net.SplitHostPort; both parts are empty when it fails *)
  splitHostPort : string → string * string;
  joinHostPort : string → string → string;
  dialPath : string → string → bool;
  copyPlasmaRecords : Z → string → option error
}.

(** The consumer's mutable state touched here, and the trace of effects. *)
Record State := {
  vbStreamRequested : gset Z;
  vbProcessingStats : gmap (Z * string) statValue;
  vbsStreamClosed : gset Z;
  effects : list effect
}.

Definition updateVbStat (vb : Z) (key : string) (v : statValue) (st : State) : State :=
  {| vbStreamRequested := vbStreamRequested st;
     vbProcessingStats := <[(vb, key) := v]> (vbProcessingStats st);
     vbsStreamClosed := vbsStreamClosed st;
     effects := effects st |}.

Definition emit (e : effect) (st : State) : State :=
  {| vbStreamRequested := vbStreamRequested st;
     vbProcessingStats := vbProcessingStats st;
     vbsStreamClosed := vbsStreamClosed st;
     effects := effects st ++ [e] |}.

Definition setStreamRequested (s : gset Z) (st : State) : State :=
  {| vbStreamRequested := s;
     vbProcessingStats := vbProcessingStats st;
     vbsStreamClosed := vbsStreamClosed st;
     effects := effects st |}.

(** [checkIfCurrentNodeShouldOwnVb]; a missing key reads as the empty string. *)
Definition checkIfCurrentNodeShouldOwnVb (c : Consumer) (vb : Z) : bool :=
  bool_decide (default "" (VbEventingNodeAssignMap c !! vb) = hostPortAddr c).

(** The start sequence number picked at lines 366-371. *)
Definition streamStartSeqNo (vbBlob : vbucketKVBlob) : Z :=
  if decide (LastDocTimerFeedbackSeqNo vbBlob < LastSeqNoProcessed vbBlob)
  then LastDocTimerFeedbackSeqNo vbBlob
  else LastSeqNoProcessed vbBlob.

(** [timerAddrs[a][b]] with its [ok] flag. *)
Definition timerAddr (x : Externals) (a b : string) : option string :=
  timerAddrs x !! a ≫= λ inner, inner !! b.

(** Lines 396-434: the address of the previous owner's RPC server. *)
Definition remoteConsumerAddr (x : Externals) (vbBlob : vbucketKVBlob) : string :=
  let previousAssignedWorker := PreviousAssignedWorker vbBlob in
  let previousVBOwner := PreviousVBOwner vbBlob in
  match timerAddr x previousVBOwner previousAssignedWorker with
  | None =>
      let addr := default "" (addrUUIDMap x !! PreviousNodeUUID vbBlob) in
      match timerAddr x addr previousAssignedWorker with
      | Some hp =>
          joinHostPort x (splitHostPort x previousVBOwner).1 (splitHostPort x hp).2
      | None => ""
      end
  | Some hp =>
      joinHostPort x (splitHostPort x previousVBOwner).1 (splitHostPort x hp).2
  end.

(** [fmt.Sprintf("reb_%v_%v_timer.data", vb, appName)] *)
Definition timerDirName (vb : Z) (app : string) : string :=
  "reb_" +:+ itoa (Z.to_nat vb) +:+ "_" +:+ app +:+ "_timer.data".

(** [updateVbOwnerAndStartDCPStream]; the result is the returned error
    ([None] for [nil]) and the state after the call. *)
Definition updateVbOwnerAndStartDCPStream (x : Externals) (c : Consumer)
    (vbKey : string) (vb : Z) (vbBlob : vbucketKVBlob) (st : State)
  : option error * State :=
  if decide (vb ∈ vbStreamRequested st) then (None, st)
  else
    let st := setStreamRequested ({[vb]} ∪ vbStreamRequested st) st in
    let st := updateVbStat vb "last_processed_seq_no"
                (StatUint64 (LastSeqNoProcessed vbBlob)) st in
    let st := updateVbStat vb "last_doc_timer_feedback_seqno"
                (StatUint64 (LastDocTimerFeedbackSeqNo vbBlob)) st in
    let seqNo := streamStartSeqNo vbBlob in
    let st := emit (DcpRequestStream vb vbBlob seqNo) st in
    match dcpRequestStreamHandle x vb vbBlob seqNo with
    | Some err => (Some err, setStreamRequested (vbStreamRequested st ∖ {[vb]}) st)
    | None =>
        let previousAssignedWorker := PreviousAssignedWorker vbBlob in
        let addr := remoteConsumerAddr x vbBlob in
        let st := emit (DialPath addr previousAssignedWorker) st in
        if negb (dialPath x addr previousAssignedWorker)
        then (Some errFailedConnectRemoteRPC, st)
        else
          let timerDir := timerDirName vb (appName c) in
          let sTimerDir := PreviousEventingDir vbBlob +:+ "/" +:+ timerDir in
          let dTimerDir := eventingDir c +:+ "/" +:+ timerDir in
          if decide (nodeUUID c ≠ PreviousNodeUUID vbBlob) then
            let st := emit (DownloadDir timerDir sTimerDir dTimerDir addr vb) st in
            let st := emit (CopyPlasmaRecords vb dTimerDir) st in
            match copyPlasmaRecords x vb dTimerDir with
            | Some err => (Some err, emit ClientClose st)
            | None => (None, emit ClientClose st)
            end
          else (None, emit ClientClose st)
    end.

(** The [return] statement that [doVbTakeover] reaches. *)
Inductive takeoverSite :=
| SkipAlreadyOpened        (* line 290: return nil *)
| DeadOwnerAnotherWorker   (* line 297: return errVbOwnedByAnotherWorker *)
| DeadOwnerRecheckedStart  (* line 309: return c.updateVbOwnerAndStartDCPStream *)
| DeadOwnerStart           (* line 311: return c.updateVbOwnerAndStartDCPStream *)
| OwnedByAnotherWorker     (* line 315: return errVbOwnedByAnotherWorker *)
| OwnedByAnotherNode       (* line 318: return errVbOwnedByAnotherNode *)
| StoppedStart             (* line 325: return c.updateVbOwnerAndStartDCPStream *)
| UnexpectedStatus.        (* line 328: return errUnexpectedVbStreamStatus *)

(** The guard of the dead-owner path, lines 293-294. *)
Definition deadOwnerGuard (c : Consumer) (vb : Z) (vbBlob : vbucketKVBlob) : bool :=
  bool_decide (nodeUUID c ≠ NodeUUID vbBlob)
  && negb (IsEventingNodeAlive c (CurrentVBOwner vbBlob) (NodeUUID vbBlob))
  && checkIfCurrentNodeShouldOwnVb c vb.

(** The control flow of [doVbTakeover] on the blob that the metadata read
    returned. *)
Definition doVbTakeoverSite (c : Consumer) (vb : Z) (vbBlob : vbucketKVBlob)
  : takeoverSite :=
  if decide (DCPStreamStatus vbBlob = dcpStreamRunning) then
    if decide (NodeUUID vbBlob = nodeUUID c ∧ AssignedWorker vbBlob = consumerName c)
    then SkipAlreadyOpened
    else if deadOwnerGuard c vb vbBlob then
      if decide (NodeUUID vbBlob = nodeUUID c ∧ AssignedWorker vbBlob ≠ consumerName c)
      then DeadOwnerAnotherWorker
      else if decide (NodeUUID vbBlob = nodeUUID c
                      ∧ AssignedWorker vbBlob = consumerName c)
      then DeadOwnerRecheckedStart
      else DeadOwnerStart
    else if decide (NodeUUID vbBlob = nodeUUID c
                    ∧ AssignedWorker vbBlob ≠ consumerName c)
    then OwnedByAnotherWorker
    else OwnedByAnotherNode
  else if decide (DCPStreamStatus vbBlob = dcpStreamStopped
                  ∨ DCPStreamStatus vbBlob = dcpStreamUninitialised)
  then StoppedStart
  else UnexpectedStatus.

(** [fmt.Sprintf("%s::vb::%s", appName, strconv.Itoa(int(vb)))] *)
Definition vbKeyOf (c : Consumer) (vb : Z) : string :=
  appName c +:+ "::vb::" +:+ itoa (Z.to_nat vb).

(** [doVbTakeover]: what each [return] statement yields. *)
Definition doVbTakeover (x : Externals) (c : Consumer) (vb : Z)
    (vbBlob : vbucketKVBlob) (st : State) : option error * State :=
  match doVbTakeoverSite c vb vbBlob with
  | SkipAlreadyOpened => (None, st)
  | DeadOwnerAnotherWorker | OwnedByAnotherWorker => (Some errVbOwnedByAnotherWorker, st)
  | DeadOwnerRecheckedStart | DeadOwnerStart | StoppedStart =>
      updateVbOwnerAndStartDCPStream x c (vbKeyOf c vb) vb vbBlob st
  | OwnedByAnotherNode => (Some errVbOwnedByAnotherNode, st)
  | UnexpectedStatus => (Some errUnexpectedVbStreamStatus, st)
  end.

(** [updateCheckpoint]: [now] is [time.Now().Format(time.RFC3339)]; the
    result is the blob as the caller sees it afterwards and the new state.
    [updateCheckpointCallback] hands the blob to the metadata store. *)
Definition giveUpBlob (c : Consumer) (now : string) (vbBlob : vbucketKVBlob)
  : vbucketKVBlob :=
  {| AssignedDocIDTimerWorker := "";
     AssignedWorker := "";
     CurrentVBOwner := "";
     DCPStreamStatus := dcpStreamStopped;
     LastCheckpointTime := now;
     LastDocTimerFeedbackSeqNo := LastDocTimerFeedbackSeqNo vbBlob;
     LastSeqNoProcessed := LastSeqNoProcessed vbBlob;
     NodeUUID := "";
     PreviousAssignedWorker := consumerName c;
     PreviousEventingDir := eventingDir c;
     PreviousNodeUUID := nodeUUID c;
     PreviousVBOwner := hostPortAddr c;
     otherFields := otherFields vbBlob |}.

Definition updateCheckpoint (c : Consumer) (now : string) (vbKey : string) (vb : Z)
    (vbBlob : vbucketKVBlob) (st : State) : vbucketKVBlob * State :=
  let vbBlob := giveUpBlob c now vbBlob in
  let st := emit (UpdateCheckpointWrite vbKey vbBlob) st in
  let st := updateVbStat vb "doc_id_timer_processing_worker"
              (StatString (AssignedDocIDTimerWorker vbBlob)) st in
  let st := updateVbStat vb "assigned_worker" (StatString (AssignedWorker vbBlob)) st in
  let st := updateVbStat vb "current_vb_owner" (StatString (CurrentVBOwner vbBlob)) st in
  let st := updateVbStat vb "dcp_stream_status" (StatString (DCPStreamStatus vbBlob)) st in
  let st := updateVbStat vb "node_uuid" (StatString (NodeUUID vbBlob)) st in
  (vbBlob, st).

(** One round of the [retryVbMetaStateCheck] loop of [vbGiveUpRoutine]:
    [vbBlob] is what the metadata read returned, [stop] tells whether
    [stopVbOwnerGiveupCh] had a message at the [select]. *)
Inductive pollStep :=
| PollReturn      (* line 154: the routine returns *)
| PollRetry       (* lines 164-165: sleep, then read again *)
| PollExit.       (* line 167: falls out of the loop, next partition *)

Definition retryVbMetaStateCheckStep (c : Consumer) (vbBlob : vbucketKVBlob)
    (stop : bool) : pollStep :=
  if stop then PollReturn
  else if decide (DCPStreamStatus vbBlob ≠ dcpStreamRunning
                  ∨ (NodeUUID vbBlob = nodeUUID c
                     ∧ AssignedWorker vbBlob = consumerName c))
  then PollRetry
  else PollExit.

(** The loop over the successive reads; [None] when the reads at hand are
    used up with the loop still going. *)
Fixpoint retryVbMetaStateCheck (c : Consumer) (reads : list (vbucketKVBlob * bool))
  : option pollStep :=
  match reads with
  | [] => None
  | (vbBlob, stop) :: reads' =>
      match retryVbMetaStateCheckStep c vbBlob stop with
      | PollRetry => retryVbMetaStateCheck c reads'
      | s => Some s
      end
  end.

(** *** The ownership lists *)

(** [vbProcessingStats.getVbStat], declared elsewhere in the package: the
    read that goes with [updateVbStat].  It hands back the statistic as an
    [interface{}]; one that was never written reads as [nil], the
    statistics being taken to have an entry for every partition asked
    for. *)
Definition getVbStat (st : State) (vb : Z) (key : string) : option statValue :=
  vbProcessingStats st !! (vb, key).

(** [getVbStat(vb, key) == s] for a string [s]: an [interface{}] equals a
    string only when it holds that very string. *)
Definition statIs (st : State) (vb : Z) (key s : string) : Prop :=
  getVbStat st vb key = Some (StatString s).

#[local] Instance statValue_eq_dec : EqDecision statValue.
Proof. solve_decision. Defined.

#[local] Instance statIs_dec st vb key s : Decision (statIs st vb key s).
Proof. unfold statIs. apply _. Defined.

(** [for _, v := range vbs { if vb == v { return true } }; return false] *)
Fixpoint vbIn (vb : Z) (vbs : list Z) : bool :=
  match vbs with
  | [] => false
  | v :: vbs' => if decide (vb = v) then true else vbIn vb vbs'
  end.

(** [checkIfConsumerShouldOwnVb] *)
Definition checkIfConsumerShouldOwnVb (c : Consumer) (vb : Z) (workerName : string)
  : bool :=
  vbIn vb (default [] (WorkerVbMap c !! workerName)).

(** [checkIfCurrentConsumerShouldOwnVb]; [workerName] is the field
    [c.workerName]. *)
Definition checkIfCurrentConsumerShouldOwnVb (c : Consumer) (workerName : string)
    (vb : Z) : bool :=
  vbIn vb (default [] (WorkerVbMap c !! workerName)).

(** [getConsumerForGivenVbucket]; [order] is the sequence in which the
    [range] over the worker map hands out its entries. *)
Fixpoint getConsumerForGivenVbucket (order : list (string * list Z)) (vb : Z)
  : string :=
  match order with
  | [] => ""
  | (workerName, vbs) :: order' =>
      if vbIn vb vbs then workerName else getConsumerForGivenVbucket order' vb
  end.

(** [getVbRemainingToOwn]: the keys of the node map that pass the test, put
    in ascending order by [sort.Sort]. *)
Definition getVbRemainingToOwn (c : Consumer) (workerName : string) (st : State)
  : list Z :=
  merge_sort Z.le
    (filter (λ vb, (¬ statIs st vb "node_uuid" (nodeUUID c)
                    ∨ ¬ statIs st vb "assigned_worker" (consumerName c))
                   ∧ checkIfCurrentConsumerShouldOwnVb c workerName vb = true)
            (map_to_list (VbEventingNodeAssignMap c)).*1).

(** [getVbsOwned] *)
Definition getVbsOwned (c : Consumer) : list Z :=
  merge_sort Z.le
    (filter (λ kv, kv.2 = hostPortAddr c
                   ∧ checkIfCurrentNodeShouldOwnVb c kv.1 = true
                   ∧ checkIfConsumerShouldOwnVb c kv.1 (consumerName c) = true)
            (map_to_list (VbEventingNodeAssignMap c))).*1.

(** The partitions over which a [range] of [vbProcessingStats] runs.  The
    statistics are kept here by partition and name together, so these are
    the partitions with a statistic; one without any fails the test of
    [getVbRemainingToGiveUp] in the source as well, its [assigned_worker]
    being [nil]. *)
Definition statVbs (st : State) : list Z :=
  elements (set_map (D := gset Z) fst (dom (vbProcessingStats st))).

(** [getVbRemainingToGiveUp]: the [range] runs over the partitions of
    [vbProcessingStats]. *)
Definition getVbRemainingToGiveUp (c : Consumer) (workerName : string) (st : State)
  : list Z :=
  merge_sort Z.le
    (filter (λ vb, statIs st vb "assigned_worker" (consumerName c)
                   ∧ checkIfCurrentConsumerShouldOwnVb c workerName vb = false)
            (statVbs st)).

(** [vbsToHandle] *)
Definition vbsToHandle (c : Consumer) : list Z :=
  default [] (WorkerVbMap c !! consumerName c).

(** *** The give-up routine *)

Definition setStreamClosed (s : gset Z) (st : State) : State :=
  {| vbStreamRequested := vbStreamRequested st;
     vbProcessingStats := vbProcessingStats st;
     vbsStreamClosed := s;
     effects := effects st |}.

(** What the metadata store and the clock answer while one partition is
    given up: the read of line 82, the read of line 137 with the time of
    the checkpoint after it, and the reads of the poll, each with the state
    of [stopVbOwnerGiveupCh] at its [select]. *)
Record giveUpReads := {
  firstRead : vbucketKVBlob;
  checkpointRead : vbucketKVBlob;
  checkpointTime : string;
  pollReads : list (vbucketKVBlob * bool)
}.

(** How the body of the loop of lines 80-171 ends for a partition. *)
Inductive giveUpStep :=
| GiveUpSkipped            (* line 102: continue *)
| GiveUpNotOwner           (* the test of lines 111-112 fails *)
| GiveUpPolled (s : option pollStep).

(** Lines 96-100. *)
Definition clearVbStats (vb : Z) (st : State) : State :=
  let st := updateVbStat vb "doc_id_timer_processing_worker" (StatString "") st in
  let st := updateVbStat vb "assigned_worker" (StatString "") st in
  let st := updateVbStat vb "current_vb_owner" (StatString "") st in
  let st := updateVbStat vb "dcp_stream_status" (StatString dcpStreamStopped) st in
  updateVbStat vb "node_uuid" (StatString "") st.

(** The body of the loop for the partition [vb]; [vbsts] is the copy of
    the statistics handed to the routine.  [DcpCloseStream] goes to the
    feed of the partition and its error is only logged, so the result just
    tells whether it was called, besides how the body ended and the
    state. *)
Definition giveUpVb (c : Consumer) (vbsts : State) (vb : Z) (r : giveUpReads)
    (st : State) : giveUpStep * bool * State :=
  let vbKey := vbKeyOf c vb in
  let vbBlob := firstRead r in
  if decide (NodeUUID vbBlob ≠ nodeUUID c ∧ DCPStreamStatus vbBlob = dcpStreamRunning)
  then (GiveUpSkipped, true, clearVbStats vb st)
  else if decide (statIs vbsts vb "node_uuid" (nodeUUID c)
                  ∧ statIs vbsts vb "assigned_worker" (consumerName c))
  then
    let cUpdated := bool_decide (vb ∈ vbsStreamClosed st) in
    let st := if cUpdated then st
              else setStreamClosed ({[vb]} ∪ vbsStreamClosed st) st in
    let st := if cUpdated then st
              else (updateCheckpoint c (checkpointTime r) vbKey vb
                      (checkpointRead r) st).2 in
    (GiveUpPolled (retryVbMetaStateCheck c (pollReads r)), true, st)
  else (GiveUpNotOwner, false, st).

(** How the routine of lines 73-172 ends. *)
Inductive giveUpEnd :=
| GiveUpDone                  (* the list is used up *)
| GiveUpStopped (vb : Z)      (* line 154: return *)
| GiveUpPolling (vb : Z).     (* still in the poll when the reads end *)

(** [for _, vb := range vbsRemainingToGiveUp { ... }] *)
Fixpoint giveUpLoop (c : Consumer) (vbsts : State) (work : list (Z * giveUpReads))
    (st : State) : giveUpEnd * State :=
  match work with
  | [] => (GiveUpDone, st)
  | (vb, r) :: work' =>
      match giveUpVb c vbsts vb r st with
      | (GiveUpPolled (Some PollReturn), _, st') => (GiveUpStopped vb, st')
      | (GiveUpPolled None, _, st') => (GiveUpPolling vb, st')
      | (_, _, st') => giveUpLoop c vbsts work' st'
      end
  end.

(** *** Properties *)

(** What the specification's wording gives as the exit condition of the
    poll: the stream is not running, or neither the node UUID nor the
    worker of the blob is this consumer's. *)
Definition statedPollExit (c : Consumer) (vbBlob : vbucketKVBlob) : Prop :=
  DCPStreamStatus vbBlob ≠ dcpStreamRunning
  ∨ (NodeUUID vbBlob ≠ nodeUUID c ∧ AssignedWorker vbBlob ≠ consumerName c).

(** The dispatch of [doVbTakeover] on the blob read, case by case. *)
Definition takeoverDispatch (x : Externals) (c : Consumer) (vb : Z)
    (vbBlob : vbucketKVBlob) (st : State) : Prop :=
  let start := updateVbOwnerAndStartDCPStream x c (vbKeyOf c vb) vb vbBlob st in
  let alive := IsEventingNodeAlive c (CurrentVBOwner vbBlob) (NodeUUID vbBlob) in
  (* running, owned by this node and this worker: success, nothing done *)
  (DCPStreamStatus vbBlob = dcpStreamRunning →
   NodeUUID vbBlob = nodeUUID c → AssignedWorker vbBlob = consumerName c →
   doVbTakeover x c vb vbBlob st = (None, st)) ∧
  (* running, owned by another node that is alive: refused *)
  (DCPStreamStatus vbBlob = dcpStreamRunning →
   NodeUUID vbBlob ≠ nodeUUID c → alive = true →
   doVbTakeover x c vb vbBlob st = (Some errVbOwnedByAnotherNode, st)) ∧
  (* running, owned by another node that is dead, planned for this node *)
  (DCPStreamStatus vbBlob = dcpStreamRunning →
   NodeUUID vbBlob ≠ nodeUUID c → alive = false →
   checkIfCurrentNodeShouldOwnVb c vb = true →
   doVbTakeover x c vb vbBlob st = start) ∧
  (* stopped or uninitialised *)
  (DCPStreamStatus vbBlob = dcpStreamStopped
   ∨ DCPStreamStatus vbBlob = dcpStreamUninitialised →
   doVbTakeover x c vb vbBlob st = start) ∧
  (* anything else *)
  (DCPStreamStatus vbBlob ≠ dcpStreamRunning →
   DCPStreamStatus vbBlob ≠ dcpStreamStopped →
   DCPStreamStatus vbBlob ≠ dcpStreamUninitialised →
   doVbTakeover x c vb vbBlob st = (Some errUnexpectedVbStreamStatus, st)).

(** C2.  On a blob whose stream status is running, [doVbTakeover] returns
    success without side effects when the blob names this node and this
    worker, returns [errVbOwnedByAnotherNode] when the owner is another node
    that the oracle reports alive, and goes on to
    [updateVbOwnerAndStartDCPStream] when that other node is dead and the
    planner puts the partition on this node; on stopped or uninitialised it
    goes on to [updateVbOwnerAndStartDCPStream]; any other status gives
    [errUnexpectedVbStreamStatus]. *)
Theorem doVbTakeover_dispatch x c vb vbBlob st :
  dcpStreamStopped ≠ dcpStreamRunning →
  dcpStreamUninitialised ≠ dcpStreamRunning →
  takeoverDispatch x c vb vbBlob st.
Proof.
  intros Hsr Hur. unfold takeoverDispatch, doVbTakeover, doVbTakeoverSite, deadOwnerGuard.
  split_and!.
  - intros Hrun Hu Hw. rewrite decide_True by done. by rewrite decide_True.
  - intros Hrun Hu Halive. rewrite decide_True by done.
    rewrite decide_False by tauto. rewrite Halive, andb_false_r. simpl.
    by rewrite decide_False by tauto.
  - intros Hrun Hu Halive Hplan. rewrite decide_True by done.
    rewrite decide_False by tauto.
    rewrite Halive, Hplan, bool_decide_eq_true_2 by done. simpl.
    rewrite decide_False by tauto. by rewrite decide_False by tauto.
  - intros Hst. rewrite decide_False by (destruct Hst; congruence).
    by rewrite decide_True.
  - intros H1 H2 H3. rewrite decide_False by done.
    by rewrite decide_False by tauto.
Qed.

(** C10.  The guard of the dead-owner path asks for a blob node UUID other
    than this node's, so neither the [errVbOwnedByAnotherWorker] return nor
    the re-checked start inside that path is ever reached: once the guard
    holds on a running blob, control goes straight to the plain call of
    [updateVbOwnerAndStartDCPStream]. *)
Theorem dead_owner_path_direct x c vb vbBlob st :
  doVbTakeoverSite c vb vbBlob ≠ DeadOwnerAnotherWorker ∧
  doVbTakeoverSite c vb vbBlob ≠ DeadOwnerRecheckedStart ∧
  (DCPStreamStatus vbBlob = dcpStreamRunning →
   deadOwnerGuard c vb vbBlob = true →
   doVbTakeoverSite c vb vbBlob = DeadOwnerStart ∧
   doVbTakeover x c vb vbBlob st =
     updateVbOwnerAndStartDCPStream x c (vbKeyOf c vb) vb vbBlob st).
Proof.
  assert (Hguard : deadOwnerGuard c vb vbBlob = true → NodeUUID vbBlob ≠ nodeUUID c).
  { unfold deadOwnerGuard. intros H. apply andb_true_iff in H as [H _].
    apply andb_true_iff in H as [H _]. apply bool_decide_eq_true in H. congruence. }
  unfold doVbTakeover, doVbTakeoverSite.
  destruct (deadOwnerGuard c vb vbBlob) eqn:G.
  - specialize (Hguard eq_refl).
    repeat case_decide; split_and!; try done; intuition congruence.
  - repeat case_decide; split_and!; done.
Qed.

(** The outcome of one round of the poll, decided by the blob and the
    stop signal. *)
Lemma retryVbMetaStateCheckStep_cases c vbBlob stop :
  (retryVbMetaStateCheckStep c vbBlob stop = PollReturn ↔ stop = true) ∧
  (retryVbMetaStateCheckStep c vbBlob stop = PollExit ↔
     stop = false ∧ DCPStreamStatus vbBlob = dcpStreamRunning
     ∧ ¬ (NodeUUID vbBlob = nodeUUID c ∧ AssignedWorker vbBlob = consumerName c)) ∧
  (retryVbMetaStateCheckStep c vbBlob stop = PollRetry ↔
     stop = false
     ∧ (DCPStreamStatus vbBlob ≠ dcpStreamRunning
        ∨ (NodeUUID vbBlob = nodeUUID c ∧ AssignedWorker vbBlob = consumerName c))).
Proof.
  unfold retryVbMetaStateCheckStep.
  destruct (decide (DCPStreamStatus vbBlob = dcpStreamRunning)) as [Hrun|Hrun];
    destruct stop; try case_decide; split_and!; split;
    intros; try done; intuition congruence.
Qed.

(** The loop ends with the first round that is not a retry. *)
Lemma retryVbMetaStateCheck_first c reads s :
  retryVbMetaStateCheck c reads = Some s ↔
  ∃ pre vbBlob stop post,
    reads = pre ++ (vbBlob, stop) :: post
    ∧ Forall (λ r, retryVbMetaStateCheckStep c r.1 r.2 = PollRetry) pre
    ∧ retryVbMetaStateCheckStep c vbBlob stop = s ∧ s ≠ PollRetry.
Proof.
  induction reads as [|[b sp] reads IH]; simpl.
  - split; [done|]. intros (pre & ? & ? & ? & E & _). by destruct pre.
  - destruct (retryVbMetaStateCheckStep c b sp) eqn:Hstep.
    + split.
      * intros [= <-]. exists [], b, sp, reads. by rewrite Hstep.
      * intros (pre & b' & sp' & post & E & Hpre & Hs & Hne).
        destruct pre as [|[b0 sp0] pre]; simplify_eq/=; try congruence.
        apply Forall_cons in Hpre as [Hhd _]. simpl in Hhd. congruence.
    + rewrite IH. split.
      * intros (pre & b' & sp' & post & -> & Hpre & Hs & Hne).
        exists ((b, sp) :: pre), b', sp', post. split; [done|].
        split; [by constructor|done].
      * intros (pre & b' & sp' & post & E & Hpre & Hs & Hne).
        destruct pre as [|[b0 sp0] pre]; simplify_eq/=; try congruence.
        apply Forall_cons in Hpre as [_ Hpre]. by exists pre, b', sp', post.
    + split.
      * intros [= <-]. exists [], b, sp, reads. by rewrite Hstep.
      * intros (pre & b' & sp' & post & E & Hpre & Hs & Hne).
        destruct pre as [|[b0 sp0] pre]; simplify_eq/=; try congruence.
        apply Forall_cons in Hpre as [Hhd _]. simpl in Hhd. congruence.
Qed.

(** C3, as the code has it.  Every round of the poll first looks at the
    stop signal, which ends the routine; otherwise the loop is left for the
    partition exactly when the blob shows a running stream that is not held
    by this node and worker together, and the poll goes on while the stream
    is not running or the blob still names this node and this worker. *)
Theorem give_up_poll_exit c reads :
  (∀ vbBlob stop,
     (retryVbMetaStateCheckStep c vbBlob stop = PollReturn ↔ stop = true) ∧
     (retryVbMetaStateCheckStep c vbBlob stop = PollExit ↔
        stop = false ∧ DCPStreamStatus vbBlob = dcpStreamRunning
        ∧ (NodeUUID vbBlob ≠ nodeUUID c ∨ AssignedWorker vbBlob ≠ consumerName c)) ∧
     (retryVbMetaStateCheckStep c vbBlob stop = PollRetry ↔
        stop = false
        ∧ (DCPStreamStatus vbBlob ≠ dcpStreamRunning
           ∨ (NodeUUID vbBlob = nodeUUID c
              ∧ AssignedWorker vbBlob = consumerName c)))) ∧
  (retryVbMetaStateCheck c reads = Some PollExit ↔
   ∃ pre vbBlob post,
     reads = pre ++ (vbBlob, false) :: post
     ∧ Forall (λ r, r.2 = false
                    ∧ (DCPStreamStatus r.1 ≠ dcpStreamRunning
                       ∨ (NodeUUID r.1 = nodeUUID c
                          ∧ AssignedWorker r.1 = consumerName c))) pre
     ∧ DCPStreamStatus vbBlob = dcpStreamRunning
     ∧ (NodeUUID vbBlob ≠ nodeUUID c ∨ AssignedWorker vbBlob ≠ consumerName c)).
Proof.
  assert (Hdm : ∀ b : vbucketKVBlob,
    ¬ (NodeUUID b = nodeUUID c ∧ AssignedWorker b = consumerName c) ↔
    (NodeUUID b ≠ nodeUUID c ∨ AssignedWorker b ≠ consumerName c)).
  { intros b. destruct (decide (NodeUUID b = nodeUUID c)); tauto. }
  split.
  - intros vbBlob stop.
    destruct (retryVbMetaStateCheckStep_cases c vbBlob stop) as (H1 & H2 & H3).
    rewrite <- Hdm. done.
  - rewrite retryVbMetaStateCheck_first. split.
    + intros (pre & b & sp & post & -> & Hpre & Hs & _).
      apply (retryVbMetaStateCheckStep_cases c b sp) in Hs as (-> & Hrun & Hown).
      exists pre, b, post. split; [done|]. split; [|by rewrite <- Hdm].
      eapply Forall_impl; [exact Hpre|]. intros [b0 sp0] H0. simpl in *.
      by apply (retryVbMetaStateCheckStep_cases c b0 sp0) in H0.
    + intros (pre & b & post & -> & Hpre & Hrun & Hown).
      exists pre, b, false, post. split; [done|]. split; [|split; [|done]].
      * eapply Forall_impl; [exact Hpre|]. intros [b0 sp0] H0. simpl in *.
        by apply (retryVbMetaStateCheckStep_cases c b0 sp0).
      * apply (retryVbMetaStateCheckStep_cases c b false). by rewrite Hdm.
Qed.

Lemma streamStartSeqNo_min vbBlob :
  streamStartSeqNo vbBlob =
    Z.min (LastSeqNoProcessed vbBlob) (LastDocTimerFeedbackSeqNo vbBlob).
Proof. unfold streamStartSeqNo. case_decide; lia. Qed.

(** The effects of one call of [updateVbOwnerAndStartDCPStream] come after
    those already in the trace. *)
Lemma updateVbOwnerAndStartDCPStream_effects x c vbKey vb vbBlob st :
  ∃ new,
    effects (updateVbOwnerAndStartDCPStream x c vbKey vb vbBlob st).2
      = effects st ++ new
    ∧ (vb ∈ vbStreamRequested st → new = [])
    ∧ (vb ∉ vbStreamRequested st →
       ∃ rest, new = DcpRequestStream vb vbBlob (streamStartSeqNo vbBlob) :: rest
               ∧ ∀ vb' b' s', DcpRequestStream vb' b' s' ∉ rest).
Proof.
  unfold updateVbOwnerAndStartDCPStream. case_decide as Hreq.
  { exists []. by rewrite app_nil_r. }
  assert (Hnot : ∀ l vb' b' s', Forall (λ e, ∀ v b s, e ≠ DcpRequestStream v b s) l →
            DcpRequestStream vb' b' s' ∉ l).
  { intros l vb' b' s' Hl Hin. rewrite Forall_forall in Hl. by eapply Hl. }
  destruct (dcpRequestStreamHandle x _ _ _); simpl.
  { eexists. split; [done|]. split; [done|]. intros _. eexists. split; [done|].
    intros. apply Hnot. constructor. }
  destruct (dialPath x _ _); simpl.
  2:{ eexists. rewrite <- app_assoc. split; [done|]. split; [done|]. intros _.
      eexists. split; [done|]. intros. apply Hnot. by repeat constructor. }
  case_decide; [destruct (copyPlasmaRecords x _ _)|]; simpl;
    rewrite <- !app_assoc; (eexists; split; [done|]; split; [done|]; intros _;
      eexists; split; [done|]; intros; apply Hnot; by repeat constructor).
Qed.

(** C4.  The sequence number at which [updateVbOwnerAndStartDCPStream]
    requests the stream is the smaller of the blob's [LastSeqNoProcessed]
    and [LastDocTimerFeedbackSeqNo]: that is the value computed, and every
    stream request the call issues carries it. *)
Theorem stream_start_seq_is_min x c vbKey vb vbBlob st :
  streamStartSeqNo vbBlob =
    Z.min (LastSeqNoProcessed vbBlob) (LastDocTimerFeedbackSeqNo vbBlob) ∧
  ∃ new,
    effects (updateVbOwnerAndStartDCPStream x c vbKey vb vbBlob st).2
      = effects st ++ new
    ∧ (∀ vb' b' s', DcpRequestStream vb' b' s' ∈ new →
         vb' = vb ∧ b' = vbBlob ∧
         s' = Z.min (LastSeqNoProcessed vbBlob) (LastDocTimerFeedbackSeqNo vbBlob))
    ∧ (vb ∉ vbStreamRequested st →
         DcpRequestStream vb vbBlob
           (Z.min (LastSeqNoProcessed vbBlob) (LastDocTimerFeedbackSeqNo vbBlob)) ∈ new).
Proof.
  split; [apply streamStartSeqNo_min|].
  destruct (updateVbOwnerAndStartDCPStream_effects x c vbKey vb vbBlob st)
    as (new & E & Hin & Hout).
  exists new. split; [done|]. rewrite <- streamStartSeqNo_min.
  destruct (decide (vb ∈ vbStreamRequested st)) as [Hreq|Hreq].
  - rewrite (Hin Hreq). split; [|done]. intros ??? H. by apply elem_of_nil in H.
  - destruct (Hout Hreq) as (rest & -> & Hrest). split.
    + intros vb' b' s' H. apply elem_of_cons in H as [H|H]; [by injection H|].
      by apply Hrest in H.
    + intros _. by left.
Qed.

(** C5.  A call of [updateVbOwnerAndStartDCPStream] for a partition that is
    already in [vbStreamRequested] returns success and leaves the state,
    statistics and trace of effects included, as it was; only a call that
    finds the partition absent enters it, and it stays entered exactly when
    the stream request succeeds. *)
Theorem stream_request_idempotent x c vbKey vb vbBlob st :
  (vb ∈ vbStreamRequested st →
     updateVbOwnerAndStartDCPStream x c vbKey vb vbBlob st = (None, st)) ∧
  ((updateVbOwnerAndStartDCPStream x c vbKey vb vbBlob st).2 ≠ st →
     vb ∉ vbStreamRequested st) ∧
  (vb ∉ vbStreamRequested st →
     let st' := (updateVbOwnerAndStartDCPStream x c vbKey vb vbBlob st).2 in
     match dcpRequestStreamHandle x vb vbBlob (streamStartSeqNo vbBlob) with
     | None => vbStreamRequested st' = {[vb]} ∪ vbStreamRequested st
     | Some err =>
         vbStreamRequested st' = vbStreamRequested st
         ∧ (updateVbOwnerAndStartDCPStream x c vbKey vb vbBlob st).1 = Some err
     end) ∧
  (∀ vbBlob2,
     let st' := (updateVbOwnerAndStartDCPStream x c vbKey vb vbBlob st).2 in
     vb ∈ vbStreamRequested st' →
     updateVbOwnerAndStartDCPStream x c vbKey vb vbBlob2 st' = (None, st')).
Proof.
  split_and!.
  - intros Hreq. unfold updateVbOwnerAndStartDCPStream. by rewrite decide_True.
  - intros Hne Hreq. apply Hne.
    unfold updateVbOwnerAndStartDCPStream. by rewrite decide_True.
  - intros Hreq. unfold updateVbOwnerAndStartDCPStream. rewrite decide_False by done.
    destruct (dcpRequestStreamHandle x _ _ _); simpl.
    + split; [|done]. apply set_eq. intros y.
      rewrite elem_of_difference, elem_of_union, elem_of_singleton.
      split; [tauto|]. intros Hy. split; [tauto|]. congruence.
    + destruct (dialPath x _ _); simpl; [|done].
      case_decide; [destruct (copyPlasmaRecords x _ _)|]; done.
  - intros vbBlob2 st' Hreq. unfold updateVbOwnerAndStartDCPStream at 1.
    by rewrite decide_True.
Qed.

(** C7.  The blob that [updateCheckpoint] writes has the stream status
    stopped, the owner fields empty, the previous-owner fields set to this
    consumer's name, directory, node UUID and address, a fresh checkpoint
    time, and every other field, the two sequence numbers among them, as it
    was; that blob is what goes to the metadata store. *)
Theorem give_up_checkpoint_frame c now vbKey vb vbBlob st :
  let vbBlob' := (updateCheckpoint c now vbKey vb vbBlob st).1 in
  let st' := (updateCheckpoint c now vbKey vb vbBlob st).2 in
  DCPStreamStatus vbBlob' = dcpStreamStopped ∧
  AssignedWorker vbBlob' = "" ∧
  CurrentVBOwner vbBlob' = "" ∧
  NodeUUID vbBlob' = "" ∧
  AssignedDocIDTimerWorker vbBlob' = "" ∧
  PreviousAssignedWorker vbBlob' = consumerName c ∧
  PreviousEventingDir vbBlob' = eventingDir c ∧
  PreviousNodeUUID vbBlob' = nodeUUID c ∧
  PreviousVBOwner vbBlob' = hostPortAddr c ∧
  LastCheckpointTime vbBlob' = now ∧
  LastSeqNoProcessed vbBlob' = LastSeqNoProcessed vbBlob ∧
  LastDocTimerFeedbackSeqNo vbBlob' = LastDocTimerFeedbackSeqNo vbBlob ∧
  otherFields vbBlob' = otherFields vbBlob ∧
  effects st' = effects st ++ [UpdateCheckpointWrite vbKey vbBlob'] ∧
  vbStreamRequested st' = vbStreamRequested st.
Proof. unfold updateCheckpoint. simpl. split_and!; reflexivity. Qed.

(** *** The ownership lists *)

Lemma vbIn_elem vb vbs : vbIn vb vbs = true ↔ vb ∈ vbs.
Proof.
  induction vbs as [|v vbs IH]; simpl.
  - split; [done|]. by intros ?%elem_of_nil.
  - case_decide as E.
    + split; [|done]. intros _. subst. by left.
    + rewrite IH. split; [by right|]. by intros [?|?]%elem_of_cons.
Qed.

Lemma vbIn_not_elem vb vbs : vbIn vb vbs = false ↔ vb ∉ vbs.
Proof. rewrite <- vbIn_elem. by destruct (vbIn vb vbs). Qed.

Lemma elem_of_statVbs st vb :
  vb ∈ statVbs st ↔ ∃ key, is_Some (vbProcessingStats st !! (vb, key)).
Proof.
  unfold statVbs. rewrite elem_of_elements, elem_of_map. split.
  - intros ([vb' key] & -> & Hin). exists key. by apply elem_of_dom.
  - intros [key Hk]. exists (vb, key). split; [done|]. by apply elem_of_dom.
Qed.

Lemma elem_of_getVbRemainingToOwn c workerName st vb :
  vb ∈ getVbRemainingToOwn c workerName st ↔
    is_Some (VbEventingNodeAssignMap c !! vb)
    ∧ vb ∈ default [] (WorkerVbMap c !! workerName)
    ∧ ¬ (statIs st vb "node_uuid" (nodeUUID c)
         ∧ statIs st vb "assigned_worker" (consumerName c)).
Proof.
  unfold getVbRemainingToOwn, checkIfCurrentConsumerShouldOwnVb.
  rewrite merge_sort_Permutation, list_elem_of_filter, vbIn_elem.
  rewrite list_elem_of_fmap. split.
  - intros [[Hst Hplan] ([k v] & -> & Hin)]. apply elem_of_map_to_list in Hin.
    simpl in *. split; [by eexists|]. split; [done|]. tauto.
  - intros ([v Hv] & Hplan & Hst). split.
    + split; [|done].
      destruct (decide (statIs st vb "node_uuid" (nodeUUID c))); tauto.
    + exists (vb, v). split; [done|]. by apply elem_of_map_to_list.
Qed.

Lemma elem_of_getVbRemainingToGiveUp c workerName st vb :
  vb ∈ getVbRemainingToGiveUp c workerName st ↔
    statIs st vb "assigned_worker" (consumerName c)
    ∧ vb ∉ default [] (WorkerVbMap c !! workerName).
Proof.
  unfold getVbRemainingToGiveUp, checkIfCurrentConsumerShouldOwnVb.
  rewrite merge_sort_Permutation, list_elem_of_filter, vbIn_not_elem.
  rewrite elem_of_statVbs. split; [tauto|].
  intros [Hst Hplan]. split; [done|]. exists "assigned_worker".
  unfold statIs, getVbStat in Hst. by rewrite Hst.
Qed.

Lemma NoDup_getVbRemainingToOwn c workerName st :
  NoDup (getVbRemainingToOwn c workerName st).
Proof.
  unfold getVbRemainingToOwn. rewrite merge_sort_Permutation.
  apply NoDup_filter, NoDup_fst_map_to_list.
Qed.

Lemma NoDup_getVbRemainingToGiveUp c workerName st :
  NoDup (getVbRemainingToGiveUp c workerName st).
Proof.
  unfold getVbRemainingToGiveUp. rewrite merge_sort_Permutation.
  apply NoDup_filter. unfold statVbs. apply NoDup_elements.
Qed.

(** X7.  The two lists that steer a rebalance: [getVbRemainingToOwn] holds
    the partitions of the node map that the plan gives to this worker while
    the statistics do not show this node and this consumer as their owner;
    [getVbRemainingToGiveUp] holds the partitions whose statistics name
    this consumer as the assigned worker while the plan does not give them
    to this worker.  No partition is in both, and each list is ascending
    without repetition. *)
Theorem remaining_lists_split (c : Consumer) (workerName : string) (st : State) :
  let own := getVbRemainingToOwn c workerName st in
  let giveUp := getVbRemainingToGiveUp c workerName st in
  (∀ vb, vb ∈ own ↔
     is_Some (VbEventingNodeAssignMap c !! vb)
     ∧ checkIfCurrentConsumerShouldOwnVb c workerName vb = true
     ∧ ¬ (statIs st vb "node_uuid" (nodeUUID c)
          ∧ statIs st vb "assigned_worker" (consumerName c))) ∧
  (∀ vb, vb ∈ giveUp ↔
     statIs st vb "assigned_worker" (consumerName c)
     ∧ checkIfCurrentConsumerShouldOwnVb c workerName vb = false) ∧
  (∀ vb, vb ∈ own → vb ∉ giveUp) ∧
  Sorted Z.le own ∧ NoDup own ∧ Sorted Z.le giveUp ∧ NoDup giveUp.
Proof.
  cbv zeta. split_and!.
  - intros vb. rewrite elem_of_getVbRemainingToOwn.
    unfold checkIfCurrentConsumerShouldOwnVb. by rewrite vbIn_elem.
  - intros vb. rewrite elem_of_getVbRemainingToGiveUp.
    unfold checkIfCurrentConsumerShouldOwnVb. by rewrite vbIn_not_elem.
  - intros vb Hown Hgive. apply elem_of_getVbRemainingToOwn in Hown as (_ & Hplan & _).
    by apply elem_of_getVbRemainingToGiveUp in Hgive as [_ Hno].
  - apply (Sorted_merge_sort Z.le).
  - apply NoDup_getVbRemainingToOwn.
  - apply (Sorted_merge_sort Z.le).
  - apply NoDup_getVbRemainingToGiveUp.
Qed.

(** X8.  The test at the head of [vbsStateUpdate] finds both lists empty,
    and so ends the rebalance at once, exactly when the statistics agree
    with the plan: every partition whose statistics name this consumer is
    planned for this worker, and every partition of the node map planned
    for this worker shows this node and this consumer as its owner. *)
Theorem rebalance_settled_iff (c : Consumer) (workerName : string) (st : State) :
  getVbRemainingToGiveUp c workerName st = [] ∧ getVbRemainingToOwn c workerName st = []
  ↔
  ∀ vb,
    (statIs st vb "assigned_worker" (consumerName c) →
       checkIfCurrentConsumerShouldOwnVb c workerName vb = true) ∧
    (is_Some (VbEventingNodeAssignMap c !! vb) →
     checkIfCurrentConsumerShouldOwnVb c workerName vb = true →
       statIs st vb "node_uuid" (nodeUUID c)
       ∧ statIs st vb "assigned_worker" (consumerName c)).
Proof.
  unfold checkIfCurrentConsumerShouldOwnVb. split.
  - intros [Hg Ho] vb. split.
    + intros Hst. apply vbIn_elem.
      destruct (decide (vb ∈ default [] (WorkerVbMap c !! workerName))) as [|Hno];
        [done|].
      assert (vb ∈ getVbRemainingToGiveUp c workerName st) as Hin
        by (by apply elem_of_getVbRemainingToGiveUp).
      rewrite Hg in Hin. by apply elem_of_nil in Hin.
    + intros Hnode Hplan%vbIn_elem.
      destruct (decide (statIs st vb "node_uuid" (nodeUUID c)
                        ∧ statIs st vb "assigned_worker" (consumerName c)))
        as [|Hno]; [done|].
      assert (vb ∈ getVbRemainingToOwn c workerName st) as Hin
        by (by apply elem_of_getVbRemainingToOwn).
      rewrite Ho in Hin. by apply elem_of_nil in Hin.
  - intros H. split.
    + apply elem_of_nil_inv. intros vb [Hst Hno]%elem_of_getVbRemainingToGiveUp.
      apply Hno. apply vbIn_elem. by apply H.
    + apply elem_of_nil_inv.
      intros vb (Hnode & Hplan & Hst)%elem_of_getVbRemainingToOwn.
      apply Hst. apply H; [done|]. by apply vbIn_elem.
Qed.

Lemma statIs_updateVbStat_ne st vb key v vb' key' s :
  (vb', key') ≠ (vb, key) →
  statIs (updateVbStat vb key v st) vb' key' s ↔ statIs st vb' key' s.
Proof.
  intros Hne. unfold statIs, getVbStat, updateVbStat. simpl.
  by rewrite lookup_insert_ne.
Qed.

Lemma statIs_updateVbStat_eq st vb key v s :
  statIs (updateVbStat vb key v st) vb key s ↔ v = StatString s.
Proof.
  unfold statIs, getVbStat, updateVbStat. simpl. rewrite lookup_insert_eq.
  split; congruence.
Qed.

(** The statistics of a partition after the five writes of a give-up. *)
Lemma statIs_clearVbStats st vb vb' key s :
  statIs (clearVbStats vb st) vb' key s ↔
    if decide (vb' = vb ∧ (key = "doc_id_timer_processing_worker"
                           ∨ key = "assigned_worker"
                           ∨ key = "current_vb_owner" ∨ key = "node_uuid"))
    then s = ""
    else if decide (vb' = vb ∧ key = "dcp_stream_status") then s = dcpStreamStopped
    else statIs st vb' key s.
Proof.
  unfold clearVbStats.
  destruct (decide (vb' = vb)) as [->|Hvb].
  - destruct (decide (key = "node_uuid")) as [->|H1].
    { rewrite statIs_updateVbStat_eq. rewrite decide_True by tauto.
      split; congruence. }
    rewrite statIs_updateVbStat_ne by congruence.
    destruct (decide (key = "dcp_stream_status")) as [->|H2].
    { rewrite statIs_updateVbStat_eq.
      rewrite decide_False by (intros [_ H]; intuition congruence).
      rewrite decide_True by done. split; congruence. }
    rewrite statIs_updateVbStat_ne by congruence.
    destruct (decide (key = "current_vb_owner")) as [->|H3].
    { rewrite statIs_updateVbStat_eq. rewrite decide_True by tauto.
      split; congruence. }
    rewrite statIs_updateVbStat_ne by congruence.
    destruct (decide (key = "assigned_worker")) as [->|H4].
    { rewrite statIs_updateVbStat_eq. rewrite decide_True by tauto.
      split; congruence. }
    rewrite statIs_updateVbStat_ne by congruence.
    destruct (decide (key = "doc_id_timer_processing_worker")) as [->|H5].
    { rewrite statIs_updateVbStat_eq. rewrite decide_True by tauto.
      split; congruence. }
    rewrite statIs_updateVbStat_ne by congruence.
    rewrite decide_False by (intros [_ H]; intuition congruence).
    rewrite decide_False by tauto. done.
  - rewrite !statIs_updateVbStat_ne by congruence.
    rewrite decide_False by tauto. rewrite decide_False by tauto. done.
Qed.

(** [updateCheckpoint] leaves the statistics as the five writes of lines
    96-100 do. *)
Lemma updateCheckpoint_stats c now vbKey vb vbBlob st :
  vbProcessingStats (updateCheckpoint c now vbKey vb vbBlob st).2
  = vbProcessingStats (clearVbStats vb st).
Proof. reflexivity. Qed.

Lemma statIs_stats st st' vb key s :
  vbProcessingStats st' = vbProcessingStats st →
  statIs st' vb key s ↔ statIs st vb key s.
Proof. intros H. unfold statIs, getVbStat. by rewrite H. Qed.

(** X9.  Giving a partition up takes it off the give-up list: after the
    statistics writes of [updateCheckpoint], and likewise after those of
    the skipped give-up of lines 96-100, the partition is no longer in
    [getVbRemainingToGiveUp], while for every other partition membership in
    either list is as before.  This needs a consumer name other than the
    empty string, which is what the writes leave as the assigned worker. *)
Theorem give_up_leaves_list (c : Consumer) (workerName now vbKey : string) (vb : Z)
    (vbBlob : vbucketKVBlob) (st st' : State) :
  consumerName c ≠ "" →
  st' = (updateCheckpoint c now vbKey vb vbBlob st).2 ∨ st' = clearVbStats vb st →
  (vb ∉ getVbRemainingToGiveUp c workerName st') ∧
  (∀ vb', vb' ≠ vb →
     (vb' ∈ getVbRemainingToGiveUp c workerName st'
      ↔ vb' ∈ getVbRemainingToGiveUp c workerName st) ∧
     (vb' ∈ getVbRemainingToOwn c workerName st'
      ↔ vb' ∈ getVbRemainingToOwn c workerName st)).
Proof.
  intros Hname Hst'.
  assert (Hstats : vbProcessingStats st' = vbProcessingStats (clearVbStats vb st))
    by (destruct Hst' as [->| ->]; reflexivity).
  assert (Hs : ∀ vb' key s, statIs st' vb' key s ↔
            statIs (clearVbStats vb st) vb' key s)
    by (intros; by apply statIs_stats).
  split.
  - intros [Hw _]%elem_of_getVbRemainingToGiveUp.
    apply Hs, statIs_clearVbStats in Hw.
    rewrite decide_True in Hw by tauto. done.
  - intros vb' Hne.
    assert (Hsame : ∀ key s, statIs st' vb' key s ↔ statIs st vb' key s).
    { intros key s. rewrite Hs, statIs_clearVbStats.
      rewrite decide_False by tauto. by rewrite decide_False by tauto. }
    rewrite !elem_of_getVbRemainingToGiveUp, !elem_of_getVbRemainingToOwn.
    by rewrite !Hsame.
Qed.

Lemma elem_of_getVbsOwned c vb :
  vb ∈ getVbsOwned c ↔
    VbEventingNodeAssignMap c !! vb = Some (hostPortAddr c) ∧ vb ∈ vbsToHandle c.
Proof.
  unfold getVbsOwned, vbsToHandle, checkIfConsumerShouldOwnVb.
  rewrite merge_sort_Permutation, list_elem_of_fmap. split.
  - intros ([k v] & -> & Hin). apply list_elem_of_filter in Hin as [(Hv & _ & Hw) Hin].
    simpl in *. subst v. apply elem_of_map_to_list in Hin. by apply vbIn_elem in Hw.
  - intros [Hnode Hw]. exists (vb, hostPortAddr c). split; [done|].
    apply list_elem_of_filter. split; [|by apply elem_of_map_to_list]. simpl.
    split; [done|]. split; [|by apply vbIn_elem].
    unfold checkIfCurrentNodeShouldOwnVb. rewrite Hnode. simpl.
    by apply bool_decide_eq_true_2.
Qed.

Lemma NoDup_getVbsOwned c : NoDup (getVbsOwned c).
Proof.
  unfold getVbsOwned. rewrite merge_sort_Permutation.
  pose proof (NoDup_fst_map_to_list (VbEventingNodeAssignMap c)) as Hnd.
  induction (map_to_list (VbEventingNodeAssignMap c)) as [|[k v] l IH];
    simpl; [constructor|].
  rewrite filter_cons. simpl in Hnd. apply NoDup_cons in Hnd as [Hk Hnd].
  case_decide; simpl; [|by apply IH].
  apply NoDup_cons. split; [|by apply IH].
  intros Hin. apply Hk. apply list_elem_of_fmap in Hin as (kv & -> & Hin).
  apply list_elem_of_filter in Hin as [_ Hin].
  apply list_elem_of_fmap. by exists kv.
Qed.

(** X10.  When the consumer's two maps are those the planner builds, the
    node map by [vbEventingNodeAssign] and the worker map by
    [initWorkerVbMap] for this node's address, [getVbsOwned] returns the
    very list that the worker map holds for this consumer, which is what
    [vbsToHandle] returns; a consumer the worker map does not know gets the
    empty list from both. *)
Theorem getVbsOwned_planned (c : Consumer) (N : Z) (addrs : list string)
    (app : string) (workerCount : Z) :
  Planner.vbEventingNodeAssign N addrs = Some (VbEventingNodeAssignMap c) →
  Planner.initWorkerVbMap (VbEventingNodeAssignMap c) (hostPortAddr c) app workerCount
    = Some (WorkerVbMap c) →
  getVbsOwned c = vbsToHandle c.
Proof.
  intros Hnm Hwm.
  assert (Hw : 1 ≤ workerCount).
  { destruct (decide (workerCount ≤ 0)) as [Hw|]; [|lia].
    apply (Planner.initWorkerVbMap_no_workers (VbEventingNodeAssignMap c)
             (hostPortAddr c) app) in Hw. congruence. }
  destruct (Planner.initWorkerVbMap_blocks (VbEventingNodeAssignMap c)
              (hostPortAddr c) app workerCount) as (wm & E & Hin & Hout); [|done|].
  { intros p v Hp. by eapply Planner.vbEventingNodeAssign_keys. }
  cbv zeta in E, Hin. rewrite Hwm in E. injection E as <-.
  set (L := Planner.vbucketsToHandle (VbEventingNodeAssignMap c) (hostPortAddr c)) in *.
  assert (HL : StronglySorted Z.le L ∧ NoDup L).
  { split; [|apply Planner.NoDup_vbucketsToHandle].
    apply Sorted_StronglySorted; [apply _|]. apply Planner.Sorted_vbucketsToHandle. }
  assert (Hsub : ∀ a b, StronglySorted Z.le (take b (drop a L))
                        ∧ NoDup (take b (drop a L))
                        ∧ ∀ vb, vb ∈ take b (drop a L) → vb ∈ L).
  { intros a b. destruct HL as [HS HN].
    rewrite <- (take_drop a L) in HS, HN.
    apply StronglySorted_app_1_r in HS. apply NoDup_app in HN as (_ & _ & HN).
    rewrite <- (take_drop b (drop a L)) in HS, HN.
    apply StronglySorted_app_1_l in HS. apply NoDup_app in HN as (HN & _ & _).
    split; [done|]. split; [done|].
    intros vb Hvb. by apply subseteq_take, subseteq_drop in Hvb. }
  assert (Hlist : StronglySorted Z.le (vbsToHandle c) ∧ NoDup (vbsToHandle c)
                  ∧ ∀ vb, vb ∈ vbsToHandle c → vb ∈ L).
  { unfold vbsToHandle.
    destruct (decide (consumerName c
                      ∈ Planner.workerName app <$> seq 0 (Z.to_nat workerCount)))
      as [Hel|Hel].
    - apply list_elem_of_fmap in Hel as (k & Hk & Hseq). apply elem_of_seq in Hseq.
      specialize (Hin k ltac:(lia)). unfold Planner.workerVbs in Hin.
      rewrite <- Hk in Hin. rewrite Hin. apply Hsub.
    - rewrite Hout.
      + simpl. split; [constructor|]. split; [constructor|].
        by intros vb ?%elem_of_nil.
      + intros k Hk Heq. apply Hel. apply list_elem_of_fmap. exists k.
        split; [done|]. apply elem_of_seq. lia. }
  destruct Hlist as (HS & HN & HinL).
  apply Planner.sorted_list_unique.
  - apply (Sorted_merge_sort Z.le).
  - by apply StronglySorted_Sorted.
  - apply NoDup_getVbsOwned.
  - done.
  - intros vb. rewrite elem_of_getVbsOwned. split; [tauto|].
    intros Hvb. split; [|done]. by apply Planner.elem_of_vbucketsToHandle, HinL.
Qed.

(** What [getConsumerForGivenVbucket] returns: a worker of the listing
    whose partitions hold [vb], or the empty string when none does. *)
Lemma getConsumerForGivenVbucket_spec order vb :
  (∃ vbs, (getConsumerForGivenVbucket order vb, vbs) ∈ order ∧ vb ∈ vbs) ∨
  (getConsumerForGivenVbucket order vb = ""
   ∧ ∀ name vbs, (name, vbs) ∈ order → vb ∉ vbs).
Proof.
  induction order as [|[name vbs] order IH]; simpl.
  - right. split; [done|]. by intros ?? ?%elem_of_nil.
  - destruct (vbIn vb vbs) eqn:Hv.
    + left. exists vbs. split; [by left|]. by apply vbIn_elem.
    + destruct IH as [(vbs' & Hin & Hvb)|[-> Hnone]].
      * left. exists vbs'. split; [by right|done].
      * right. split; [done|]. intros name' vbs' [[= -> ->]|Hin]%elem_of_cons.
        -- by apply vbIn_not_elem.
        -- by eapply Hnone.
Qed.

(** X11.  [getConsumerForGivenVbucket] ranges over the worker map in an
    order the run-time picks.  In whatever order the entries come, the
    worker it returns is planned to own the partition whenever some worker
    is; it returns the empty string when none is; and when the lists of
    the workers do not overlap at the partition, the answer is that one
    worker, the same in every order. *)
Theorem getConsumerForGivenVbucket_any_order (c : Consumer)
    (order : list (string * list Z)) (vb : Z) :
  order ≡ₚ map_to_list (WorkerVbMap c) →
  let w := getConsumerForGivenVbucket order vb in
  (checkIfConsumerShouldOwnVb c vb w = true
   ↔ ∃ name, checkIfConsumerShouldOwnVb c vb name = true) ∧
  ((∀ name, checkIfConsumerShouldOwnVb c vb name = false) → w = "") ∧
  ((∀ n1 n2, checkIfConsumerShouldOwnVb c vb n1 = true →
             checkIfConsumerShouldOwnVb c vb n2 = true → n1 = n2) →
   ∀ name, checkIfConsumerShouldOwnVb c vb name = true → w = name).
Proof.
  intros Hperm w.
  assert (Hentry : ∀ name vbs, (name, vbs) ∈ order ↔ WorkerVbMap c !! name = Some vbs).
  { intros name vbs. by rewrite Hperm, elem_of_map_to_list. }
  assert (Hcheck : ∀ name, checkIfConsumerShouldOwnVb c vb name = true ↔
            ∃ vbs, (name, vbs) ∈ order ∧ vb ∈ vbs).
  { intros name. unfold checkIfConsumerShouldOwnVb. rewrite vbIn_elem. split.
    - intros Hin. destruct (WorkerVbMap c !! name) as [vbs|] eqn:E.
      + exists vbs. split; [by apply Hentry|done].
      + by apply elem_of_nil in Hin.
    - intros (vbs & Hin%Hentry & Hvb). by rewrite Hin. }
  assert (Hsome : (∃ name, checkIfConsumerShouldOwnVb c vb name = true) →
                  checkIfConsumerShouldOwnVb c vb w = true).
  { intros [name (vbs & Hin & Hvb)%Hcheck].
    destruct (getConsumerForGivenVbucket_spec order vb) as [Hfound|[_ Hnone]].
    - by apply Hcheck.
    - by destruct (Hnone _ _ Hin). }
  split_and!.
  - split; [by exists w|exact Hsome].
  - intros Hnone.
    destruct (getConsumerForGivenVbucket_spec order vb) as [Hfound|[Hw _]]; [|done].
    apply Hcheck in Hfound. fold w in Hfound. by rewrite Hnone in Hfound.
  - intros Hone name Hname. apply Hone; [|done]. apply Hsome. by exists name.
Qed.

(** *** The give-up routine *)

(** The effect is the checkpoint write under the key [key]. *)
Definition isCheckpointOf (key : string) (e : effect) : bool :=
  match e with
  | UpdateCheckpointWrite k _ => bool_decide (k = key)
  | _ => false
  end.

(** The number of checkpoint writes under [key] in a trace. *)
Definition checkpointsOf (key : string) (l : list effect) : nat :=
  length (filter (λ e, isCheckpointOf key e = true) l).

Lemma checkpointsOf_app key l1 l2 :
  checkpointsOf key (l1 ++ l2) = (checkpointsOf key l1 + checkpointsOf key l2)%nat.
Proof. unfold checkpointsOf. by rewrite filter_app, length_app. Qed.

Lemma vbKeyOf_inj c vb vb' : 0 ≤ vb → 0 ≤ vb' → vbKeyOf c vb = vbKeyOf c vb' → vb = vb'.
Proof.
  intros Hvb Hvb' H. unfold vbKeyOf in H.
  do 2 apply (inj (String.app _)) in H. apply Planner.itoa_inj in H. lia.
Qed.

(** What the body of the loop does to the trace and to [vbsStreamClosed]:
    nothing, or one checkpoint write for a partition that enters
    [vbsStreamClosed] with it. *)
Lemma giveUpVb_effects c vbsts vb r st :
  let st' := (giveUpVb c vbsts vb r st).2 in
  vbStreamRequested st' = vbStreamRequested st ∧
  vbsStreamClosed st ⊆ vbsStreamClosed st' ∧
  ((effects st' = effects st ∧ vbsStreamClosed st' = vbsStreamClosed st)
   ∨ (∃ vbBlob, effects st' = effects st ++ [UpdateCheckpointWrite (vbKeyOf c vb) vbBlob]
      ∧ (vb ∉ vbsStreamClosed st)
      ∧ vbsStreamClosed st' = {[vb]} ∪ vbsStreamClosed st)).
Proof.
  unfold giveUpVb. cbv zeta.
  case_decide as Hskip; [simpl; split; [done|split; [done|by left]]|].
  case_decide as Hown; [|simpl; split; [done|split; [done|by left]]].
  destruct (decide (vb ∈ vbsStreamClosed st)) as [Hin|Hin].
  - rewrite bool_decide_eq_true_2 by done. simpl.
    split; [done|split; [done|by left]].
  - rewrite bool_decide_eq_false_2 by done. cbn.
    split; [done|]. split; [apply union_subseteq_r|].
    right. eexists. split; [reflexivity|]. done.
Qed.

(** X12.  However often a partition comes up in the list of a give-up
    routine, its give-up checkpoint is written at most once: the routine
    only appends checkpoint writes to the trace, at most one under the key
    of any partition, none for a partition that was in [vbsStreamClosed]
    before, and each partition written for is in [vbsStreamClosed]
    afterwards.  The set only grows, and [vbStreamRequested] is left
    alone. *)
Theorem give_up_checkpoint_once (c : Consumer) (vbsts : State)
    (work : list (Z * giveUpReads)) (st : State) :
  Forall (λ w, 0 ≤ w.1) work →
  let st' := (giveUpLoop c vbsts work st).2 in
  vbStreamRequested st' = vbStreamRequested st ∧
  vbsStreamClosed st ⊆ vbsStreamClosed st' ∧
  ∃ new,
    effects st' = effects st ++ new ∧
    Forall (λ e, ∃ key vbBlob, e = UpdateCheckpointWrite key vbBlob) new ∧
    ∀ vb, 0 ≤ vb →
      (checkpointsOf (vbKeyOf c vb) new ≤ 1)%nat ∧
      (vb ∈ vbsStreamClosed st → checkpointsOf (vbKeyOf c vb) new = 0%nat) ∧
      (checkpointsOf (vbKeyOf c vb) new = 1%nat → vb ∈ vbsStreamClosed st').
Proof.
  intros Hwork. cbv zeta. revert st.
  induction work as [|[vb0 r] work IH]; intros st.
  { simpl. split; [done|]. split; [done|]. exists []. rewrite app_nil_r.
    split; [done|]. split; [constructor|]. intros vb _. cbn. split; [lia|].
    split; [done|]. lia. }
  apply Forall_cons in Hwork as [Hvb0 Hwork]. simpl in Hvb0.
  specialize (IH Hwork).
  pose proof (giveUpVb_effects c vbsts vb0 r st) as Hstep. cbv zeta in Hstep.
  assert (Hone : ∀ st1, st1 = (giveUpVb c vbsts vb0 r st).2 →
    ∃ new1, effects st1 = effects st ++ new1 ∧
      Forall (λ e, ∃ key vbBlob, e = UpdateCheckpointWrite key vbBlob) new1 ∧
      ∀ vb, 0 ≤ vb →
        (checkpointsOf (vbKeyOf c vb) new1 ≤ 1)%nat ∧
        (vb ∈ vbsStreamClosed st → checkpointsOf (vbKeyOf c vb) new1 = 0%nat) ∧
        (checkpointsOf (vbKeyOf c vb) new1 = 1%nat →
           vb ∈ vbsStreamClosed st1 ∧ vb ∉ vbsStreamClosed st)).
  { intros st1 ->. destruct Hstep as (_ & _ & [[He Hc]|(vbBlob & He & Hnot & Hc)]).
    - exists []. rewrite app_nil_r. split; [done|]. split; [constructor|].
      intros vb _. cbn. split; [lia|]. split; [done|]. lia.
    - exists [UpdateCheckpointWrite (vbKeyOf c vb0) vbBlob]. split; [done|].
      split; [repeat constructor; by eexists _, _|].
      intros vb Hvb. unfold checkpointsOf. rewrite filter_cons, filter_nil. simpl.
      destruct (decide (vb = vb0)) as [->|Hne].
      + rewrite bool_decide_eq_true_2 by done. rewrite decide_True by done. simpl.
        split; [lia|]. split; [done|]. intros _. split; [|done].
        rewrite Hc. apply elem_of_union_l. by apply elem_of_singleton.
      + rewrite bool_decide_eq_false_2
          by (intros Heq; apply Hne; symmetry; by eapply vbKeyOf_inj).
        rewrite decide_False by done. simpl. split; [lia|]. split; [done|]. lia. }
  cbn [giveUpLoop].
  destruct (giveUpVb c vbsts vb0 r st) as [[s cl] st1] eqn:Est.
  cbn [snd] in Hstep. specialize (Hone st1 eq_refl).
  destruct Hstep as (Hreq & Hsub & _).
  destruct Hone as (new1 & He1 & Hf1 & Hcnt1).
  assert (Hstop : vbStreamRequested st1 = vbStreamRequested st ∧
    vbsStreamClosed st ⊆ vbsStreamClosed st1 ∧
    ∃ new, effects st1 = effects st ++ new ∧
      Forall (λ e, ∃ key vbBlob, e = UpdateCheckpointWrite key vbBlob) new ∧
      ∀ vb, 0 ≤ vb →
        (checkpointsOf (vbKeyOf c vb) new ≤ 1)%nat ∧
        (vb ∈ vbsStreamClosed st → checkpointsOf (vbKeyOf c vb) new = 0%nat) ∧
        (checkpointsOf (vbKeyOf c vb) new = 1%nat → vb ∈ vbsStreamClosed st1)).
  { split; [done|]. split; [done|]. exists new1. split; [done|]. split; [done|].
    intros vb Hvb. destruct (Hcnt1 vb Hvb) as (H1 & H2 & H3).
    split; [done|]. split; [done|]. intros H. by apply H3. }
  assert (Hgo : let st' := (giveUpLoop c vbsts work st1).2 in
    vbStreamRequested st' = vbStreamRequested st ∧
    vbsStreamClosed st ⊆ vbsStreamClosed st' ∧
    ∃ new, effects st' = effects st ++ new ∧
      Forall (λ e, ∃ key vbBlob, e = UpdateCheckpointWrite key vbBlob) new ∧
      ∀ vb, 0 ≤ vb →
        (checkpointsOf (vbKeyOf c vb) new ≤ 1)%nat ∧
        (vb ∈ vbsStreamClosed st → checkpointsOf (vbKeyOf c vb) new = 0%nat) ∧
        (checkpointsOf (vbKeyOf c vb) new = 1%nat → vb ∈ vbsStreamClosed st')).
  { cbv zeta. destruct (IH st1) as (Hreq2 & Hsub2 & new2 & He2 & Hf2 & Hcnt2).
    split; [congruence|]. split; [by etrans|].
    exists (new1 ++ new2). split; [by rewrite He2, He1, app_assoc|].
    split; [by apply Forall_app|].
    intros vb Hvb. rewrite checkpointsOf_app.
    destruct (Hcnt1 vb Hvb) as (H1 & H2 & H3).
    destruct (Hcnt2 vb Hvb) as (K1 & K2 & K3).
    destruct (decide (checkpointsOf (vbKeyOf c vb) new1 = 1%nat)) as [E1|E1].
    - destruct (H3 E1) as [Hin1 Hnot]. specialize (K2 Hin1).
      split; [lia|]. split; [done|]. intros _. by apply Hsub2.
    - assert (checkpointsOf (vbKeyOf c vb) new1 = 0%nat) as E0 by lia.
      rewrite E0. simpl. split; [done|]. split; [|done].
      intros Hin. apply K2. by apply Hsub. }
  destruct s as [| |[[| |]|]]; cbn [snd]; first [exact Hgo|exact Hstop].
Qed.

(** *** Failures of the stream start *)

(** X13.  What a failed [updateVbOwnerAndStartDCPStream] leaves behind for
    the next attempt.  When the stream request itself fails, the error is
    handed up and the partition is taken out of [vbStreamRequested], so the
    next call requests the stream again.  When the request succeeds and
    the dial to the previous owner fails, [errFailedConnectRemoteRPC] is
    returned with the partition still in [vbStreamRequested] and the
    client never closed: every later call for the partition returns
    success at once and does nothing.  The same holds after a failed copy
    of the downloaded timer records, except that the client is closed. *)
Theorem stream_start_failure_retry (x : Externals) (c : Consumer) (vbKey : string)
    (vb : Z) (vbBlob : vbucketKVBlob) (st : State) :
  vb ∉ vbStreamRequested st →
  let r := updateVbOwnerAndStartDCPStream x c vbKey vb vbBlob st in
  let seqNo := streamStartSeqNo vbBlob in
  let addr := remoteConsumerAddr x vbBlob in
  let worker := PreviousAssignedWorker vbBlob in
  let timerDir := timerDirName vb (appName c) in
  let sTimerDir := PreviousEventingDir vbBlob +:+ "/" +:+ timerDir in
  let dTimerDir := eventingDir c +:+ "/" +:+ timerDir in
  (∀ err, dcpRequestStreamHandle x vb vbBlob seqNo = Some err →
     r.1 = Some err ∧
     (vb ∉ vbStreamRequested r.2) ∧
     effects r.2 = effects st ++ [DcpRequestStream vb vbBlob seqNo] ∧
     effects (updateVbOwnerAndStartDCPStream x c vbKey vb vbBlob r.2).2
       = effects r.2 ++ [DcpRequestStream vb vbBlob seqNo]) ∧
  (dcpRequestStreamHandle x vb vbBlob seqNo = None →
   dialPath x addr worker = false →
     r.1 = Some errFailedConnectRemoteRPC ∧
     vb ∈ vbStreamRequested r.2 ∧
     effects r.2 = effects st ++ [DcpRequestStream vb vbBlob seqNo; DialPath addr worker] ∧
     ∀ vbKey2 vbBlob2,
       updateVbOwnerAndStartDCPStream x c vbKey2 vb vbBlob2 r.2 = (None, r.2)) ∧
  (∀ err, dcpRequestStreamHandle x vb vbBlob seqNo = None →
   dialPath x addr worker = true →
   nodeUUID c ≠ PreviousNodeUUID vbBlob →
   copyPlasmaRecords x vb dTimerDir = Some err →
     r.1 = Some err ∧
     vb ∈ vbStreamRequested r.2 ∧
     effects r.2 = effects st ++
       [DcpRequestStream vb vbBlob seqNo; DialPath addr worker;
        DownloadDir timerDir sTimerDir dTimerDir addr vb;
        CopyPlasmaRecords vb dTimerDir; ClientClose] ∧
     ∀ vbKey2 vbBlob2,
       updateVbOwnerAndStartDCPStream x c vbKey2 vb vbBlob2 r.2 = (None, r.2)).
Proof.
  intros Hreq. cbv zeta.
  assert (Hnoop : ∀ st1 vbKey2 vbBlob2, vb ∈ vbStreamRequested st1 →
            updateVbOwnerAndStartDCPStream x c vbKey2 vb vbBlob2 st1 = (None, st1)).
  { intros st1 vbKey2 vbBlob2 Hin. unfold updateVbOwnerAndStartDCPStream.
    by rewrite decide_True. }
  assert (Hin : vb ∈ ({[vb]} ∪ vbStreamRequested st : gset Z))
    by (apply elem_of_union_l; by apply elem_of_singleton).
  split_and!.
  - intros err Herr.
    destruct (updateVbOwnerAndStartDCPStream x c vbKey vb vbBlob st) as [e st1] eqn:Er.
    unfold updateVbOwnerAndStartDCPStream in Er. rewrite decide_False in Er by done.
    rewrite Herr in Er. cbv zeta in Er. injection Er as <- <-. cbn.
    assert (Hout : vb ∉ ({[vb]} ∪ vbStreamRequested st) ∖ ({[vb]} : gset Z)).
    { intros [_ Hn]%elem_of_difference. apply Hn. by apply elem_of_singleton. }
    split; [done|]. split; [done|]. split; [done|].
    unfold updateVbOwnerAndStartDCPStream. rewrite decide_False by (cbn; exact Hout).
    rewrite Herr. by cbn.
  - intros Hok Hdial.
    destruct (updateVbOwnerAndStartDCPStream x c vbKey vb vbBlob st) as [e st1] eqn:Er.
    unfold updateVbOwnerAndStartDCPStream in Er. rewrite decide_False in Er by done.
    rewrite Hok in Er. cbv zeta in Er. rewrite Hdial in Er. cbn in Er.
    injection Er as <- <-. cbn.
    split; [done|]. split; [done|]. split; [by rewrite <- app_assoc|].
    intros vbKey2 vbBlob2. by apply Hnoop.
  - intros err Hok Hdial Hnode Hcopy.
    destruct (updateVbOwnerAndStartDCPStream x c vbKey vb vbBlob st) as [e st1] eqn:Er.
    unfold updateVbOwnerAndStartDCPStream in Er. rewrite decide_False in Er by done.
    rewrite Hok in Er. cbv zeta in Er. rewrite Hdial in Er. cbn in Er.
    rewrite decide_True in Er by done. rewrite Hcopy in Er.
    injection Er as <- <-. cbn.
    split; [done|]. split; [done|]. split; [by rewrite <- !app_assoc|].
    intros vbKey2 vbBlob2. by apply Hnoop.
Qed.

(** *** The decision table of [doVbTakeover] *)

(** X14.  Which [return] of [doVbTakeover] is reached, by the blob alone:
    the skip exactly on a running blob of this node and worker;
    [errVbOwnedByAnotherWorker] exactly on a running blob of this node and
    another worker; [errVbOwnedByAnotherNode] exactly on a running blob of
    another node that is alive or whose partition the plan does not put on
    this node; the start exactly on a running blob of another node that is
    dead with the partition planned here, or on a stopped or uninitialised
    blob; and the unexpected-status error on every other status.  Only the
    two starts touch the state. *)
Theorem doVbTakeover_decision_table (x : Externals) (c : Consumer) (vb : Z)
    (vbBlob : vbucketKVBlob) (st : State) :
  dcpStreamStopped ≠ dcpStreamRunning →
  dcpStreamUninitialised ≠ dcpStreamRunning →
  let site := doVbTakeoverSite c vb vbBlob in
  let isRunning := DCPStreamStatus vbBlob = dcpStreamRunning in
  let mine := NodeUUID vbBlob = nodeUUID c in
  let alive := IsEventingNodeAlive c (CurrentVBOwner vbBlob) (NodeUUID vbBlob) in
  (site = SkipAlreadyOpened ↔
     isRunning ∧ mine ∧ AssignedWorker vbBlob = consumerName c) ∧
  (site = OwnedByAnotherWorker ↔
     isRunning ∧ mine ∧ AssignedWorker vbBlob ≠ consumerName c) ∧
  (site = OwnedByAnotherNode ↔
     isRunning ∧ ¬ mine
     ∧ (alive = true ∨ checkIfCurrentNodeShouldOwnVb c vb = false)) ∧
  (site = DeadOwnerStart ↔
     isRunning ∧ ¬ mine ∧ alive = false ∧ checkIfCurrentNodeShouldOwnVb c vb = true) ∧
  (site = StoppedStart ↔
     DCPStreamStatus vbBlob = dcpStreamStopped
     ∨ DCPStreamStatus vbBlob = dcpStreamUninitialised) ∧
  (site = UnexpectedStatus ↔
     ¬ isRunning ∧ DCPStreamStatus vbBlob ≠ dcpStreamStopped
     ∧ DCPStreamStatus vbBlob ≠ dcpStreamUninitialised) ∧
  (site ≠ DeadOwnerStart → site ≠ StoppedStart →
     (doVbTakeover x c vb vbBlob st).2 = st).
Proof.
  intros Hsr Hur. cbv zeta.
  unfold doVbTakeover, doVbTakeoverSite, deadOwnerGuard.
  destruct (IsEventingNodeAlive c (CurrentVBOwner vbBlob) (NodeUUID vbBlob)) eqn:Halive;
    destruct (checkIfCurrentNodeShouldOwnVb c vb) eqn:Hplan;
    (destruct (decide (nodeUUID c ≠ NodeUUID vbBlob)) as [Hn|Hn];
     [ rewrite (bool_decide_eq_true_2 _ Hn) | rewrite (bool_decide_eq_false_2 _ Hn) ]);
    destruct (decide (NodeUUID vbBlob = nodeUUID c)) as [Hm|Hm];
    destruct (decide (AssignedWorker vbBlob = consumerName c)) as [Ha|Ha];
    simpl; repeat case_decide; split_and!; try (apply conj); intros;
    try done; try congruence; try solve [exfalso; intuition congruence];
    try solve [intuition congruence].
Qed.

End takeover.

(** *** A concrete consumer *)

(** The three status strings of the specification's data model. *)
Definition running : string := "running".
Definition stopped : string := "stopped".
Definition uninitialised : string := "uninitialised".

Definition sampleConsumer : Consumer :=
  {| nodeUUID := "uuid-A";
     consumerName := "worker_app_0";
     hostPortAddr := "10.0.0.1:8096";
     eventingDir := "/data/eventing";
     appName := "app";
     IsEventingNodeAlive := λ _ uuid, bool_decide (uuid = "uuid-B");
     VbEventingNodeAssignMap := {[7 := "10.0.0.1:8096"]};
     WorkerVbMap := {[ "worker_app_0" := [7] ]} |}.

Definition sampleExternals : @Externals unit :=
  {| dcpRequestStreamHandle := λ _ _ _, None;
     timerAddrs := ∅;
     addrUUIDMap := ∅;
     splitHostPort := λ _, ("", "");
     joinHostPort := λ h p, h +:+ ":" +:+ p;
     dialPath := λ _ _, true;
     copyPlasmaRecords := λ _ _, None |}.

Definition sampleState : @State unit :=
  {| vbStreamRequested := ∅;
     vbProcessingStats := ∅;
     vbsStreamClosed := ∅;
     effects := [] |}.

(** A blob that shows partition 7 running on this consumer. *)
Definition sampleBlob : @vbucketKVBlob unit :=
  {| AssignedDocIDTimerWorker := "worker_app_0";
     AssignedWorker := "worker_app_0";
     CurrentVBOwner := "10.0.0.1:8096";
     DCPStreamStatus := running;
     LastCheckpointTime := "2018-01-01T00:00:00Z";
     LastDocTimerFeedbackSeqNo := 40;
     LastSeqNoProcessed := 42;
     NodeUUID := "uuid-A";
     PreviousAssignedWorker := "";
     PreviousEventingDir := "";
     PreviousNodeUUID := "";
     PreviousVBOwner := "";
     otherFields := () |}.

Lemma doVbTakeover_dispatch_witness :
  (stopped ≠ running ∧ uninitialised ≠ running) ∧
  takeoverDispatch running stopped uninitialised
    sampleExternals sampleConsumer 7 sampleBlob sampleState.
Proof.
  split; [split; discriminate|].
  apply doVbTakeover_dispatch; discriminate.
Defined.

(** The blob that this consumer's own give-up checkpoint leaves in the
    store: by the stated condition the poll would be over, yet the code
    reads again. *)
Lemma give_up_poll_stated_exit_fails :
  let vbBlob := giveUpBlob stopped sampleConsumer "2018-01-01T00:00:01Z" sampleBlob in
  ¬ (retryVbMetaStateCheckStep running sampleConsumer vbBlob false = PollExit
     ↔ statedPollExit running sampleConsumer vbBlob).
Proof.
  intros vbBlob [_ H].
  assert (retryVbMetaStateCheckStep running sampleConsumer vbBlob false = PollRetry)
    as Hstep by reflexivity.
  rewrite Hstep in H. discriminate H. left. discriminate.
Qed.

(** A blob that runs on another node under this consumer's worker name:
    the poll ends, though the worker name still equals this consumer's. *)
Example give_up_poll_exit_same_worker_name :
  retryVbMetaStateCheckStep running sampleConsumer
    {| AssignedDocIDTimerWorker := "worker_app_0";
       AssignedWorker := "worker_app_0";
       CurrentVBOwner := "10.0.0.2:8096";
       DCPStreamStatus := running;
       LastCheckpointTime := "";
       LastDocTimerFeedbackSeqNo := 0;
       LastSeqNoProcessed := 0;
       NodeUUID := "uuid-B";
       PreviousAssignedWorker := "";
       PreviousEventingDir := "";
       PreviousNodeUUID := "";
       PreviousVBOwner := "";
       otherFields := () |} false = PollExit.
Proof. reflexivity. Qed.

Example takeover_running_here :
  doVbTakeover running stopped uninitialised
    sampleExternals sampleConsumer 7 sampleBlob sampleState = (None, sampleState).
Proof. reflexivity. Qed.

Example stream_start_sample : streamStartSeqNo sampleBlob = 40.
Proof. reflexivity. Qed.

(** *** The ownership lists on a planned consumer *)

(** The second worker of the first of two nodes, six partitions, two
    workers a node. *)
Definition plannedConsumer : Consumer :=
  {| nodeUUID := "uuid-A";
     consumerName := "worker_app_1";
     hostPortAddr := "10.0.0.1:8096";
     eventingDir := "/data/eventing";
     appName := "app";
     IsEventingNodeAlive := λ _ _, true;
     VbEventingNodeAssignMap :=
       {[0 := "10.0.0.1:8096"; 1 := "10.0.0.1:8096"; 2 := "10.0.0.1:8096";
         3 := "10.0.0.2:8096"; 4 := "10.0.0.2:8096"; 5 := "10.0.0.2:8096"]};
     WorkerVbMap := {[ "worker_app_0" := [0; 1]; "worker_app_1" := [2] ]} |}.

(** Statistics that show partition 7 on this consumer. *)
Definition ownedState : @State unit :=
  {| vbStreamRequested := ∅;
     vbProcessingStats :=
       {[ (7, "assigned_worker") := StatString "worker_app_0";
          (7, "node_uuid") := StatString "uuid-A" ]};
     vbsStreamClosed := ∅;
     effects := [] |}.

(** The blob of partition 7 once another node runs its stream. *)
Definition takenOverBlob : @vbucketKVBlob unit :=
  {| AssignedDocIDTimerWorker := "worker_app_0";
     AssignedWorker := "worker_app_0";
     CurrentVBOwner := "10.0.0.2:8096";
     DCPStreamStatus := running;
     LastCheckpointTime := "2018-01-01T00:00:02Z";
     LastDocTimerFeedbackSeqNo := 40;
     LastSeqNoProcessed := 42;
     NodeUUID := "uuid-B";
     PreviousAssignedWorker := "worker_app_0";
     PreviousEventingDir := "/data/eventing";
     PreviousNodeUUID := "uuid-A";
     PreviousVBOwner := "10.0.0.1:8096";
     otherFields := () |}.

(** The reads of one give-up of partition 7: the blob still names this
    consumer at first, and the poll finds the stream taken over. *)
Definition sampleReads : @giveUpReads unit :=
  {| firstRead := sampleBlob;
     checkpointRead := sampleBlob;
     checkpointTime := "2018-01-01T00:00:01Z";
     pollReads := [(takenOverBlob, false)] |}.

(** The callees of [sampleExternals], with a dial that fails. *)
Definition noDialExternals : @Externals unit :=
  {| dcpRequestStreamHandle := λ _ _ _, None;
     timerAddrs := ∅;
     addrUUIDMap := ∅;
     splitHostPort := λ _, ("", "");
     joinHostPort := λ h p, h +:+ ":" +:+ p;
     dialPath := λ _ _, false;
     copyPlasmaRecords := λ _ _, None |}.

Lemma give_up_leaves_list_witness :
  consumerName sampleConsumer ≠ "" ∧
  7 ∉ getVbRemainingToGiveUp sampleConsumer "worker_app_0"
        (clearVbStats stopped 7 ownedState).
Proof.
  assert (consumerName sampleConsumer ≠ "") as H by discriminate.
  split; [exact H|].
  exact (proj1 (give_up_leaves_list stopped sampleConsumer "worker_app_0" "" "" 7
                  sampleBlob ownedState _ H (or_intror eq_refl))).
Defined.

Lemma getVbsOwned_planned_witness :
  (Planner.vbEventingNodeAssign 6 ["10.0.0.1:8096"; "10.0.0.2:8096"]
     = Some (VbEventingNodeAssignMap plannedConsumer)
   ∧ Planner.initWorkerVbMap (VbEventingNodeAssignMap plannedConsumer)
       (hostPortAddr plannedConsumer) "app" 2
     = Some (WorkerVbMap plannedConsumer)) ∧
  getVbsOwned plannedConsumer = vbsToHandle plannedConsumer.
Proof.
  assert (Planner.vbEventingNodeAssign 6 ["10.0.0.1:8096"; "10.0.0.2:8096"]
            = Some (VbEventingNodeAssignMap plannedConsumer)) as H1
    by (vm_compute; reflexivity).
  assert (Planner.initWorkerVbMap (VbEventingNodeAssignMap plannedConsumer)
            (hostPortAddr plannedConsumer) "app" 2
          = Some (WorkerVbMap plannedConsumer)) as H2
    by (vm_compute; reflexivity).
  split; [by split|].
  exact (getVbsOwned_planned plannedConsumer 6 _ "app" 2 H1 H2).
Defined.

Lemma getConsumerForGivenVbucket_any_order_witness :
  [("worker_app_1", [2]); ("worker_app_0", [0; 1])]
    ≡ₚ map_to_list (WorkerVbMap plannedConsumer) ∧
  (checkIfConsumerShouldOwnVb plannedConsumer 2
     (getConsumerForGivenVbucket [("worker_app_1", [2]); ("worker_app_0", [0; 1])] 2)
   = true
   ↔ ∃ name, checkIfConsumerShouldOwnVb plannedConsumer 2 name = true).
Proof.
  assert ([("worker_app_1", [2]); ("worker_app_0", [0; 1])]
            ≡ₚ map_to_list (WorkerVbMap plannedConsumer)) as H.
  { unfold plannedConsumer. cbn [WorkerVbMap].
    rewrite map_to_list_insert by (vm_compute; reflexivity).
    rewrite map_to_list_singleton. apply perm_swap. }
  split; [exact H|].
  exact (proj1 (getConsumerForGivenVbucket_any_order plannedConsumer _ 2 H)).
Defined.

Lemma give_up_checkpoint_once_witness :
  Forall (λ w : Z * @giveUpReads unit, 0 ≤ w.1) [(7, sampleReads); (7, sampleReads)] ∧
  vbsStreamClosed ownedState
    ⊆ vbsStreamClosed
        (giveUpLoop running stopped sampleConsumer ownedState
           [(7, sampleReads); (7, sampleReads)] ownedState).2.
Proof.
  assert (Forall (λ w : Z * @giveUpReads unit, 0 ≤ w.1)
            [(7, sampleReads); (7, sampleReads)]) as H
    by (repeat constructor; simpl; lia).
  split; [exact H|].
  exact (proj1 (proj2 (give_up_checkpoint_once running stopped sampleConsumer ownedState
                         _ ownedState H))).
Defined.

Lemma stream_start_failure_retry_witness :
  (7 ∉ vbStreamRequested sampleState) ∧
  (updateVbOwnerAndStartDCPStream noDialExternals sampleConsumer "app::vb::7" 7
     sampleBlob sampleState).1 = Some errFailedConnectRemoteRPC.
Proof.
  assert (7 ∉ vbStreamRequested sampleState) as H by (simpl; apply not_elem_of_empty).
  split; [exact H|].
  exact (proj1 (proj1 (proj2 (stream_start_failure_retry noDialExternals sampleConsumer
                                "app::vb::7" 7 sampleBlob sampleState H))
                  eq_refl eq_refl)).
Defined.

Lemma doVbTakeover_decision_table_witness :
  (stopped ≠ running ∧ uninitialised ≠ running) ∧
  (doVbTakeoverSite running stopped uninitialised sampleConsumer 7 sampleBlob
     = SkipAlreadyOpened
   ↔ DCPStreamStatus sampleBlob = running
     ∧ NodeUUID sampleBlob = nodeUUID sampleConsumer
     ∧ AssignedWorker sampleBlob = consumerName sampleConsumer).
Proof.
  assert (stopped ≠ running) as H1 by discriminate.
  assert (uninitialised ≠ running) as H2 by discriminate.
  split; [by split|].
  exact (proj1 (doVbTakeover_decision_table running stopped uninitialised
                  sampleExternals sampleConsumer 7 sampleBlob sampleState H1 H2)).
Defined.

(** Two passes over partition 7 write its give-up checkpoint once. *)
Example give_up_twice :
  let r := giveUpLoop running stopped sampleConsumer ownedState
             [(7, sampleReads); (7, sampleReads)] ownedState in
  r.1 = GiveUpDone ∧ length (effects r.2) = 1%nat ∧ vbsStreamClosed r.2 = {[7]}.
Proof. vm_compute. split_and!; reflexivity. Qed.

End Takeover.

(** ** Host-to-worker frames (the consumer's protocol file) *)

Module Ipc.

(** *** Event and opcode tags ([iota] blocks of [int8]) *)

Definition dcpEvent : Z := 1.
Definition httpEvent : Z := 2.
Definition v8WorkerEvent : Z := 3.
Definition appWorkerSetting : Z := 4.
Definition timerEvent : Z := 5.
Definition debuggerEvent : Z := 6.

Definition startDebug : Z := 1.
Definition stopDebug : Z := 2.

Definition docTimer : Z := 1.
Definition nonDocTimer : Z := 2.

Definition v8WorkerDispose : Z := 1.
Definition v8WorkerInit : Z := 2.
Definition v8WorkerLoad : Z := 3.
Definition v8WorkerTerminate : Z := 4.
Definition v8WorkerSourceMap : Z := 5.
Definition v8WorkerHandlerCode : Z := 6.
Definition v8WorkerLatencyStats : Z := 7.
Definition v8WorkerFailureStats : Z := 8.
Definition v8WorkerExecutionStats : Z := 9.
Definition v8WorkerCompile : Z := 10.
Definition v8WorkerLcbExceptions : Z := 11.

Definition dcpDeletion : Z := 1.
Definition dcpMutation : Z := 2.

Definition logLevel : Z := 1.
Definition workerThreadCount : Z := 2.
Definition workerThreadPartitionMap : Z := 3.

(** *** Little-endian scalars *)

(** The [n] bytes of [z], least significant first. *)
Fixpoint le_bytes (n : nat) (z : Z) : list Z :=
  match n with
  | O => []
  | S n' => z `mod` 256 :: le_bytes n' (z `div` 256)
  end.

Fixpoint of_le_bytes (bs : list Z) : Z :=
  match bs with
  | [] => 0
  | b :: bs' => b + 256 * of_le_bytes bs'
  end.

(** *** The table builder *)

(** Modelled from the spec: the FlatBuffers builder and the generated
    [header] and [payload] packages (accessors and [...Add...] functions)
    are not among the sources at hand.  Following the specification, a
    frame is a table of typed fields with little-endian numeric fields;
    strings, vectors and tables are objects of the buffer that a field
    refers to by offset.  A scalar field equal to its default (zero) is
    left out of the table and read back as the default, and a vector is
    filled from its last element to its first, each [Prepend] placing its
    element in front of those already there.  The byte layout below this
    level (alignment, vtables, the length prefix) is not modelled. *)
Inductive field :=
| FScalar (bytes : list Z)
| FOffset (off : nat).

Inductive object :=
| OString (s : string)
| OVector (elems : list field)
| OTable (slots : gmap string field).

Record Builder := {
  objects : list object;        (* finished objects; offset k is objects[k-1] *)
  slots : gmap string field;    (* the table being built *)
  vector : list field;          (* the vector being built *)
  finished : nat                (* root offset set by Finish *)
}.

(** The result of [FinishedBytes]. *)
Record buffer := { bufObjects : list object; bufRoot : nat }.

Definition getBuilder : Builder :=
  {| objects := []; slots := ∅; vector := []; finished := 0 |}.

Definition pushObject (o : object) (b : Builder) : nat * Builder :=
  (S (length (objects b)),
   {| objects := objects b ++ [o]; slots := slots b;
      vector := vector b; finished := finished b |}).

Definition CreateString (s : string) (b : Builder) : nat * Builder :=
  pushObject (OString s) b.

Definition CreateByteString (s : string) (b : Builder) : nat * Builder :=
  pushObject (OString s) b.

Definition StartObject (b : Builder) : Builder :=
  {| objects := objects b; slots := ∅; vector := vector b; finished := finished b |}.

Definition setSlot (name : string) (f : field) (b : Builder) : Builder :=
  {| objects := objects b; slots := <[name := f]> (slots b);
     vector := vector b; finished := finished b |}.

(** [Prepend<T>Slot(slot, x, 0)] for a scalar of [n] bytes. *)
Definition PrependScalarSlot (n : nat) (name : string) (x : Z) (b : Builder) : Builder :=
  if decide (x = 0) then b else setSlot name (FScalar (le_bytes n x)) b.

(** [PrependUOffsetTSlot(slot, off, 0)] *)
Definition PrependUOffsetTSlot (name : string) (off : nat) (b : Builder) : Builder :=
  if decide (off = 0%nat) then b else setSlot name (FOffset off) b.

Definition EndObject (b : Builder) : nat * Builder :=
  pushObject (OTable (slots b)) b.

Definition StartVector (b : Builder) : Builder :=
  {| objects := objects b; slots := slots b; vector := []; finished := finished b |}.

Definition prependElem (f : field) (b : Builder) : Builder :=
  {| objects := objects b; slots := slots b;
     vector := f :: vector b; finished := finished b |}.

Definition PrependUint16 (x : Z) (b : Builder) : Builder :=
  prependElem (FScalar (le_bytes 2 x)) b.

Definition PrependUOffsetT (off : nat) (b : Builder) : Builder :=
  prependElem (FOffset off) b.

Definition EndVector (b : Builder) : nat * Builder :=
  pushObject (OVector (vector b)) b.

Definition Finish (root : nat) (b : Builder) : Builder :=
  {| objects := objects b; slots := slots b; vector := vector b; finished := root |}.

Definition FinishedBytes (b : Builder) : buffer :=
  {| bufObjects := objects b; bufRoot := finished b |}.

(** Reading: the object at an offset, a table's field. *)
Definition objectAt (buf : buffer) (off : nat) : option object :=
  match off with
  | O => None
  | S k => bufObjects buf !! k
  end.

Definition tableAt (buf : buffer) (off : nat) : gmap string field :=
  match objectAt buf off with
  | Some (OTable t) => t
  | _ => ∅
  end.

(** A signed scalar field of [n] bytes; the default is zero. *)
Definition getSigned (n : nat) (t : gmap string field) (name : string) : Z :=
  match t !! name with
  | Some (FScalar bs) => to_signed (8 * Z.of_nat n) (of_le_bytes bs)
  | _ => 0
  end.

Definition getUnsigned (n : nat) (t : gmap string field) (name : string) : Z :=
  match t !! name with
  | Some (FScalar bs) => of_le_bytes bs
  | _ => 0
  end.

(** A string or byte-string field; an absent field reads as empty. *)
Definition getString (buf : buffer) (t : gmap string field) (name : string) : string :=
  match t !! name with
  | Some (FOffset off) =>
      match objectAt buf off with
      | Some (OString s) => s
      | _ => ""
      end
  | _ => ""
  end.

Definition getVector (buf : buffer) (t : gmap string field) (name : string) : list field :=
  match t !! name with
  | Some (FOffset off) =>
      match objectAt buf off with
      | Some (OVector v) => v
      | _ => []
      end
  | _ => []
  end.

(** *** The frame builders of the source *)

(** [makeHeader]; [event] and [opcode] are [int8] values, [partition] an
    [int16] value. *)
Definition makeHeader (event opcode partition : Z) (meta : string) : buffer :=
  let builder := getBuilder in
  let '(metadata, builder) := CreateString meta builder in
  let builder := StartObject builder in                          (* HeaderStart *)
  let builder := PrependScalarSlot 1 "event" event builder in
  let builder := PrependScalarSlot 1 "opcode" opcode builder in
  let builder := PrependScalarSlot 2 "partition" partition builder in
  let builder := PrependUOffsetTSlot "metadata" metadata builder in
  let '(headerPos, builder) := EndObject builder in             (* HeaderEnd *)
  let builder := Finish headerPos builder in
  FinishedBytes builder.

Definition makeDcpHeader (opcode partition : Z) (meta : string) : buffer :=
  makeHeader dcpEvent opcode partition meta.
Definition makeDcpMutationHeader (partition : Z) (mutationMeta : string) : buffer :=
  makeDcpHeader dcpMutation partition mutationMeta.
Definition makeDcpDeletionHeader (partition : Z) (deletionMeta : string) : buffer :=
  makeDcpHeader dcpDeletion partition deletionMeta.
Definition makeDocTimerEventHeader (partition : Z) : buffer :=
  makeHeader timerEvent docTimer partition "".
Definition makeNonDocTimerEventHeader (partition : Z) : buffer :=
  makeHeader timerEvent nonDocTimer partition "".
Definition makeV8EventHeader (opcode : Z) (meta : string) : buffer :=
  makeHeader v8WorkerEvent opcode 0 meta.
Definition makeV8InitOpcodeHeader : buffer := makeV8EventHeader v8WorkerInit "".
Definition makeThrMapHeader : buffer :=
  makeHeader appWorkerSetting workerThreadPartitionMap 0 "".

(** [makeDcpPayload] *)
Definition makeDcpPayload (key value : string) : buffer :=
  let builder := getBuilder in
  let '(keyPos, builder) := CreateByteString key builder in
  let '(valPos, builder) := CreateByteString value builder in
  let builder := StartObject builder in
  let builder := PrependUOffsetTSlot "key" keyPos builder in
  let builder := PrependUOffsetTSlot "value" valPos builder in
  let '(payloadPos, builder) := EndObject builder in
  let builder := Finish payloadPos builder in
  FinishedBytes builder.

(** [makeDocTimerPayload] *)
Definition makeDocTimerPayload (docID callbackFn : string) : buffer :=
  let builder := getBuilder in
  let '(docIDPos, builder) := CreateString docID builder in
  let '(callbackFnPos, builder) := CreateString callbackFn builder in
  let builder := StartObject builder in
  let builder := PrependUOffsetTSlot "docId" docIDPos builder in
  let builder := PrependUOffsetTSlot "callbackFn" callbackFnPos builder in
  let '(payloadPos, builder) := EndObject builder in
  let builder := Finish payloadPos builder in
  FinishedBytes builder.

(** [makeNonDocTimerPayload] *)
Definition makeNonDocTimerPayload (data : string) : buffer :=
  let builder := getBuilder in
  let '(pPos, builder) := CreateString data builder in
  let builder := StartObject builder in
  let builder := PrependUOffsetTSlot "docIdsCallbackFns" pPos builder in
  let '(payloadPos, builder) := EndObject builder in
  let builder := Finish payloadPos builder in
  FinishedBytes builder.

(** [flatbuffers.WriteBool] into a one-byte slice, then its byte. *)
Definition boolByte (b : bool) : Z := if b then 1 else 0.

(** [makeV8InitPayload]; the [int] arguments are narrowed by [int32(..)],
    [curlTimeout] is an [int64] as it comes. *)
Definition makeV8InitPayload
    (appName currHost eventingDir eventingPort kvHostPort depCfg rbacUser rbacPass : string)
    (capacity executionTimeout fuzzOffset checkpointInterval : Z)
    (enableRecursiveMutation skipLcbBootstrap : bool) (curlTimeout : Z) : buffer :=
  let builder := getBuilder in
  let '(app, builder) := CreateString appName builder in
  let '(ch, builder) := CreateString currHost builder in
  let '(ed, builder) := CreateString eventingDir builder in
  let '(ep, builder) := CreateString eventingPort builder in
  let '(dcfg, builder) := CreateString depCfg builder in
  let '(khp, builder) := CreateString kvHostPort builder in
  let '(rUser, builder) := CreateString rbacUser builder in
  let '(rPass, builder) := CreateString rbacPass builder in
  let rec := boolByte enableRecursiveMutation in
  let lcb := boolByte skipLcbBootstrap in
  let builder := StartObject builder in
  let builder := PrependUOffsetTSlot "appName" app builder in
  let builder := PrependUOffsetTSlot "currHost" ch builder in
  let builder := PrependUOffsetTSlot "eventingDir" ed builder in
  let builder := PrependUOffsetTSlot "currEventingPort" ep builder in
  let builder := PrependUOffsetTSlot "depcfg" dcfg builder in
  let builder := PrependUOffsetTSlot "kvHostPort" khp builder in
  let builder := PrependUOffsetTSlot "rbacUser" rUser builder in
  let builder := PrependUOffsetTSlot "rbacPass" rPass builder in
  let builder := PrependScalarSlot 4 "lcbInstCapacity" (int32 capacity) builder in
  let builder := PrependScalarSlot 4 "executionTimeout" (int32 executionTimeout) builder in
  let builder := PrependScalarSlot 4 "fuzzOffset" (int32 fuzzOffset) builder in
  let builder := PrependScalarSlot 4 "checkpointInterval" (int32 checkpointInterval) builder in
  let builder := PrependScalarSlot 8 "curlTimeout" curlTimeout builder in
  let builder := PrependScalarSlot 1 "enableRecursiveMutation" rec builder in
  let builder := PrependScalarSlot 1 "skipLcbBootstrap" lcb builder in
  let '(msgPos, builder) := EndObject builder in
  let builder := Finish msgPos builder in
  FinishedBytes builder.

(** [for j := 0; j < len(parts); j++ { builder.PrependUint16(parts[j]) }] *)
Fixpoint prependPartitions (parts : list Z) (b : Builder) : Builder :=
  match parts with
  | [] => b
  | x :: parts' => prependPartitions parts' (PrependUint16 x b)
  end.

(** One round of the first loop of [makeThrMapPayload]: the vector of
    [thrMap[i]] (the nil slice for a missing key), then the table of the
    thread; the result is the table's offset. *)
Definition thrMapRound (thrMap : gmap Z (list Z)) (i : nat) (builder : Builder)
  : nat * Builder :=
  let parts := default [] (thrMap !! Z.of_nat i) in
  let builder := StartVector builder in        (* VbsThreadMapStartPartitionsVector *)
  let builder := prependPartitions parts builder in
  let '(partitions, builder) := EndVector builder in
  let builder := StartObject builder in                          (* VbsThreadMapStart *)
  let builder := PrependUOffsetTSlot "partitions" partitions builder in
  let builder := PrependScalarSlot 2 "threadID" (int16 (Z.of_nat i)) builder in
  EndObject builder.                                             (* VbsThreadMapEnd *)

(** [for i := 0; i < len(thrMap); i++ { ...; tMaps = append(tMaps, ...) }],
    from [i] on for [n] rounds. *)
Fixpoint thrMapTables (n i : nat) (thrMap : gmap Z (list Z))
    (builder : Builder) (tMaps : list nat) : Builder * list nat :=
  match n with
  | O => (builder, tMaps)
  | S n' =>
      let '(off, builder) := thrMapRound thrMap i builder in
      thrMapTables n' (S i) thrMap builder (tMaps ++ [off])
  end.

(** [for i := len(tMaps) - 1; i >= 0; i-- { builder.PrependUOffsetT(tMaps[i]) }] *)
Definition prependTables (tMaps : list nat) (b : Builder) : Builder :=
  foldr PrependUOffsetT b tMaps.

(** [makeThrMapPayload] *)
Definition makeThrMapPayload (thrMap : gmap Z (list Z)) (partitionCount : Z) : buffer :=
  let builder := getBuilder in
  let '(builder, tMaps) := thrMapTables (size thrMap) 0 thrMap builder [] in
  let builder := StartVector builder in
  let builder := prependTables tMaps builder in
  let '(resMap, builder) := EndVector builder in
  let builder := StartObject builder in
  let builder := PrependUOffsetTSlot "thrMap" resMap builder in
  let builder := PrependScalarSlot 2 "partitionCount" (int16 partitionCount) builder in
  let '(payloadPos, builder) := EndObject builder in
  let builder := Finish payloadPos builder in
  FinishedBytes builder.

(** *** Reading frames back *)

Record Header := {
  hEvent : Z; hOpcode : Z; hPartition : Z; hMetadata : string
}.

(** The accessors of the generated [header] package on the root table. *)
Definition decodeHeader (buf : buffer) : Header :=
  let headerPos := tableAt buf (bufRoot buf) in
  {| hEvent := getSigned 1 headerPos "event";
     hOpcode := getSigned 1 headerPos "opcode";
     hPartition := getSigned 2 headerPos "partition";
     hMetadata := getString buf headerPos "metadata" |}.

(** [readHeader]: reads event, opcode and metadata (logged) and returns
    the event. *)
Definition readHeader (buf : buffer) : Z :=
  let headerPos := tableAt buf (bufRoot buf) in
  let event := getSigned 1 headerPos "event" in
  let opcode := getSigned 1 headerPos "opcode" in
  let metadata := getString buf headerPos "metadata" in
  event.

(** [readPayload]: key and value of a dcp payload. *)
Definition readPayload (buf : buffer) : string * string :=
  let payloadPos := tableAt buf (bufRoot buf) in
  (getString buf payloadPos "key", getString buf payloadPos "value").

Record ThreadEntry := { threadID : Z; partitions : list Z }.

Definition decodePartition (f : field) : Z :=
  match f with
  | FScalar bs => of_le_bytes bs
  | FOffset _ => 0
  end.

Definition decodeThreadEntry (buf : buffer) (f : field) : ThreadEntry :=
  match f with
  | FOffset off =>
      let t := tableAt buf off in
      {| threadID := getSigned 2 t "threadID";
         partitions := decodePartition <$> getVector buf t "partitions" |}
  | FScalar _ => {| threadID := 0; partitions := [] |}
  end.

(** Every field of the payload table, as its accessors return them. *)
Record Payload := {
  pKey : string; pValue : string;
  pDocId : string; pCallbackFn : string; pDocIdsCallbackFns : string;
  pAppName : string; pCurrHost : string; pEventingDir : string;
  pCurrEventingPort : string; pDepcfg : string; pKvHostPort : string;
  pRbacUser : string; pRbacPass : string;
  pLcbInstCapacity : Z; pExecutionTimeout : Z; pFuzzOffset : Z;
  pCheckpointInterval : Z; pCurlTimeout : Z;
  pEnableRecursiveMutation : Z; pSkipLcbBootstrap : Z;
  pThrMap : list ThreadEntry; pPartitionCount : Z
}.

Definition decodePayload (buf : buffer) : Payload :=
  let t := tableAt buf (bufRoot buf) in
  {| pKey := getString buf t "key";
     pValue := getString buf t "value";
     pDocId := getString buf t "docId";
     pCallbackFn := getString buf t "callbackFn";
     pDocIdsCallbackFns := getString buf t "docIdsCallbackFns";
     pAppName := getString buf t "appName";
     pCurrHost := getString buf t "currHost";
     pEventingDir := getString buf t "eventingDir";
     pCurrEventingPort := getString buf t "currEventingPort";
     pDepcfg := getString buf t "depcfg";
     pKvHostPort := getString buf t "kvHostPort";
     pRbacUser := getString buf t "rbacUser";
     pRbacPass := getString buf t "rbacPass";
     pLcbInstCapacity := getSigned 4 t "lcbInstCapacity";
     pExecutionTimeout := getSigned 4 t "executionTimeout";
     pFuzzOffset := getSigned 4 t "fuzzOffset";
     pCheckpointInterval := getSigned 4 t "checkpointInterval";
     pCurlTimeout := getSigned 8 t "curlTimeout";
     pEnableRecursiveMutation := getUnsigned 1 t "enableRecursiveMutation";
     pSkipLcbBootstrap := getUnsigned 1 t "skipLcbBootstrap";
     pThrMap := decodeThreadEntry buf <$> getVector buf t "thrMap";
     pPartitionCount := getSigned 2 t "partitionCount" |}.

Example header_sample :
  decodeHeader (makeDcpMutationHeader 7 "meta")
  = {| hEvent := 1; hOpcode := 2; hPartition := 7; hMetadata := "meta" |}.
Proof. vm_compute. reflexivity. Qed.

Example thrmap_sample :
  let p := decodePayload (makeThrMapPayload {[0 := [1; 2; 3]; 1 := [4; 5]]} 1024) in
  (pThrMap p, pPartitionCount p)
  = ([ {| threadID := 0; partitions := [3; 2; 1] |};
       {| threadID := 1; partitions := [5; 4] |} ], 1024).
Proof. vm_compute. reflexivity. Qed.

Global Arguments to_signed : simpl never.
Global Arguments int32 : simpl never.
Global Arguments int16 : simpl never.

(** *** Scalars and their bytes *)

Lemma of_le_bytes_le_bytes n : ∀ z,
  of_le_bytes (le_bytes n z) = z `mod` 2 ^ (8 * Z.of_nat n).
Proof.
  induction n as [|n IH]; intros z; simpl le_bytes; simpl of_le_bytes.
  - change (8 * Z.of_nat 0) with 0. by rewrite Z.mod_1_r.
  - rewrite IH.
    replace (8 * Z.of_nat (S n)) with (8 + 8 * Z.of_nat n) by lia.
    rewrite Z.pow_add_r by lia. change (2 ^ 8) with 256.
    rewrite Z.rem_mul_r by lia. lia.
Qed.

Lemma to_signed_mod w z : 0 < w → to_signed w (z `mod` 2 ^ w) = to_signed w z.
Proof.
  intros Hw. unfold to_signed. f_equal.
  rewrite Zplus_mod_idemp_l. done.
Qed.

Lemma to_signed_id w z : 0 < w → in_signed w z → to_signed w z = z.
Proof.
  unfold to_signed, in_signed. intros Hw Hz.
  assert (2 ^ w = 2 * 2 ^ (w - 1)) as E.
  { rewrite <- Z.pow_succ_r by lia. f_equal. lia. }
  rewrite Z.mod_small by lia. lia.
Qed.

Lemma to_signed_range w z : 0 < w → in_signed w (to_signed w z).
Proof.
  unfold to_signed, in_signed. intros Hw.
  assert (2 ^ w = 2 * 2 ^ (w - 1)) as E.
  { rewrite <- Z.pow_succ_r by lia. f_equal. lia. }
  assert (0 < 2 ^ (w - 1)) by (apply Z.pow_pos_nonneg; lia).
  pose proof (Z.mod_pos_bound (z + 2 ^ (w - 1)) (2 ^ w)). lia.
Qed.

(** A narrowing conversion gives back its argument exactly when the
    argument is in range. *)
Lemma to_signed_fixed w z : 0 < w → to_signed w z = z ↔ in_signed w z.
Proof.
  intros Hw. split; [|by apply to_signed_id].
  intros <-. by apply to_signed_range.
Qed.

(** *** Fields of a table under construction *)

Lemma slots_scalar_ne n nm x b k :
  nm ≠ k → slots (PrependScalarSlot n nm x b) !! k = slots b !! k.
Proof.
  intros Hne. unfold PrependScalarSlot. case_decide; [done|]. simpl.
  by rewrite lookup_insert_ne.
Qed.

Lemma slots_offset_ne nm off b k :
  nm ≠ k → slots (PrependUOffsetTSlot nm off b) !! k = slots b !! k.
Proof.
  intros Hne. unfold PrependUOffsetTSlot. case_decide; [done|]. simpl.
  by rewrite lookup_insert_ne.
Qed.

Lemma slots_scalar_eq n nm x b :
  slots (PrependScalarSlot n nm x b) !! nm =
    if decide (x = 0) then slots b !! nm else Some (FScalar (le_bytes n x)).
Proof.
  unfold PrependScalarSlot. case_decide; [done|]. simpl. by rewrite lookup_insert_eq.
Qed.

Lemma slots_offset_eq nm off b :
  slots (PrependUOffsetTSlot nm (S off) b) !! nm = Some (FOffset (S off)).
Proof. unfold PrependUOffsetTSlot. simpl. by rewrite lookup_insert_eq. Qed.

Lemma slots_start b k : slots (StartObject b) !! k = None.
Proof. apply lookup_empty. Qed.

(** A signed field of [n] bytes written once reads back as the conversion
    of what was written. *)
Lemma signed_field_read n x (o : option field) :
  (0 < n)%nat → o = None →
  match (if decide (x = 0) then o else Some (FScalar (le_bytes n x))) with
  | Some (FScalar bs) => to_signed (8 * Z.of_nat n) (of_le_bytes bs)
  | _ => 0
  end = to_signed (8 * Z.of_nat n) x.
Proof.
  intros Hn ->. case_decide as Hx.
  - subst x. unfold to_signed.
    assert (2 ^ (8 * Z.of_nat n) = 2 * 2 ^ (8 * Z.of_nat n - 1)) as E.
    { rewrite <- Z.pow_succ_r by lia. f_equal. lia. }
    assert (0 < 2 ^ (8 * Z.of_nat n - 1)) by (apply Z.pow_pos_nonneg; lia).
    rewrite Z.mod_small by lia. lia.
  - rewrite of_le_bytes_le_bytes. apply to_signed_mod. lia.
Qed.

Lemma unsigned_field_read n x (o : option field) :
  o = None →
  match (if decide (x = 0) then o else Some (FScalar (le_bytes n x))) with
  | Some (FScalar bs) => of_le_bytes bs
  | _ => 0
  end = x `mod` 2 ^ (8 * Z.of_nat n).
Proof.
  intros ->. case_decide as Hx.
  - subst x. by rewrite Z.mod_0_l by (apply Z.pow_nonzero; lia).
  - apply of_le_bytes_le_bytes.
Qed.

Lemma objects_scalar n nm x b : objects (PrependScalarSlot n nm x b) = objects b.
Proof. unfold PrependScalarSlot. by case_decide. Qed.

Lemma objects_offset nm off b : objects (PrependUOffsetTSlot nm off b) = objects b.
Proof. unfold PrependUOffsetTSlot. by case_decide. Qed.

Lemma objects_start b : objects (StartObject b) = objects b.
Proof. done. Qed.

Global Opaque PrependScalarSlot PrependUOffsetTSlot StartObject.

(** Brings the object store of a finished frame to the surface. *)
Ltac open_frame :=
  unfold tableAt, objectAt; simpl;
  repeat first [ rewrite objects_scalar | rewrite objects_offset
               | rewrite objects_start ];
  simpl.

(** Looks a field up through the chain of [Prepend...Slot] calls. *)
Ltac through_slots :=
  repeat first
    [ rewrite slots_scalar_ne by discriminate
    | rewrite slots_offset_ne by discriminate
    | rewrite slots_offset_eq
    | rewrite slots_scalar_eq
    | rewrite slots_start ].

Ltac read_signed :=
  unfold getSigned; through_slots;
  rewrite signed_field_read by (lia || (through_slots; reflexivity)).

Ltac read_unsigned :=
  unfold getUnsigned; through_slots;
  rewrite unsigned_field_read by (through_slots; reflexivity).

Ltac read_string :=
  unfold getString; through_slots; open_frame; reflexivity.

(** *** Round trips *)

(** The header: all four fields come back. *)
Lemma header_roundtrip event opcode partition meta :
  in_signed 8 event → in_signed 8 opcode → in_signed 16 partition →
  decodeHeader (makeHeader event opcode partition meta)
  = {| hEvent := event; hOpcode := opcode;
       hPartition := partition; hMetadata := meta |}.
Proof.
  intros He Ho Hp. unfold decodeHeader, makeHeader. simpl.
  open_frame. f_equal.
  - read_signed. by apply to_signed_id.
  - read_signed. by apply to_signed_id.
  - read_signed. by apply to_signed_id.
  - read_string.
Qed.

Lemma int32_idem z : to_signed (8 * Z.of_nat 4) (int32 z) = int32 z.
Proof. apply to_signed_id; [lia|]. apply (to_signed_range 32). lia. Qed.

Lemma int16_idem z : to_signed (8 * Z.of_nat 2) (int16 z) = int16 z.
Proof. apply to_signed_id; [lia|]. apply (to_signed_range 16). lia. Qed.

Lemma boolByte_mod b : boolByte b `mod` 2 ^ (8 * Z.of_nat 1) = boolByte b.
Proof. by destruct b. Qed.

(** What a payload table with no field set reads as. *)
Definition emptyPayload : Payload :=
  {| pKey := ""; pValue := ""; pDocId := ""; pCallbackFn := "";
     pDocIdsCallbackFns := ""; pAppName := ""; pCurrHost := "";
     pEventingDir := ""; pCurrEventingPort := ""; pDepcfg := "";
     pKvHostPort := ""; pRbacUser := ""; pRbacPass := "";
     pLcbInstCapacity := 0; pExecutionTimeout := 0; pFuzzOffset := 0;
     pCheckpointInterval := 0; pCurlTimeout := 0;
     pEnableRecursiveMutation := 0; pSkipLcbBootstrap := 0;
     pThrMap := []; pPartitionCount := 0 |}.

(** Reads of fields that the frame at hand never sets. *)
Ltac read_unset :=
  unfold getSigned, getUnsigned, getString, getVector; through_slots; reflexivity.

Lemma dcp_payload_roundtrip key value :
  readPayload (makeDcpPayload key value) = (key, value) ∧
  decodePayload (makeDcpPayload key value)
  = {| pKey := key; pValue := value; pDocId := ""; pCallbackFn := "";
       pDocIdsCallbackFns := ""; pAppName := ""; pCurrHost := "";
       pEventingDir := ""; pCurrEventingPort := ""; pDepcfg := "";
       pKvHostPort := ""; pRbacUser := ""; pRbacPass := "";
       pLcbInstCapacity := 0; pExecutionTimeout := 0; pFuzzOffset := 0;
       pCheckpointInterval := 0; pCurlTimeout := 0;
       pEnableRecursiveMutation := 0; pSkipLcbBootstrap := 0;
       pThrMap := []; pPartitionCount := 0 |}.
Proof.
  unfold readPayload, decodePayload, makeDcpPayload. simpl. open_frame.
  split; f_equal; first [ read_unset | read_string ].
Qed.

Lemma doc_timer_payload_roundtrip docID callbackFn :
  decodePayload (makeDocTimerPayload docID callbackFn)
  = {| pKey := ""; pValue := ""; pDocId := docID; pCallbackFn := callbackFn;
       pDocIdsCallbackFns := ""; pAppName := ""; pCurrHost := "";
       pEventingDir := ""; pCurrEventingPort := ""; pDepcfg := "";
       pKvHostPort := ""; pRbacUser := ""; pRbacPass := "";
       pLcbInstCapacity := 0; pExecutionTimeout := 0; pFuzzOffset := 0;
       pCheckpointInterval := 0; pCurlTimeout := 0;
       pEnableRecursiveMutation := 0; pSkipLcbBootstrap := 0;
       pThrMap := []; pPartitionCount := 0 |}.
Proof.
  unfold decodePayload, makeDocTimerPayload. simpl. open_frame.
  f_equal; first [ read_unset | read_string ].
Qed.

Lemma non_doc_timer_payload_roundtrip data :
  decodePayload (makeNonDocTimerPayload data)
  = {| pKey := ""; pValue := ""; pDocId := ""; pCallbackFn := "";
       pDocIdsCallbackFns := data; pAppName := ""; pCurrHost := "";
       pEventingDir := ""; pCurrEventingPort := ""; pDepcfg := "";
       pKvHostPort := ""; pRbacUser := ""; pRbacPass := "";
       pLcbInstCapacity := 0; pExecutionTimeout := 0; pFuzzOffset := 0;
       pCheckpointInterval := 0; pCurlTimeout := 0;
       pEnableRecursiveMutation := 0; pSkipLcbBootstrap := 0;
       pThrMap := []; pPartitionCount := 0 |}.
Proof.
  unfold decodePayload, makeNonDocTimerPayload. simpl. open_frame.
  f_equal; first [ read_unset | read_string ].
Qed.

(** The init payload: strings, [curlTimeout] and the two flags come back;
    the four [int] arguments come back as their [int32] conversions. *)
Lemma v8_init_payload_decode
    appName currHost eventingDir eventingPort kvHostPort depCfg rbacUser rbacPass
    capacity executionTimeout fuzzOffset checkpointInterval
    enableRecursiveMutation skipLcbBootstrap curlTimeout :
  in_signed 64 curlTimeout →
  decodePayload
    (makeV8InitPayload appName currHost eventingDir eventingPort kvHostPort depCfg
       rbacUser rbacPass capacity executionTimeout fuzzOffset checkpointInterval
       enableRecursiveMutation skipLcbBootstrap curlTimeout)
  = {| pKey := ""; pValue := ""; pDocId := ""; pCallbackFn := "";
       pDocIdsCallbackFns := "";
       pAppName := appName; pCurrHost := currHost; pEventingDir := eventingDir;
       pCurrEventingPort := eventingPort; pDepcfg := depCfg;
       pKvHostPort := kvHostPort; pRbacUser := rbacUser; pRbacPass := rbacPass;
       pLcbInstCapacity := int32 capacity;
       pExecutionTimeout := int32 executionTimeout;
       pFuzzOffset := int32 fuzzOffset;
       pCheckpointInterval := int32 checkpointInterval;
       pCurlTimeout := curlTimeout;
       pEnableRecursiveMutation := boolByte enableRecursiveMutation;
       pSkipLcbBootstrap := boolByte skipLcbBootstrap;
       pThrMap := []; pPartitionCount := 0 |}.
Proof.
  intros Hc. unfold decodePayload, makeV8InitPayload. simpl. open_frame.
  f_equal;
    first [ read_unset
          | read_string
          | read_signed; first [ apply int32_idem | by apply to_signed_id ]
          | read_unsigned; apply boolByte_mod ].
Qed.

(** *** The thread map *)

Lemma prependPartitions_spec parts : ∀ b,
  objects (prependPartitions parts b) = objects b ∧
  vector (prependPartitions parts b)
    = reverse ((λ x, FScalar (le_bytes 2 x)) <$> parts) ++ vector b.
Proof.
  induction parts as [|x parts IH]; intros b; simpl; [done|].
  destruct (IH (PrependUint16 x b)) as [-> ->]. simpl.
  by rewrite reverse_cons, <- app_assoc.
Qed.

Lemma prependTables_vector tMaps b :
  vector (prependTables tMaps b) = (FOffset <$> tMaps) ++ vector b ∧
  objects (prependTables tMaps b) = objects b.
Proof.
  induction tMaps as [|t tMaps [IH1 IH2]]; simpl; [done|].
  by rewrite IH1, IH2.
Qed.

(** The partitions of thread [j] as the source reads them off the map. *)
Definition threadParts (thrMap : gmap Z (list Z)) (j : nat) : list Z :=
  default [] (thrMap !! Z.of_nat j).

(** What the buffer holds for thread [j] when the objects of the loop
    start at index [base] and the loop at thread [i]: the vector of the
    partitions, last one first, and then the table that refers to it. *)
Definition entryStored (objs : list object) (base i : nat)
    (thrMap : gmap Z (list Z)) (j : nat) : Prop :=
  objs !! (base + 2 * (j - i))%nat
    = Some (OVector (reverse ((λ x, FScalar (le_bytes 2 x)) <$> threadParts thrMap j))) ∧
  ∃ t, objs !! (base + 2 * (j - i) + 1)%nat = Some (OTable t)
       ∧ t !! "partitions" = Some (FOffset (base + 2 * (j - i) + 1)%nat)
       ∧ getSigned 2 t "threadID" = int16 (Z.of_nat j).

Lemma thrMapRound_spec thrMap i b :
  (thrMapRound thrMap i b).1 = (length (objects b) + 2)%nat ∧
  ∃ t,
    objects (thrMapRound thrMap i b).2
      = objects b ++
        [OVector (reverse ((λ x, FScalar (le_bytes 2 x)) <$> threadParts thrMap i));
         OTable t]
    ∧ t !! "partitions" = Some (FOffset (length (objects b) + 1)%nat)
    ∧ getSigned 2 t "threadID" = int16 (Z.of_nat i).
Proof.
  unfold thrMapRound. fold (threadParts thrMap i).
  destruct (prependPartitions_spec (threadParts thrMap i) (StartVector b))
    as [Eobj Evec].
  unfold EndVector, EndObject, pushObject. cbn [fst snd objects].
  rewrite objects_scalar, objects_offset, objects_start. cbn [objects].
  rewrite Eobj, Evec. cbn [objects vector StartVector].
  rewrite app_nil_r, length_app. simpl length.
  split; [lia|]. eexists. split; [rewrite <- app_assoc; reflexivity|].
  replace (length (objects b) + 1)%nat with (S (length (objects b))) by lia.
  split.
  - through_slots. done.
  - read_signed. apply int16_idem.
Qed.

Lemma thrMapTables_spec thrMap n : ∀ i b tMaps,
  ∃ b',
    thrMapTables n i thrMap b tMaps
      = (b', tMaps ++ ((λ j, length (objects b) + 2 * (j - i) + 2)%nat <$> seq i n))
    ∧ (∃ ext, objects b' = objects b ++ ext)
    ∧ ∀ j, (i ≤ j < i + n)%nat →
        entryStored (objects b') (length (objects b)) i thrMap j.
Proof.
  induction n as [|n IH]; intros i b tMaps.
  - exists b. simpl. rewrite app_nil_r. split; [done|].
    split; [by exists []; rewrite app_nil_r|]. intros; lia.
  - cbn [thrMapTables].
    destruct (thrMapRound_spec thrMap i b) as (Eoff & t & Eobj & Hp & Hid).
    destruct (thrMapRound thrMap i b) as [off b1]. simpl in Eoff, Eobj. subst off.
    assert (Hlen1 : length (objects b1) = (length (objects b) + 2)%nat).
    { rewrite Eobj, length_app. simpl. lia. }
    destruct (IH (S i) b1 (tMaps ++ [(length (objects b) + 2)%nat]))
      as (b' & E & [ext Hext] & Hent).
    exists b'. split.
    { rewrite E. f_equal. rewrite <- app_assoc. f_equal. simpl. f_equal; [lia|].
      apply list_fmap_ext. intros k j Hj. apply lookup_seq in Hj as [-> _].
      rewrite Hlen1. lia. }
    split.
    { eexists. rewrite Hext, Eobj, <- app_assoc. done. }
    intros j Hj. destruct (decide (j = i)) as [->|Hne].
    + unfold entryStored. rewrite Hext, Eobj.
      replace (i - i)%nat with 0%nat by lia. rewrite Nat.mul_0_r, Nat.add_0_r.
      split.
      * rewrite <- app_assoc, lookup_app_r by lia.
        by rewrite Nat.sub_diag.
      * exists t. split; [|done].
        rewrite <- app_assoc. rewrite lookup_app_r by lia.
        by replace (length (objects b) + 1 - length (objects b))%nat with 1%nat by lia.
    + destruct (Hent j) as (Hv & t' & Ht & Hp' & Hid'); [lia|].
      unfold entryStored. rewrite Hlen1 in Hv, Ht, Hp'.
      replace (length (objects b) + 2 + 2 * (j - S i))%nat
        with (length (objects b) + 2 * (j - i))%nat in Hv, Ht, Hp' by lia.
      split; [done|]. by exists t'.
Qed.

Lemma decodePartition_stored x : decodePartition (FScalar (le_bytes 2 x)) = uint16 x.
Proof. unfold decodePartition. by rewrite of_le_bytes_le_bytes. Qed.

Lemma tableAt_last objs t r :
  tableAt {| bufObjects := objs ++ [OTable t]; bufRoot := r |} (S (length objs)) = t.
Proof. unfold tableAt, objectAt. simpl. by rewrite list_lookup_middle. Qed.

(** The thread map payload: [partitionCount] comes back as its [int16]
    conversion; entry [i] carries the thread id [int16(i)] and the
    partitions of [thrMap[i]], last one first. *)
Lemma thr_map_payload_decode thrMap partitionCount :
  let p := decodePayload (makeThrMapPayload thrMap partitionCount) in
  pPartitionCount p = int16 partitionCount ∧
  pThrMap p =
    (λ i, {| threadID := int16 (Z.of_nat i);
             partitions := reverse (uint16 <$> threadParts thrMap i) |})
      <$> seq 0 (size thrMap).
Proof.
  cbv zeta. unfold makeThrMapPayload.
  destruct (thrMapTables_spec thrMap (size thrMap) 0 getBuilder [])
    as (b' & E & [ext Hext] & Hent).
  rewrite E. clear E. cbn [app]. cbn [getBuilder objects app] in Hext. subst ext.
  set (offs := _ <$> seq 0 (size thrMap)).
  destruct (prependTables_vector offs (StartVector b')) as [Evec Eobj].
  unfold decodePayload, EndVector, EndObject, pushObject, FinishedBytes, Finish.
  cbn [fst snd objects finished bufRoot bufObjects].
  rewrite objects_scalar, objects_offset, objects_start. cbn [objects].
  rewrite Eobj, Evec. cbn [objects vector StartVector]. rewrite app_nil_r.
  set (objs := objects b' ++ [OVector (FOffset <$> offs)]).
  rewrite tableAt_last.
  split.
  - cbn [pPartitionCount]. read_signed. apply int16_idem.
  - cbn [pThrMap]. unfold getVector. through_slots.
    unfold objectAt. cbn [bufObjects].
    set (buf := {| bufObjects := _ |}).
    assert (Hobjs : ∀ k o, objects b' !! k = Some o → bufObjects buf !! k = Some o).
    { intros k o Hk. unfold buf, objs. cbn [bufObjects].
      by do 2 apply lookup_app_l_Some. }
    rewrite lookup_app_l by (unfold objs; rewrite length_app; simpl; lia).
    unfold objs at 1. rewrite list_lookup_middle by done.
    unfold offs. rewrite <- !list_fmap_compose.
    apply list_fmap_ext. intros k j Hj. apply lookup_seq in Hj as [Ej Hj].
    simpl in Ej. subst k.
    destruct (Hent j) as (Hv & t & Ht & Hp & Hid); [lia|].
    cbn [getBuilder objects length] in Hv, Ht, Hp |- *.
    replace (0 + 2 * (j - 0) + 1)%nat with (S (j + j)) in * by lia.
    replace (0 + 2 * (j - 0))%nat with (j + j)%nat in * by lia.
    cbn [compose decodeThreadEntry].
    unfold tableAt, objectAt.
    replace (0 + 2 * (j - 0) + 2)%nat with (S (S (j + j))) by lia.
    rewrite (Hobjs _ _ Ht).
    f_equal; [done|].
    unfold getVector. rewrite Hp. unfold objectAt.
    rewrite (Hobjs _ _ Hv).
    rewrite fmap_reverse, <- list_fmap_compose. f_equal.
    apply list_fmap_ext. intros ? x _. apply decodePartition_stored.
Qed.

(** C6, as the code has it.  Decoding what the builders encode gives back:
    every field of a header (event, opcode, partition, metadata); key and
    value of a dcp payload; both strings of a doc timer payload; the string
    of a non-doc timer payload; of an init payload the eight strings, the
    [int64] [curlTimeout] and the two flags (as the bytes 1 and 0), while
    the four [int] arguments come back as their [int32] conversions, hence
    unchanged exactly when they fit in 32 bits; of a thread map payload the
    [int16] conversion of [partitionCount] and one entry for each index [i]
    below the number of threads, with the thread id [int16(i)], hence [i]
    itself below 32768, and the partitions of [thrMap[i]] in reverse order
    (none when [i] is no key of the map). *)
Theorem ipc_frames_decode :
  (∀ event opcode partition meta,
     in_signed 8 event → in_signed 8 opcode → in_signed 16 partition →
     decodeHeader (makeHeader event opcode partition meta)
     = {| hEvent := event; hOpcode := opcode;
          hPartition := partition; hMetadata := meta |}
     ∧ readHeader (makeHeader event opcode partition meta) = event) ∧
  (∀ key value,
     readPayload (makeDcpPayload key value) = (key, value) ∧
     pKey (decodePayload (makeDcpPayload key value)) = key ∧
     pValue (decodePayload (makeDcpPayload key value)) = value) ∧
  (∀ docID callbackFn,
     pDocId (decodePayload (makeDocTimerPayload docID callbackFn)) = docID ∧
     pCallbackFn (decodePayload (makeDocTimerPayload docID callbackFn)) = callbackFn) ∧
  (∀ data,
     pDocIdsCallbackFns (decodePayload (makeNonDocTimerPayload data)) = data) ∧
  (∀ appName currHost eventingDir eventingPort kvHostPort depCfg rbacUser rbacPass
     capacity executionTimeout fuzzOffset checkpointInterval
     enableRecursiveMutation skipLcbBootstrap curlTimeout,
     in_signed 64 curlTimeout →
     let p := decodePayload
       (makeV8InitPayload appName currHost eventingDir eventingPort kvHostPort depCfg
          rbacUser rbacPass capacity executionTimeout fuzzOffset checkpointInterval
          enableRecursiveMutation skipLcbBootstrap curlTimeout) in
     pAppName p = appName ∧ pCurrHost p = currHost ∧
     pEventingDir p = eventingDir ∧ pCurrEventingPort p = eventingPort ∧
     pDepcfg p = depCfg ∧ pKvHostPort p = kvHostPort ∧
     pRbacUser p = rbacUser ∧ pRbacPass p = rbacPass ∧
     pCurlTimeout p = curlTimeout ∧
     pEnableRecursiveMutation p = boolByte enableRecursiveMutation ∧
     pSkipLcbBootstrap p = boolByte skipLcbBootstrap ∧
     pLcbInstCapacity p = int32 capacity ∧
     pExecutionTimeout p = int32 executionTimeout ∧
     pFuzzOffset p = int32 fuzzOffset ∧
     pCheckpointInterval p = int32 checkpointInterval ∧
     (pLcbInstCapacity p = capacity ↔ in_signed 32 capacity) ∧
     (pExecutionTimeout p = executionTimeout ↔ in_signed 32 executionTimeout) ∧
     (pFuzzOffset p = fuzzOffset ↔ in_signed 32 fuzzOffset) ∧
     (pCheckpointInterval p = checkpointInterval ↔ in_signed 32 checkpointInterval)) ∧
  (∀ thrMap partitionCount,
     let p := decodePayload (makeThrMapPayload thrMap partitionCount) in
     pPartitionCount p = int16 partitionCount ∧
     (pPartitionCount p = partitionCount ↔ in_signed 16 partitionCount) ∧
     length (pThrMap p) = size thrMap ∧
     ∀ i e, pThrMap p !! i = Some e →
       threadID e = int16 (Z.of_nat i) ∧
       (Z.of_nat i < 32768 → threadID e = Z.of_nat i) ∧
       partitions e = reverse (uint16 <$> threadParts thrMap i) ∧
       (Forall (λ z, 0 ≤ z < 65536) (threadParts thrMap i) →
        partitions e = reverse (threadParts thrMap i)) ∧
       (thrMap !! Z.of_nat i = None → partitions e = [])).
Proof.
  split_and!.
  - intros event opcode partition meta He Ho Hp.
    pose proof (header_roundtrip event opcode partition meta He Ho Hp) as H.
    split; [done|]. by apply (f_equal hEvent) in H.
  - intros key value. destruct (dcp_payload_roundtrip key value) as [H1 H2].
    rewrite H2. done.
  - intros docID callbackFn. by rewrite doc_timer_payload_roundtrip.
  - intros data. by rewrite non_doc_timer_payload_roundtrip.
  - intros. subst p. rewrite v8_init_payload_decode by done. cbn.
    split_and!; try done; apply (to_signed_fixed 32); lia.
  - intros thrMap partitionCount p.
    destruct (thr_map_payload_decode thrMap partitionCount) as [Hpc Hthr].
    fold p in Hpc, Hthr. rewrite Hpc, Hthr.
    split; [done|]. split; [apply (to_signed_fixed 16); lia|].
    split; [by rewrite length_fmap, length_seq|].
    intros i e He. rewrite list_lookup_fmap in He.
    destruct (seq 0 (size thrMap) !! i) as [j|] eqn:Hj; [|done].
    apply lookup_seq in Hj as [Ej _]. simpl in Ej, He. subst j.
    injection He as <-. cbn [threadID partitions].
    split; [done|]. split; [intros Hi; apply (to_signed_id 16); [lia|]|].
    { unfold in_signed. simpl. lia. }
    split; [done|]. split; [intros Hr; by rewrite fmap_uint16_id|].
    intros Hnone. unfold threadParts. by rewrite Hnone.
Qed.

Lemma ipc_frames_decode_witness :
  (in_signed 8 dcpEvent ∧ in_signed 8 dcpMutation ∧ in_signed 16 7) ∧
  decodeHeader (makeHeader dcpEvent dcpMutation 7 "meta")
  = {| hEvent := dcpEvent; hOpcode := dcpMutation;
       hPartition := 7; hMetadata := "meta" |}.
Proof.
  assert (in_signed 8 dcpEvent ∧ in_signed 8 dcpMutation ∧ in_signed 16 7)
    as H by (unfold in_signed, dcpEvent, dcpMutation; simpl; lia).
  split; [exact H|].
  destruct H as (He & Ho & Hp).
  exact (proj1 (proj1 ipc_frames_decode dcpEvent dcpMutation 7 "meta" He Ho Hp)).
Defined.

(** A thread map of [n] threads without partitions. *)
Definition emptyThreads (n : nat) : gmap Z (list Z) :=
  list_to_map ((λ i : nat, (Z.of_nat i, [])) <$> seq 0 n).

Lemma size_emptyThreads n : size (emptyThreads n) = n.
Proof.
  transitivity (length ((λ i : nat, (Z.of_nat i, @nil Z)) <$> seq 0 n));
    [|by rewrite length_fmap, length_seq].
  unfold emptyThreads. rewrite <- (length_map_to_list (M := gmap Z)).
  apply Permutation_length, map_to_list_to_map.
  rewrite <- list_fmap_compose. apply NoDup_fmap_2_strong; [|apply NoDup_seq].
  intros i j _ _ H. simpl in H. lia.
Qed.

(** Frames that do not decode to what was encoded: an init payload built
    with a capacity beyond 32 bits (any such value of the
    [lcb_inst_capacity] setting); a thread map payload with a partition
    count beyond 15 bits; one whose thread holds more than one partition,
    which come back last one first; one whose only key is not 0, whose
    list does not come back at all; and one of 32769 threads, the last of
    which is announced under the id -32768. *)
Lemma ipc_frames_not_restored :
  (let p := decodePayload
     (makeV8InitPayload "app1" "10.0.0.1" "/data/eventing" "8096" "10.0.0.1:11210"
        "depcfg" "user" "pass" 2147483648 1 30 10000 true false 500) in
   pLcbInstCapacity p = -2147483648 ∧ pLcbInstCapacity p ≠ 2147483648) ∧
  (let p := decodePayload (makeThrMapPayload {[0 := [0; 1]]} 32768) in
   pPartitionCount p = -32768 ∧ pPartitionCount p ≠ 32768) ∧
  (let p := decodePayload (makeThrMapPayload {[0 := [1; 2; 3]]} 1024) in
   partitions <$> pThrMap p = [[3; 2; 1]] ∧ partitions <$> pThrMap p ≠ [[1; 2; 3]]) ∧
  (let p := decodePayload (makeThrMapPayload {[1 := [7; 8]]} 1024) in
   pThrMap p = [ {| threadID := 0; partitions := [] |} ]) ∧
  (let p := decodePayload (makeThrMapPayload (emptyThreads (Z.to_nat 32769)) 1024) in
   threadID <$> pThrMap p !! Z.to_nat 32768 = Some (-32768)).
Proof.
  split; [vm_compute; split; [reflexivity|discriminate]|].
  split; [vm_compute; split; [reflexivity|discriminate]|].
  split; [vm_compute; split; [reflexivity|discriminate]|].
  split; [vm_compute; reflexivity|].
  cbv zeta.
  destruct (thr_map_payload_decode (emptyThreads (Z.to_nat 32769)) 1024) as [_ H].
  cbv zeta in H. rewrite H, size_emptyThreads.
  rewrite list_lookup_fmap, lookup_seq_lt by lia.
  cbn [fmap option_fmap option_map threadID]. rewrite Nat.add_0_l, Z2Nat.id by lia.
  reflexivity.
Qed.

(** Scenario 6 of the specification. *)
Example ipc_init_scenario :
  let p := decodePayload
    (makeV8InitPayload "app1" "" "" "" "" "" "" "" 5 1 0 0 true false 500) in
  (pAppName p, pLcbInstCapacity p, pExecutionTimeout p, pCurlTimeout p,
   pEnableRecursiveMutation p, pSkipLcbBootstrap p)
  = ("app1", 5, 1, 500, 1, 0).
Proof. vm_compute. reflexivity. Qed.

(** *** Thread maps with gaps *)

(** X15.  [makeThrMapPayload] walks the indices [0 .. len(thrMap) - 1]
    rather than the keys of the map.  So the list stored under a key of
    that range comes back under the key's index, last partition first; an
    index that is no key of the map comes back with no partitions; and a
    partition reaches the worker only through a key of that range, lists
    under other keys being dropped. *)
Theorem thr_map_payload_by_index (thrMap : gmap Z (list Z)) (partitionCount : Z) :
  let p := decodePayload (makeThrMapPayload thrMap partitionCount) in
  (∀ k parts, thrMap !! k = Some parts → 0 ≤ k < Z.of_nat (size thrMap) →
     ∃ e, pThrMap p !! Z.to_nat k = Some e
          ∧ partitions e = reverse (uint16 <$> parts)) ∧
  (∀ i e, pThrMap p !! i = Some e → thrMap !! Z.of_nat i = None →
     partitions e = []) ∧
  (∀ x, (∃ e, e ∈ pThrMap p ∧ x ∈ partitions e) ↔
        ∃ k parts, 0 ≤ k < Z.of_nat (size thrMap)
                   ∧ thrMap !! k = Some parts ∧ x ∈ uint16 <$> parts).
Proof.
  intros p. destruct (thr_map_payload_decode thrMap partitionCount) as [_ Hthr].
  fold p in Hthr.
  assert (Hat : ∀ i, (i < size thrMap)%nat →
            pThrMap p !! i
            = Some {| threadID := int16 (Z.of_nat i);
                      partitions := reverse (uint16 <$> threadParts thrMap i) |}).
  { intros i Hi. rewrite Hthr, list_lookup_fmap, lookup_seq_lt by done. done. }
  assert (Hlen : length (pThrMap p) = size thrMap)
    by (by rewrite Hthr, length_fmap, length_seq).
  split_and!.
  - intros k parts Hk Hrange. eexists. split; [apply Hat; lia|].
    cbn [partitions]. unfold threadParts. rewrite Z2Nat.id by lia. by rewrite Hk.
  - intros i e He Hnone. pose proof (lookup_lt_Some _ _ _ He) as Hi.
    rewrite Hat in He by lia. injection He as <-. cbn [partitions].
    unfold threadParts. by rewrite Hnone.
  - intros x. split.
    + intros (e & [i He]%list_elem_of_lookup & Hx).
      pose proof (lookup_lt_Some _ _ _ He) as Hi.
      rewrite Hat in He by lia. injection He as <-. cbn [partitions] in Hx.
      rewrite elem_of_reverse in Hx. unfold threadParts in Hx.
      destruct (thrMap !! Z.of_nat i) as [parts|] eqn:Hk.
      * simpl in Hx. exists (Z.of_nat i), parts. split; [lia|done].
      * by apply elem_of_nil in Hx.
    + intros (k & parts & Hrange & Hk & Hx). eexists. split.
      * eapply list_elem_of_lookup_2. apply (Hat (Z.to_nat k)). lia.
      * cbn [partitions]. rewrite elem_of_reverse. unfold threadParts.
        rewrite Z2Nat.id by lia. by rewrite Hk.
Qed.

(** A map with the keys 0 and 2: the list of key 2 is dropped, and thread
    1 is announced without partitions. *)
Example thr_map_gap :
  pThrMap (decodePayload (makeThrMapPayload {[0 := [1; 2]; 2 := [3; 4]]} 1024))
  = [ {| threadID := 0; partitions := [2; 1] |};
      {| threadID := 1; partitions := [] |} ].
Proof. vm_compute. reflexivity. Qed.

End Ipc.

(** ** Configuration ingestion (the producer's [parseDepcfg]) *)

Module Depcfg.

(** *** The application descriptor, table by table as the schema has it *)

Record Bucket := {
  bucketName : string; alias : string; scopeName : string; collectionName : string
}.

Record Curl := {
  hostname : string; value : string; authType : string; username : string;
  password : string; bearerKey : string; allowCookies : bool;
  validateSSLCertificate : bool
}.

Record Constant := { constValue : string; literal : string }.

Record DepCfg := {
  buckets : list Bucket;
  metadataBucket : string;
  sourceBucket : string;
  sourceScope : string;
  sourceCollection : string;
  metadataScope : string;
  metadataCollection : string
}.

(** A table field that is absent reads as [nil], hence the [option]. *)
Record Config := {
  appCode : string;
  appName : string;
  depCfg : option DepCfg;
  handlerUUID : Z;
  reserved1 : Z;        (* was id *)
  reserved2 : bool;     (* was usingTimer *)
  functionInstanceID : string;
  reserved3 : bool;     (* was srcMutationEnabled *)
  access : list string;
  curl : list Curl;
  enforceSchema : bool;
  constants : list Constant;
  lifecycleState : string;
  version : string
}.

(** The descriptor [c] with other values in its reserved fields. *)
Definition withReserved (r1 : Z) (r2 r3 : bool) (c : Config) : Config :=
  {| appCode := appCode c; appName := appName c; depCfg := depCfg c;
     handlerUUID := handlerUUID c;
     reserved1 := r1; reserved2 := r2;
     functionInstanceID := functionInstanceID c;
     reserved3 := r3;
     access := access c; curl := curl c; enforceSchema := enforceSchema c;
     constants := constants c; lifecycleState := lifecycleState c;
     version := version c |}.

(** The answer of a call that may fail. *)
Inductive fetched (A : Type) :=
| Fetched (a : A)
| FetchError (err : string).
Arguments Fetched {A} a.
Arguments FetchError {A} err.

Section parse.

(** The number type of decoded JSON, with its conversion to the 64-bit
    integer types ([int(f)], [int64(f)], [time.Duration(f)]). *)
Context {float64 : Type} (truncate : float64 → Z).

(** What [json.Unmarshal] puts into a [map[string]interface{}]. *)
#[local] Unset Elimination Schemes.
Inductive jsonValue :=
| JNull
| JBool (b : bool)
| JNumber (f : float64)
| JString (s : string)
| JArray (l : list jsonValue)
| JObject (l : list (string * jsonValue)).
#[local] Set Elimination Schemes.

Record AppConfig := {
  AppCode : string;
  AppName : string;
  AppState : string;
  AppVersion : string;
  LastDeploy : string;
  ID : Z;
  Settings : gmap string jsonValue
}.

(** A value assigned to a field of the producer. *)
Inductive fieldValue :=
| VBool (b : bool)
| VInt (z : Z)
| VString (s : string)
| VStrings (l : list string).

#[local] Instance fieldValue_eq_dec : EqDecision fieldValue.
Proof. solve_decision. Defined.

(** The producer: the fields [parseDepcfg] reads, the application record
    it allocates, and the fields it assigns, kept by name. *)
Record Producer := {
  pAppName : string;
  eventingDir : string;
  nsServerPort : string;
  app : option AppConfig;
  assigned : gmap string fieldValue
}.

(** The answers of the callees outside the file. *)
Record Env := {
  cfgData : string;                        (* the descriptor's bytes from metakv *)
  config : Config;                         (* cfg.GetRootAsConfig(cfgData, 0) *)
  (* config.Id(): an accessor of the generated cfg package, which is not
     among the sources; the schema at hand declares no field of that name *)
  Id : Config → Z;
  appUndeployed : string;                  (* fmt.Sprintf("%v", appUndeployed) *)
  errorUnexpectedWorkerCount : string;
  getHash : string → string;               (* util.GetHash *)
  now : string;                            (* time.Now().UTC().Format(..) *)
  httpAuth : string * string;              (* getHTTPServiceAuth *)
  metakvSettings : fetched string;         (* util.MetakvGet(settingsPath) *)
  jsonUnmarshal : string → fetched (gmap string jsonValue);
  localEventingServiceHost : fetched string;
  (* util.KVNodesAddresses: the list, assigned even on error, and the error *)
  kvNodesAddresses : list string * option string
}.

(** *** Errors, panics and the producer's state *)

Inductive result (A : Type) :=
| Ok (a : A) (p : Producer)
| Err (err : string) (p : Producer)      (* return of a non-nil error *)
| Panic (p : Producer).                  (* run-time panic *)
Arguments Ok {A} a p.
Arguments Err {A} err p.
Arguments Panic {A} p.

Definition M (A : Type) : Type := Producer → result A.

#[local] Instance M_ret : MRet M := λ A a p, Ok a p.
#[local] Instance M_bind : MBind M := λ A B f m p,
  match m p with
  | Ok a p' => f a p'
  | Err e p' => Err e p'
  | Panic p' => Panic p'
  end.

Definition fail {A} (err : string) : M A := λ p, Err err p.
Definition panic {A} : M A := λ p, Panic p.

Definition assign (name : string) (v : fieldValue) : M unit := λ p,
  Ok () {| pAppName := pAppName p; eventingDir := eventingDir p;
           nsServerPort := nsServerPort p; app := app p;
           assigned := <[name := v]> (assigned p) |}.

Definition setApp (a : AppConfig) : M unit := λ p,
  Ok () {| pAppName := pAppName p; eventingDir := eventingDir p;
           nsServerPort := nsServerPort p; app := Some a;
           assigned := assigned p |}.

(** [p.app.Settings = settings]; [p.app] is never nil when this runs. *)
Definition setAppSettings (settings : gmap string jsonValue) : M unit := λ p,
  match app p with
  | Some a =>
      Ok () {| pAppName := pAppName p; eventingDir := eventingDir p;
               nsServerPort := nsServerPort p;
               app := Some {| AppCode := AppCode a; AppName := AppName a;
                              AppState := AppState a; AppVersion := AppVersion a;
                              LastDeploy := LastDeploy a; ID := ID a;
                              Settings := settings |};
               assigned := assigned p |}
  | None => Panic p
  end.

Definition getProducer : M Producer := λ p, Ok p p.

(** The type assertions [val.(bool)], [val.(string)], [val.(float64)]: a
    value of another type, [nil] included, panics. *)
Definition assertBool (v : jsonValue) : M bool :=
  match v with JBool b => mret b | _ => panic end.
Definition assertString (v : jsonValue) : M string :=
  match v with JString s => mret s | _ => panic end.
Definition assertFloat64 (v : jsonValue) : M float64 :=
  match v with JNumber f => mret f | _ => panic end.

(** [int(val.(float64))] and its like. *)
Definition assertInt (v : jsonValue) : M Z :=
  f ← assertFloat64 v; mret (truncate f).

(** [if val, ok := settings[key]; ok { x = conv(val) } else { x = dflt }] *)
Definition settingOr {A} (settings : gmap string jsonValue) (key : string)
    (dflt : A) (conv : jsonValue → M A) : M A :=
  match settings !! key with
  | Some val => conv val
  | None => mret dflt
  end.

(** [val, ok := settings[key]; if !ok { return fmt.Errorf(msg) };
    x = val.(string)] *)
Definition settingRequired (settings : gmap string jsonValue) (key msg : string)
  : M string :=
  match settings !! key with
  | Some val => assertString val
  | None => fail msg
  end.

Definition second : Z := 1000000000.   (* time.Second, in nanoseconds *)

(** Lines 64-216: the settings, one after the other. *)
Definition applySettings (settings : gmap string jsonValue) : M Z :=
  v ← settingOr settings "cleanup_timers" false assertBool;
  assign "cleanupTimers" (VBool v);;
  v ← settingOr settings "dcp_stream_boundary" "everything" assertString;
  assign "dcpStreamBoundary" (VString v);;
  v ← settingOr settings "log_level" "INFO" assertString;
  assign "logLevel" (VString v);;
  v ← settingOr settings "tick_duration" 5000 assertInt;
  assign "statsTickDuration" (VInt v);;
  workerCount ← settingOr settings "worker_count" 3 assertInt;
  assign "workerCount" (VInt workerCount);;
  v ← settingOr settings "timer_worker_pool_size" 3 assertInt;
  assign "timerWorkerPoolSize" (VInt v);;
  v ← settingOr settings "sock_batch_size" 100 assertInt;
  assign "socketWriteBatchSize" (VInt v);;
  v ← settingOr settings "skip_timer_threshold" 86400 assertInt;
  assign "skipTimerThreshold" (VInt v);;
  v ← settingRequired settings "rbacuser" "rbac username missing";
  assign "rbacUser" (VString v);;
  v ← settingRequired settings "rbacpass" "rbac password missing";
  assign "rbacPass" (VString v);;
  v ← settingOr settings "lcb_inst_capacity" 5 assertInt;
  assign "lcbInstCapacity" (VInt v);;
  v ← settingOr settings "enable_recursive_mutation" false assertBool;
  assign "enableRecursiveMutation" (VBool v);;
  v ← settingOr settings "deadline_timeout" (2 * second)
        (λ val, n ← assertInt val; mret (int64 (n * second)));
  assign "socketTimeout" (VInt v);;
  v ← settingOr settings "vb_ownership_giveup_routine_count" 3 assertInt;
  assign "vbOwnershipGiveUpRoutineCount" (VInt v);;
  v ← settingOr settings "vb_ownership_takeover_routine_count" 3 assertInt;
  assign "vbOwnershipTakeoverRoutineCount" (VInt v);;
  v ← settingOr settings "execution_timeout" 1 assertInt;
  assign "executionTimeout" (VInt v);;
  v ← settingOr settings "fuzz_offset" 30 assertInt;
  assign "fuzzOffset" (VInt v);;
  v ← settingOr settings "cpp_worker_thread_count" 1 assertInt;
  assign "cppWorkerThrCount" (VInt v);;
  v ← settingOr settings "memory_quota" 256 assertInt;
  assign "plasmaMemQuota" (VInt v);;
  v ← settingOr settings "xattr_doc_timer_entry_prune_threshold" 100 assertInt;
  assign "xattrEntryPruneThreshold" (VInt v);;
  p ← getProducer;
  v ← settingOr settings "app_log_dir"
        (eventingDir p +:+ "/" +:+ pAppName p +:+ ".log")
        (λ val, dir ← assertString val; mret (dir +:+ "/" +:+ pAppName p));
  assign "appLogPath" (VString v);;
  v ← settingOr settings "app_log_max_size" (1024 * 1024 * 10) assertInt;
  assign "appLogMaxSize" (VInt v);;
  v ← settingOr settings "app_log_max_files" 10 assertInt;
  assign "appLogMaxFiles" (VInt v);;
  v ← settingOr settings "curl_timeout" 500 assertInt;
  assign "curlTimeout" (VInt v);;
  v ← settingOr settings "worker_queue_cap" (1000 * 1000) assertInt;
  assign "workerQueueCap" (VInt v);;
  mret workerCount.

(** [settings["log_level"].(string)] at line 220: the map read of a
    missing key gives [nil], on which the assertion panics. *)
Definition readLogLevel (settings : gmap string jsonValue) : M string :=
  assertString (default JNull (settings !! "log_level")).

Definition fetch {A} (r : fetched A) : M A :=
  match r with
  | Fetched a => mret a
  | FetchError e => fail e
  end.

(** [parseDepcfg] *)
Definition parseDepcfg (x : Env) : M unit :=
  let config := config x in
  setApp {| AppCode := appCode config;
            AppName := appName config;
            AppState := appUndeployed x;
            AppVersion := getHash x (appCode config);
            LastDeploy := now x;
            ID := Id x config;
            Settings := ∅ |};;
  assign "auth" (VString ((httpAuth x).1 +:+ ":" +:+ (httpAuth x).2));;
  (* depcfg is nil when the descriptor has no depCfg table *)
  depcfg ← match depCfg config with Some d => mret d | None => panic end;
  assign "bucket" (VString (sourceBucket depcfg));;
  assign "cfgData" (VString (cfgData x));;
  assign "metadatabucket" (VString (metadataBucket depcfg));;
  sData ← fetch (metakvSettings x);
  settings ← fetch (jsonUnmarshal x sData);
  workerCount ← applySettings settings;
  setAppSettings settings;;
  logLevel ← readLogLevel settings;
  (if decide (workerCount ≤ 0) then fail (errorUnexpectedWorkerCount x) else mret ());;
  localAddress ← fetch (localEventingServiceHost x);
  assign "kvHostPorts" (VStrings (kvNodesAddresses x).1);;
  match (kvNodesAddresses x).2 with Some err => fail err | None => mret () end;;
  p ← getProducer;
  assign "nsServerHostPort" (VString (localAddress +:+ ":" +:+ nsServerPort p)).

(** *** Properties *)

Lemma bind_Ok {A B} (m : M A) (f : A → M B) p b p' :
  (m ≫= f) p = Ok b p' → ∃ a p1, m p = Ok a p1 ∧ f a p1 = Ok b p'.
Proof.
  unfold mbind, M_bind. destruct (m p) as [a p1|e p1|p1]; [|done..].
  intros H. by exists a, p1.
Qed.

(** Peels the successful steps off a run that ended well. *)
Ltac peel H :=
  let a := fresh "a" in let p := fresh "p" in
  let E := fresh "E" in
  apply bind_Ok in H as (a & p & E & H).

Lemma readLogLevel_absent settings p :
  settings !! "log_level" = None → readLogLevel settings p = Panic p.
Proof. intros H. unfold readLogLevel. by rewrite H. Qed.

(** A settings document without [log_level] never loads: whatever else it
    holds, the run ends in an error or in a panic. *)
Lemma parseDepcfg_needs_log_level x p sData settings :
  metakvSettings x = Fetched sData →
  jsonUnmarshal x sData = Fetched settings →
  settings !! "log_level" = None →
  ∀ u p', parseDepcfg x p ≠ Ok u p'.
Proof.
  intros Hs Hj Hl u p' H. unfold parseDepcfg in H.
  do 6 peel H. peel H. rewrite Hs in E5. injection E5 as <- <-.
  peel H. rewrite Hj in E5. injection E5 as <- <-.
  do 2 peel H. peel H.
  by rewrite readLogLevel_absent in E7.
Qed.

(** Without [rbacuser] or without [rbacpass] the settings are refused. *)
Lemma applySettings_needs_rbac settings p :
  settings !! "rbacuser" = None ∨ settings !! "rbacpass" = None →
  ∀ wc p', applySettings settings p ≠ Ok wc p'.
Proof.
  intros Hr wc p' H. unfold applySettings in H.
  do 16 peel H. peel H.
  unfold settingRequired in E15.
  destruct (settings !! "rbacuser") eqn:Hu; [|done].
  do 2 peel H. unfold settingRequired in E17.
  destruct Hr as [Hr|Hr]; [done|]. by rewrite Hr in E17.
Qed.

Lemma parseDepcfg_needs_rbac x p sData settings :
  metakvSettings x = Fetched sData →
  jsonUnmarshal x sData = Fetched settings →
  settings !! "rbacuser" = None ∨ settings !! "rbacpass" = None →
  ∀ u p', parseDepcfg x p ≠ Ok u p'.
Proof.
  intros Hs Hj Hr u p' H. unfold parseDepcfg in H.
  do 6 peel H. peel H. rewrite Hs in E5. injection E5 as <- <-.
  peel H. rewrite Hj in E5. injection E5 as <- <-.
  peel H. by apply applySettings_needs_rbac in E5.
Qed.

(** The optional settings: key, producer field, default. *)
Definition optionalSettings : list (string * string * fieldValue) :=
  [ ("cleanup_timers", "cleanupTimers", VBool false);
    ("dcp_stream_boundary", "dcpStreamBoundary", VString "everything");
    ("log_level", "logLevel", VString "INFO");
    ("tick_duration", "statsTickDuration", VInt 5000);
    ("worker_count", "workerCount", VInt 3);
    ("timer_worker_pool_size", "timerWorkerPoolSize", VInt 3);
    ("sock_batch_size", "socketWriteBatchSize", VInt 100);
    ("skip_timer_threshold", "skipTimerThreshold", VInt 86400);
    ("lcb_inst_capacity", "lcbInstCapacity", VInt 5);
    ("enable_recursive_mutation", "enableRecursiveMutation", VBool false);
    ("deadline_timeout", "socketTimeout", VInt 2000000000);
    ("vb_ownership_giveup_routine_count", "vbOwnershipGiveUpRoutineCount", VInt 3);
    ("vb_ownership_takeover_routine_count", "vbOwnershipTakeoverRoutineCount", VInt 3);
    ("execution_timeout", "executionTimeout", VInt 1);
    ("fuzz_offset", "fuzzOffset", VInt 30);
    ("cpp_worker_thread_count", "cppWorkerThrCount", VInt 1);
    ("memory_quota", "plasmaMemQuota", VInt 256);
    ("xattr_doc_timer_entry_prune_threshold", "xattrEntryPruneThreshold", VInt 100);
    ("app_log_max_size", "appLogMaxSize", VInt 10485760);
    ("app_log_max_files", "appLogMaxFiles", VInt 10);
    ("curl_timeout", "curlTimeout", VInt 500);
    ("worker_queue_cap", "workerQueueCap", VInt 1000000) ].

(** A present value has the type its type assertion asks for. *)
Definition sameKind (d : fieldValue) (v : jsonValue) : Prop :=
  match d, v with
  | VBool _, JBool _ | VString _, JString _ | VInt _, JNumber _ => True
  | _, _ => False
  end.

Definition wellTyped (settings : gmap string jsonValue) : Prop :=
  (∀ key field d v, (key, field, d) ∈ optionalSettings →
     settings !! key = Some v → sameKind d v) ∧
  (∀ v, settings !! "app_log_dir" = Some v → ∃ s, v = JString s).

(** [key] is an optional setting with default [d]. *)
Definition hasDefault (key : string) (d : fieldValue) : bool :=
  bool_decide ((key, d) ∈ (λ e, (e.1.1, e.2)) <$> optionalSettings).

Lemma hasDefault_elem key d :
  hasDefault key d = true → ∃ field, (key, field, d) ∈ optionalSettings.
Proof.
  intros H%bool_decide_eq_true_1.
  apply list_elem_of_fmap in H as ([[k f] d'] & [= -> ->] & Hin). by exists f.
Qed.

Lemma settingOr_total {A} settings key (d : A) (conv : jsonValue → M A) :
  (∀ val, settings !! key = Some val → ∃ a, ∀ p, conv val p = Ok a p) →
  ∃ a, (∀ p, settingOr settings key d conv p = Ok a p)
       ∧ (settings !! key = None → a = d).
Proof.
  intros H. unfold settingOr. destruct (settings !! key) as [val|].
  - destruct (H val eq_refl) as [a Ha]. exists a. split; [done|]. done.
  - by exists d.
Qed.

Lemma bool_setting settings key d :
  wellTyped settings → hasDefault key (VBool d) = true →
  ∃ a, (∀ p, settingOr settings key d assertBool p = Ok a p)
       ∧ (settings !! key = None → a = d).
Proof.
  intros [Hwt _] [field Hin]%hasDefault_elem. apply settingOr_total. intros val Hval.
  specialize (Hwt _ _ _ _ Hin Hval). destruct val; try done. by eexists.
Qed.

Lemma string_setting settings key d :
  wellTyped settings → hasDefault key (VString d) = true →
  ∃ a, (∀ p, settingOr settings key d assertString p = Ok a p)
       ∧ (settings !! key = None → a = d).
Proof.
  intros [Hwt _] [field Hin]%hasDefault_elem. apply settingOr_total. intros val Hval.
  specialize (Hwt _ _ _ _ Hin Hval). destruct val; try done. by eexists.
Qed.

Lemma int_setting settings key d :
  wellTyped settings → hasDefault key (VInt d) = true →
  ∃ a, (∀ p, settingOr settings key d assertInt p = Ok a p)
       ∧ (settings !! key = None → a = d).
Proof.
  intros [Hwt _] [field Hin]%hasDefault_elem. apply settingOr_total. intros val Hval.
  specialize (Hwt _ _ _ _ Hin Hval). destruct val; try done. by eexists.
Qed.

Lemma assign_run {B} name v (f : unit → M B) p :
  (assign name v ≫= f) p
  = f () {| pAppName := pAppName p; eventingDir := eventingDir p;
            nsServerPort := nsServerPort p; app := app p;
            assigned := <[name := v]> (assigned p) |}.
Proof. reflexivity. Qed.

Lemma bind_run {A B} (m : M A) (f : A → M B) p a p1 :
  m p = Ok a p1 → (m ≫= f) p = f a p1.
Proof. intros H. unfold mbind, M_bind. by rewrite H. Qed.

Lemma duration_setting settings :
  wellTyped settings →
  ∃ a, (∀ p, settingOr settings "deadline_timeout" (2 * second)
               (λ val, n ← assertInt val; mret (int64 (n * second))) p = Ok a p)
       ∧ (settings !! "deadline_timeout" = None → a = 2000000000).
Proof.
  intros [Hwt _]. apply settingOr_total. intros val Hval.
  assert (hasDefault "deadline_timeout" (VInt 2000000000) = true) as Hd
    by (vm_compute; reflexivity).
  apply hasDefault_elem in Hd as [field Hin].
  specialize (Hwt _ _ _ _ Hin Hval). destruct val; try done. by eexists.
Qed.

Lemma log_dir_setting settings (p0 : Producer) :
  wellTyped settings →
  ∃ a, (∀ p, settingOr settings "app_log_dir"
               (eventingDir p0 +:+ "/" +:+ pAppName p0 +:+ ".log")
               (λ val, dir ← assertString val; mret (dir +:+ "/" +:+ pAppName p0)) p
             = Ok a p)
       ∧ (settings !! "app_log_dir" = None →
          a = eventingDir p0 +:+ "/" +:+ pAppName p0 +:+ ".log").
Proof.
  intros [_ Hwt]. apply settingOr_total. intros val Hval.
  destruct (Hwt val Hval) as [s ->]. by eexists.
Qed.

Lemma getProducer_run {B} (f : Producer → M B) p : (getProducer ≫= f) p = f p p.
Proof. reflexivity. Qed.

Lemma settingRequired_run settings key msg s p :
  settings !! key = Some (JString s) → settingRequired settings key msg p = Ok s p.
Proof. intros H. unfold settingRequired. by rewrite H. Qed.

(** One optional setting of [applySettings] and the assignment after it. *)
Ltac run_setting Hwt lem :=
  lazymatch goal with
  | |- context [mbind _ (settingOr ?s ?k ?d ?c) ?p0] =>
      let a := fresh "v" in let E := fresh "E" in let D := fresh "D" in
      destruct (lem s k d) as (a & E & D);
        [exact Hwt | vm_compute; reflexivity |];
      rewrite (bind_run _ _ _ _ _ (E _)), assign_run; cbn [pAppName eventingDir
        nsServerPort app assigned]
  end.

(** On well-typed settings that hold both RBAC strings, lines 64-216 run
    to their end, and every optional setting that is absent leaves its
    default in the producer. *)
Lemma applySettings_defaults settings p u w :
  settings !! "rbacuser" = Some (JString u) →
  settings !! "rbacpass" = Some (JString w) →
  wellTyped settings →
  ∃ wc p',
    applySettings settings p = Ok wc p' ∧
    (settings !! "worker_count" = None → wc = 3) ∧
    (∀ key field d, (key, field, d) ∈ optionalSettings →
       settings !! key = None → assigned p' !! field = Some d) ∧
    (settings !! "app_log_dir" = None →
       assigned p' !! "appLogPath"
       = Some (VString (eventingDir p +:+ "/" +:+ pAppName p +:+ ".log"))).
Proof.
  intros Hu Hw Hwt. unfold applySettings.
  run_setting Hwt bool_setting.
  run_setting Hwt string_setting.
  run_setting Hwt string_setting.
  do 5 run_setting Hwt int_setting.
  rewrite (bind_run _ _ _ _ _ (settingRequired_run _ _ _ _ _ Hu)), assign_run.
  rewrite (bind_run _ _ _ _ _ (settingRequired_run _ _ _ _ _ Hw)), assign_run.
  cbn [pAppName eventingDir nsServerPort app assigned].
  run_setting Hwt int_setting.
  run_setting Hwt bool_setting.
  destruct (duration_setting settings Hwt) as (vd & Ed & Dd).
  rewrite (bind_run _ _ _ _ _ (Ed _)), assign_run.
  cbn [pAppName eventingDir nsServerPort app assigned].
  do 7 run_setting Hwt int_setting.
  rewrite getProducer_run. cbn [pAppName eventingDir nsServerPort app assigned].
  destruct (log_dir_setting settings p Hwt) as (vl & El & Dl).
  rewrite (bind_run _ _ _ _ _ (El _)), assign_run.
  cbn [pAppName eventingDir nsServerPort app assigned].
  do 4 run_setting Hwt int_setting.
  eexists _, _. split; [reflexivity|]. split; [done|].
  cbn [assigned]. split.
  - intros key field d Hin Habs.
    repeat (apply elem_of_cons in Hin as [Hin|Hin];
            [ injection Hin as -> -> ->;
              match goal with
              | D : settings !! ?k = None → _ = _, H : settings !! ?k = None |- _ =>
                  rewrite (D H)
              end;
              repeat (rewrite lookup_insert_ne by discriminate);
              apply lookup_insert_eq
            | ]).
    by apply elem_of_nil in Hin.
  - intros Habs. rewrite (Dl Habs).
    repeat (rewrite lookup_insert_ne by discriminate). apply lookup_insert_eq.
Qed.



(** *** What reaches the application record *)

(** The producer as a run leaves it, however the run ends. *)
Definition finalProducer {A} (r : result A) : Producer :=
  match r with
  | Ok _ p | Err _ p | Panic p => p
  end.

(** How a run ended. *)
Inductive outcome :=
| Loaded
| Failed (err : string)
| Panicked.

Definition outcomeOf {A} (r : result A) : outcome :=
  match r with
  | Ok _ _ => Loaded
  | Err e _ => Failed e
  | Panic _ => Panicked
  end.

(** [m] keeps the property [Q] of the producer. *)
Definition keeps (Q : Producer → Prop) {A} (m : M A) : Prop :=
  ∀ p, Q p → Q (finalProducer (m p)).

Section keeps.
Variable Q : Producer → Prop.
Hypothesis Q_app : ∀ p p', app p' = app p → Q p → Q p'.

Lemma keeps_bind {A B} (m : M A) (f : A → M B) :
  keeps Q m → (∀ a, keeps Q (f a)) → keeps Q (m ≫= f).
Proof.
  intros Hm Hf p Hp. specialize (Hm p Hp).
  unfold mbind, M_bind. destruct (m p) as [a p1|e p1|p1]; simpl in *; [|done..].
  by apply Hf.
Qed.

Lemma keeps_ret {A} (a : A) : keeps Q (mret a).
Proof. by intros p Hp. Qed.

Lemma keeps_fail {A} e : keeps Q (@fail A e).
Proof. by intros p Hp. Qed.

Lemma keeps_panic {A} : keeps Q (@panic A).
Proof. by intros p Hp. Qed.

Lemma keeps_assign name v : keeps Q (assign name v).
Proof. intros p Hp. simpl. by apply (Q_app p). Qed.

Lemma keeps_getProducer : keeps Q getProducer.
Proof. by intros p Hp. Qed.


Lemma keeps_assertBool v : keeps Q (assertBool v).
Proof. destruct v; simpl; first [apply keeps_ret|apply keeps_panic]. Qed.

Lemma keeps_assertString v : keeps Q (assertString v).
Proof. destruct v; simpl; first [apply keeps_ret|apply keeps_panic]. Qed.

Lemma keeps_assertInt v : keeps Q (assertInt v).
Proof.
  unfold assertInt, assertFloat64. apply keeps_bind; [|intros; apply keeps_ret].
  destruct v; simpl; first [apply keeps_ret|apply keeps_panic].
Qed.

Lemma keeps_settingOr {A} settings key (d : A) conv :
  (∀ v, keeps Q (conv v)) → keeps Q (settingOr settings key d conv).
Proof. intros H. unfold settingOr. destruct (settings !! key); [done|apply keeps_ret]. Qed.

Lemma keeps_settingRequired settings key msg :
  keeps Q (settingRequired settings key msg).
Proof.
  unfold settingRequired.
  destruct (settings !! key); [apply keeps_assertString|apply keeps_fail].
Qed.

Lemma keeps_applySettings settings : keeps Q (applySettings settings).
Proof.
  unfold applySettings.
  repeat first
    [ apply keeps_assertBool | apply keeps_assertString | apply keeps_assertInt
    | apply keeps_settingRequired
    | apply keeps_settingOr; intros ?
    | apply keeps_ret | apply keeps_assign | apply keeps_getProducer
    | apply keeps_bind; [|intros ?] ].
Qed.

End keeps.

Lemma setApp_run {B} a (f : unit → M B) p :
  (setApp a ≫= f) p
  = f () {| pAppName := pAppName p; eventingDir := eventingDir p;
            nsServerPort := nsServerPort p; app := Some a;
            assigned := assigned p |}.
Proof. reflexivity. Qed.


(** The environment [x] with the descriptor [c]. *)
Definition withConfig (c : Config) (x : Env) : Env :=
  {| cfgData := cfgData x; config := c; Id := Id x;
     appUndeployed := appUndeployed x;
     errorUnexpectedWorkerCount := errorUnexpectedWorkerCount x;
     getHash := getHash x; now := now x; httpAuth := httpAuth x;
     metakvSettings := metakvSettings x; jsonUnmarshal := jsonUnmarshal x;
     localEventingServiceHost := localEventingServiceHost x;
     kvNodesAddresses := kvNodesAddresses x |}.


(** *** When the settings go through *)

(** The worker count that lines 92-96 leave in [p.workerCount]. *)
Definition workerCountOf (settings : gmap string jsonValue) : Z :=
  match settings !! "worker_count" with
  | Some (JNumber f) => truncate f
  | _ => 3
  end.

Lemma ret_run {A B} (a : A) (f : A → M B) p : (mret a ≫= f) p = f a p.
Proof. reflexivity. Qed.

Lemma fail_run {A B} e (f : A → M B) p : (fail e ≫= f) p = Err e p.
Proof. reflexivity. Qed.

(** Peels every step off a run that ended well. *)
Ltac peel_all H := repeat peel H.

Lemma applySettings_ok_inv settings p wc p' :
  applySettings settings p = Ok wc p' →
  wellTyped settings
  ∧ (∃ u, settings !! "rbacuser" = Some (JString u))
  ∧ (∃ w, settings !! "rbacpass" = Some (JString w))
  ∧ wc = workerCountOf settings.
Proof.
  intros H. unfold applySettings in H. peel_all H.
  injection H as <- <-.
  repeat match goal with
         | E : assign _ _ _ = Ok _ _ |- _ => clear E
         | E : getProducer _ = Ok _ _ |- _ => clear E
         end.
  split_and!.
  - split.
    + intros key field d v Hin Hval.
      repeat (apply elem_of_cons in Hin as [Hin|Hin];
              [ injection Hin as -> -> ->;
                match goal with
                | Hv : settings !! ?k = Some _,
                  E : settingOr settings ?k _ _ _ = Ok _ _ |- _ =>
                    unfold settingOr in E; rewrite Hv in E;
                    destruct v; try done; discriminate E
                end
              | ]).
      by apply elem_of_nil in Hin.
    + intros v Hval.
      match goal with
      | E : settingOr settings "app_log_dir" _ _ _ = Ok _ _ |- _ =>
          unfold settingOr in E; rewrite Hval in E;
          destruct v; try discriminate E; by eexists
      end.
  - match goal with
    | E : settingRequired settings "rbacuser" _ _ = Ok _ _ |- _ =>
        unfold settingRequired in E;
        destruct (settings !! "rbacuser") as [[]|]; try discriminate E; by eexists
    end.
  - match goal with
    | E : settingRequired settings "rbacpass" _ _ = Ok _ _ |- _ =>
        unfold settingRequired in E;
        destruct (settings !! "rbacpass") as [[]|]; try discriminate E; by eexists
    end.
  - match goal with
    | E : settingOr settings "worker_count" _ _ _ = Ok _ _ |- _ =>
        unfold settingOr, workerCountOf in *;
        destruct (settings !! "worker_count") as [[]|]; try discriminate E;
        by injection E
    end.
Qed.

Lemma applySettings_runs settings p u w :
  settings !! "rbacuser" = Some (JString u) →
  settings !! "rbacpass" = Some (JString w) →
  wellTyped settings →
  ∃ p', applySettings settings p = Ok (workerCountOf settings) p'.
Proof.
  intros Hu Hw Hwt.
  destruct (applySettings_defaults settings p u w Hu Hw Hwt) as (wc & p' & E & _).
  exists p'. by destruct (applySettings_ok_inv _ _ _ _ E) as (_ & _ & _ & <-).
Qed.

(** X16.  Lines 64-216 run to their end exactly on settings that hold the
    two RBAC entries as strings and give every optional key that is
    present a value of the type its assertion asks for; a missing RBAC
    entry is refused with an error and a value of another type stops the
    run with a panic, so neither ends well. *)
Theorem applySettings_ok_iff (settings : gmap string jsonValue) (p : Producer) :
  (∃ wc p', applySettings settings p = Ok wc p') ↔
  wellTyped settings
  ∧ (∃ u, settings !! "rbacuser" = Some (JString u))
  ∧ (∃ w, settings !! "rbacpass" = Some (JString w)).
Proof.
  split.
  - intros (wc & p' & H). apply applySettings_ok_inv in H. tauto.
  - intros (Hwt & [u Hu] & [w Hw]).
    destruct (applySettings_runs settings p u w Hu Hw Hwt) as [p' E]. by eexists _, _.
Qed.

(** The application record that [parseDepcfg] allocates. *)
Definition appOf (x : Env) (settings : gmap string jsonValue) : AppConfig :=
  {| AppCode := appCode (config x);
     AppName := appName (config x);
     AppState := appUndeployed x;
     AppVersion := getHash x (appCode (config x));
     LastDeploy := now x;
     ID := Id x (config x);
     Settings := settings |}.

Lemma applySettings_app settings p wc p' :
  applySettings settings p = Ok wc p' → app p' = app p.
Proof.
  intros E.
  pose proof (keeps_applySettings (λ q, app q = app p)
                ltac:(intros ?? H1 H2; simpl in *; congruence) settings p eq_refl) as H.
  by rewrite E in H.
Qed.

Lemma setAppSettings_run {B} settings (f : unit → M B) p a :
  app p = Some a →
  (setAppSettings settings ≫= f) p
  = f () {| pAppName := pAppName p; eventingDir := eventingDir p;
            nsServerPort := nsServerPort p;
            app := Some {| AppCode := AppCode a; AppName := AppName a;
                           AppState := AppState a; AppVersion := AppVersion a;
                           LastDeploy := LastDeploy a; ID := ID a;
                           Settings := settings |};
            assigned := assigned p |}.
Proof. intros H. unfold mbind, M_bind, setAppSettings. by rewrite H. Qed.

Lemma readLogLevel_run {B} settings l (f : string → M B) p :
  settings !! "log_level" = Some (JString l) →
  (readLogLevel settings ≫= f) p = f l p.
Proof. intros H. unfold mbind, M_bind, readLogLevel. by rewrite H. Qed.

(** The steps of [parseDepcfg] from the test of the worker count on. *)
Definition afterSettings (x : Env) (workerCount : Z) : M unit :=
  (if decide (workerCount ≤ 0) then fail (errorUnexpectedWorkerCount x) else mret ());;
  localAddress ← fetch (localEventingServiceHost x);
  assign "kvHostPorts" (VStrings (kvNodesAddresses x).1);;
  match (kvNodesAddresses x).2 with Some err => fail err | None => mret () end;;
  p ← getProducer;
  assign "nsServerHostPort" (VString (localAddress +:+ ":" +:+ nsServerPort p)).

(** The run of [parseDepcfg] up to the test of the worker count, on
    settings that go through. *)
Lemma parseDepcfg_settings_run x p d sData settings u w l :
  depCfg (config x) = Some d →
  metakvSettings x = Fetched sData →
  jsonUnmarshal x sData = Fetched settings →
  wellTyped settings →
  settings !! "rbacuser" = Some (JString u) →
  settings !! "rbacpass" = Some (JString w) →
  settings !! "log_level" = Some (JString l) →
  ∃ p1, app p1 = Some (appOf x settings) ∧
    parseDepcfg x p = afterSettings x (workerCountOf settings) p1.
Proof.
  intros Hd Hs Hj Hwt Hu Hw Hl. unfold parseDepcfg.
  rewrite setApp_run, assign_run, Hd, ret_run, !assign_run, Hs. cbn [fetch].
  rewrite ret_run, Hj. cbn [fetch]. rewrite ret_run.
  cbn [pAppName eventingDir nsServerPort app assigned].
  match goal with
  | |- context [mbind _ (applySettings settings) ?p0] =>
      destruct (applySettings_runs settings p0 u w Hu Hw Hwt) as [p1 E];
      pose proof (applySettings_app _ _ _ _ E) as Happ
  end.
  rewrite (bind_run _ _ _ _ _ E). cbn [app] in Happ.
  rewrite (setAppSettings_run _ _ _ _ Happ).
  rewrite (readLogLevel_run _ l) by done.
  eexists. split; [|reflexivity]. reflexivity.
Qed.

Lemma afterSettings_outcome x wc p1 :
  outcomeOf (afterSettings x wc p1) =
    if decide (wc ≤ 0) then Failed (errorUnexpectedWorkerCount x)
    else match localEventingServiceHost x with
         | FetchError e => Failed e
         | Fetched _ =>
             match (kvNodesAddresses x).2 with
             | Some e => Failed e
             | None => Loaded
             end
         end.
Proof.
  unfold afterSettings. case_decide; [done|]. rewrite ret_run.
  destruct (localEventingServiceHost x) as [h|e]; [|done].
  cbn [fetch]. rewrite ret_run, assign_run.
  destruct (kvNodesAddresses x).2; done.
Qed.

Lemma afterSettings_app x wc p1 :
  app (finalProducer (afterSettings x wc p1)) = app p1.
Proof.
  unfold afterSettings. case_decide; [done|]. rewrite ret_run.
  destruct (localEventingServiceHost x) as [h|e]; [|done].
  cbn [fetch]. rewrite ret_run, assign_run.
  destruct (kvNodesAddresses x).2; done.
Qed.

(** What a load that succeeds has passed. *)
Lemma parseDepcfg_loaded_inv x p :
  outcomeOf (parseDepcfg x p) = Loaded →
  is_Some (depCfg (config x)) ∧
  ∃ sData settings,
    metakvSettings x = Fetched sData ∧
    jsonUnmarshal x sData = Fetched settings ∧
    wellTyped settings ∧
    (∃ u, settings !! "rbacuser" = Some (JString u)) ∧
    (∃ w, settings !! "rbacpass" = Some (JString w)) ∧
    (∃ l, settings !! "log_level" = Some (JString l)) ∧
    0 < workerCountOf settings ∧
    (∃ h, localEventingServiceHost x = Fetched h) ∧
    (kvNodesAddresses x).2 = None.
Proof.
  intros Hload.
  destruct (parseDepcfg x p) as [[] p'| |] eqn:H; try done. clear Hload.
  unfold parseDepcfg in H.
  do 2 peel H. peel H.
  destruct (depCfg (config x)) as [d|] eqn:Hd; [|done]. injection E1 as <- <-.
  do 3 peel H. peel H.
  destruct (metakvSettings x) as [sData|] eqn:Hs; [|done]. injection E4 as <- <-.
  peel H.
  destruct (jsonUnmarshal x sData) as [settings|] eqn:Hj; [|done].
  injection E4 as <- <-.
  peel H. apply applySettings_ok_inv in E4 as (Hwt & Hu & Hw & ->).
  do 2 peel H. unfold readLogLevel in E5.
  destruct (settings !! "log_level") as [[]|] eqn:Hl; try done.
  peel H. case_decide as Hwc; [done|].
  peel H. destruct (localEventingServiceHost x) as [h|] eqn:Hh; [|done].
  do 2 peel H. destruct (kvNodesAddresses x).2 eqn:Hkv; [done|].
  split; [by eexists|]. exists sData, settings.
  split_and!; try done; [by eexists|lia|by eexists].
Qed.

(** X17.  Once the settings have gone through and the log level has been
    read, [parseDepcfg] ends as follows, in this order: a worker count of
    zero or less is refused with [errorUnexpectedWorkerCount]; then a
    failure to find the address of the local eventing service is handed
    up; then a failure of [KVNodesAddresses] is handed up, the list it
    returned being assigned to [kvHostPorts] all the same; otherwise the
    load succeeds.  However it ends, the application record then holds the
    settings as fetched. *)
Theorem parseDepcfg_after_settings (x : Env) (p : Producer) d sData settings u w l :
  depCfg (config x) = Some d →
  metakvSettings x = Fetched sData →
  jsonUnmarshal x sData = Fetched settings →
  wellTyped settings →
  settings !! "rbacuser" = Some (JString u) →
  settings !! "rbacpass" = Some (JString w) →
  settings !! "log_level" = Some (JString l) →
  let r := parseDepcfg x p in
  app (finalProducer r) = Some (appOf x settings) ∧
  outcomeOf r =
    (if decide (workerCountOf settings ≤ 0) then Failed (errorUnexpectedWorkerCount x)
     else match localEventingServiceHost x with
          | FetchError e => Failed e
          | Fetched _ =>
              match (kvNodesAddresses x).2 with
              | Some e => Failed e
              | None => Loaded
              end
          end) ∧
  (∀ h, 0 < workerCountOf settings →
        localEventingServiceHost x = Fetched h →
        assigned (finalProducer r) !! "kvHostPorts"
        = Some (VStrings (kvNodesAddresses x).1)).
Proof.
  intros Hd Hs Hj Hwt Hu Hw Hl r.
  destruct (parseDepcfg_settings_run x p d sData settings u w l)
    as (p1 & Happ & Erun); try done.
  subst r. rewrite Erun. clear Erun. split_and!.
  - by rewrite afterSettings_app.
  - apply afterSettings_outcome.
  - intros h Hwc Hh. unfold afterSettings. rewrite decide_False by lia.
    rewrite ret_run, Hh. cbn [fetch]. rewrite ret_run, assign_run.
    destruct (kvNodesAddresses x).2.
    + cbn [finalProducer assigned]. rewrite fail_run. cbn [finalProducer assigned].
      apply lookup_insert_eq.
    + rewrite ret_run, getProducer_run. cbn [finalProducer assign assigned].
      rewrite lookup_insert_ne by done. apply lookup_insert_eq.
Qed.

(** X18.  [parseDepcfg] loads an application exactly when: the descriptor
    has its [depCfg] table; the settings are fetched and decoded; they hold
    the two RBAC entries and [log_level] as strings and every optional key
    that is present with a value of the asserted type; the worker count,
    given or defaulted, is positive; and the two address lookups succeed. *)
Theorem parseDepcfg_loads_iff (x : Env) (p : Producer) :
  outcomeOf (parseDepcfg x p) = Loaded ↔
  is_Some (depCfg (config x)) ∧
  ∃ sData settings,
    metakvSettings x = Fetched sData ∧
    jsonUnmarshal x sData = Fetched settings ∧
    wellTyped settings ∧
    (∃ u, settings !! "rbacuser" = Some (JString u)) ∧
    (∃ w, settings !! "rbacpass" = Some (JString w)) ∧
    (∃ l, settings !! "log_level" = Some (JString l)) ∧
    0 < workerCountOf settings ∧
    (∃ h, localEventingServiceHost x = Fetched h) ∧
    (kvNodesAddresses x).2 = None.
Proof.
  split; [apply parseDepcfg_loaded_inv|].
  intros ([d Hd] & sData & settings & Hs & Hj & Hwt & [u Hu] & [w Hw] & [l Hl]
          & Hwc & [h Hh] & Hkv).
  destruct (parseDepcfg_settings_run x p d sData settings u w l)
    as (p1 & Happ & Erun); try done.
  rewrite Erun, afterSettings_outcome, decide_False by lia. by rewrite Hh, Hkv.
Qed.

(** X19.  A load that succeeds leaves the application record of the
    descriptor in the producer: code and name as the descriptor has them,
    the state [appUndeployed], the hash of the code as version, the time of
    the call, the number read through [Id()], and as [Settings] the very
    map that was decoded, entries the loader knows nothing of included. *)
Theorem parseDepcfg_loaded_app (x : Env) (p p' : Producer) :
  parseDepcfg x p = Ok () p' →
  ∃ sData settings,
    metakvSettings x = Fetched sData ∧
    jsonUnmarshal x sData = Fetched settings ∧
    app p' = Some (appOf x settings).
Proof.
  intros Hok.
  assert (Hload : outcomeOf (parseDepcfg x p) = Loaded) by (by rewrite Hok).
  apply parseDepcfg_loaded_inv in Hload
    as ([d Hd] & sData & settings & Hs & Hj & Hwt & [u Hu] & [w Hw] & [l Hl] & _).
  exists sData, settings. split; [done|]. split; [done|].
  destruct (parseDepcfg_settings_run x p d sData settings u w l)
    as (p1 & Happ & Erun); try done.
  pose proof (afterSettings_app x (workerCountOf settings) p1) as Hfin.
  rewrite <- Erun, Hok in Hfin. cbn [finalProducer] in Hfin.
  by rewrite Hfin.
Qed.

End parse.

Arguments Ok {float64 A} a p.
Arguments Err {float64 A} err p.
Arguments Panic {float64 A} p.

(** *** A concrete load *)

Definition sampleConfig : Config :=
  {| appCode := "function OnUpdate(doc, meta) {}";
     appName := "app1";
     depCfg := Some {| buckets := [];
                       metadataBucket := "eventing";
                       sourceBucket := "default";
                       sourceScope := ""; sourceCollection := "";
                       metadataScope := ""; metadataCollection := "" |};
     handlerUUID := 1;
     reserved1 := 0; reserved2 := false;
     functionInstanceID := "";
     reserved3 := false;
     access := []; curl := []; enforceSchema := false; constants := [];
     lifecycleState := ""; version := "" |}.

(** JSON numbers are taken integral here, so [Z] stands for [float64].
    The loader was written against the revision of the schema in which the
    fifth field of [Config] is [id]; the schema at hand keeps that field in
    its place under another name ([reserved1:uint; // was id]), and a table
    is read by the place of a field, so [Id()] returns what a descriptor of
    the schema at hand holds as [reserved1]. *)
Definition sampleEnv (settings : gmap string (@jsonValue Z)) : @Env Z :=
  {| cfgData := "<descriptor bytes>";
     config := sampleConfig;
     Id := reserved1;
     appUndeployed := "undeployed";
     errorUnexpectedWorkerCount := "unexpected worker count";
     getHash := λ s, s;
     now := "2018-01-01T00:00:00.000000000+0000";
     httpAuth := ("user", "pass");
     metakvSettings := Fetched "<settings bytes>";
     jsonUnmarshal := λ _, Fetched settings;
     localEventingServiceHost := Fetched "10.0.0.1";
     kvNodesAddresses := (["10.0.0.1:11210"], None) |}.

Definition sampleProducer : @Producer Z :=
  {| pAppName := "app1"; eventingDir := "/data/eventing"; nsServerPort := "8091";
     app := None; assigned := ∅ |}.

(** [{"rbacuser": "u", "rbacpass": "p"}] *)
Definition rbacOnly : gmap string (@jsonValue Z) :=
  {[ "rbacuser" := JString "u"; "rbacpass" := JString "p" ]}.

(** C9 at the code.  Loading the settings [{"rbacuser": "u", "rbacpass":
    "p"}], which lack only optional keys, does not end with the defaults in
    place: the run sets [logLevel] to its default "INFO" and then panics at
    the unguarded [settings["log_level"].(string)]. *)
Theorem parseDepcfg_panics_without_log_level :
  let r := parseDepcfg id (sampleEnv rbacOnly) sampleProducer in
  outcomeOf r = Panicked
  ∧ assigned (finalProducer r) !! "logLevel" = Some (VString "INFO")
  ∧ assigned (finalProducer r) !! "workerCount" = Some (VInt 3).
Proof. split_and!; vm_compute; reflexivity. Qed.

(** With [log_level] given, the same load goes through, the defaults of
    the other optional settings in place. *)
Example parseDepcfg_loads_with_log_level :
  let r := parseDepcfg id (sampleEnv (<["log_level" := JString "INFO"]> rbacOnly))
             sampleProducer in
  outcomeOf r = Loaded
  ∧ assigned (finalProducer r) !! "workerCount" = Some (VInt 3)
  ∧ assigned (finalProducer r) !! "curlTimeout" = Some (VInt 500)
  ∧ assigned (finalProducer r) !! "appLogMaxSize" = Some (VInt 10485760)
  ∧ assigned (finalProducer r) !! "cleanupTimers" = Some (VBool false).
Proof. split_and!; vm_compute; reflexivity. Qed.

(** Without the RBAC user the load is refused with the error of line 115. *)
Example parseDepcfg_refuses_without_rbacuser :
  outcomeOf (parseDepcfg id (sampleEnv {[ "rbacpass" := JString "p" ]}) sampleProducer)
  = Failed "rbac username missing".
Proof. vm_compute. reflexivity. Qed.



Example reserved1_shows_in_id :
  ID <$> app (finalProducer
    (parseDepcfg id
       (withConfig (withReserved 7 false false sampleConfig) (sampleEnv rbacOnly))
       sampleProducer)) = Some 7.
Proof. vm_compute. reflexivity. Qed.

(** *** A load that goes through *)

(** [{"rbacuser": "u", "rbacpass": "p", "log_level": "INFO"}] *)
Definition loadable : gmap string (@jsonValue Z) :=
  <["log_level" := JString "INFO"]> rbacOnly.

Lemma loadable_wellTyped : wellTyped loadable.
Proof.
  split.
  - intros key field d v Hin Hval.
    repeat (apply elem_of_cons in Hin as [Hin|Hin];
            [ injection Hin as -> -> ->; vm_compute in Hval;
              try discriminate Hval; injection Hval as <-; exact I
            | ]).
    by apply elem_of_nil in Hin.
  - intros v Hval. vm_compute in Hval. discriminate Hval.
Qed.

Lemma parseDepcfg_after_settings_witness :
  outcomeOf (parseDepcfg id (sampleEnv loadable) sampleProducer) = Loaded.
Proof.
  exact (proj1 (proj2 (parseDepcfg_after_settings id (sampleEnv loadable) sampleProducer
                         _ "<settings bytes>" loadable "u" "p" "INFO"
                         eq_refl eq_refl eq_refl loadable_wellTyped
                         eq_refl eq_refl eq_refl))).
Defined.

Lemma parseDepcfg_loaded_app_witness :
  ∃ p', parseDepcfg id (sampleEnv loadable) sampleProducer = Ok () p'
        ∧ Settings <$> app p' = Some loadable.
Proof.
  assert (outcomeOf (parseDepcfg id (sampleEnv loadable) sampleProducer) = Loaded)
    as Hl by (vm_compute; reflexivity).
  destruct (parseDepcfg id (sampleEnv loadable) sampleProducer) as [[] p'| |] eqn:H;
    try discriminate Hl.
  exists p'. split; [reflexivity|].
  destruct (parseDepcfg_loaded_app id (sampleEnv loadable) sampleProducer p' H)
    as (sData & settings & _ & Hj & ->).
  simpl in Hj. by injection Hj as <-.
Defined.

(** A worker count of zero is refused after the settings are in place. *)
Example parseDepcfg_refuses_zero_workers :
  let r := parseDepcfg id (sampleEnv (<["worker_count" := JNumber 0]> loadable))
             sampleProducer in
  outcomeOf r = Failed "unexpected worker count"
  ∧ assigned (finalProducer r) !! "workerCount" = Some (VInt 0).
Proof. split_and!; vm_compute; reflexivity. Qed.

End Depcfg.
